(** * Film hardware image pipeline (slg/film/filmimagepipelinehw.cpp)

    A shallow embedding of [Film]'s hardware merge path: device selection
    in [CreateHWContext], buffer allocation, teardown and the merge
    orchestration of [MergeSampleBuffersHW], together with the properties
    of the design document that concern them.

    Conventions.
    - C++ [float] and [double] values are IEEE-754 binary32 and binary64
      numbers, represented by [spec_float] with the operations of
      [SpecFloat] at precision 24 and 53.
    - A pointer to an object of a vector is represented by the position of
      the object; a pointer that may be null is an [option].
    - An access through a null pointer or outside a vector is undefined
      behaviour in C++; the embedding reports it as a [Fault].
    - Log messages and timing are left out; every other call the film
      makes on the compute platform is recorded, in order. *)

From Stdlib Require Import ZArith Bool Lia SpecFloat.
From Stdlib.Strings Require Import Byte String.
From stdpp Require Import base option list countable gmap.

(** ** Floating point *)

Module F32.

Definition prec : Z := 24.
Definition emax : Z := 128.
Definition one : spec_float := SFone prec emax.
Definition mul : spec_float -> spec_float -> spec_float := SFmul prec emax.

End F32.

Module F64.

Definition prec : Z := 53.
Definition emax : Z := 1024.
Definition div : spec_float -> spec_float -> spec_float := SFdiv prec emax.

(** [a > b] on doubles: false as soon as one side is a NaN. *)
Definition gt (a b : spec_float) : bool := SFltb b a.

(** Conversion of a [u_int] to [double]; exact, since 32 bits fit in the
    53-bit mantissa. *)
Definition of_uint (n : Z) : spec_float := binary_normalize prec emax n 0 false.

(** Conversion of a [float] to [double]; every binary32 number is a
    binary64 number. *)
Definition of_float (x : spec_float) : spec_float :=
  match x with
  | S754_finite s m e => binary_round prec emax s m e
  | _ => x
  end.

(** Conversion of a [double] to [float], rounding to nearest even. *)
Definition to_float (x : spec_float) : spec_float :=
  match x with
  | S754_finite s m e => binary_round F32.prec F32.emax s m e
  | _ => x
  end.

End F64.

(** [Spectrum]: the three [float] components [c[0]], [c[1]], [c[2]]. *)
Record Spectrum := mkSpectrum { c0 : spec_float; c1 : spec_float; c2 : spec_float }.

(** [Spectrum(v)]: all three components set to [v]. *)
Definition Spectrum_of (v : spec_float) : Spectrum := mkSpectrum v v v.

(** [operator*(float, Spectrum)]. *)
Definition Spectrum_scale (f : spec_float) (s : Spectrum) : Spectrum :=
  mkSpectrum (F32.mul f (c0 s)) (F32.mul f (c1 s)) (F32.mul f (c2 s)).

(** ** Machine integers *)

Definition wrap32 (z : Z) : Z := z mod 2 ^ 32.

(** [(int)n] for an unsigned [n]: reduction modulo [2^32] into the signed
    range. *)
Definition to_int (z : Z) : Z :=
  let r := wrap32 z in if (r <? 2 ^ 31)%Z then r else (r - 2 ^ 32)%Z.

(** Modelled from the spec: the helper [RoundUp] of the utility headers is
    not part of this file; the design document describes its result as the
    pixel count rounded up to the workgroup granularity. On [u_int] the
    sum is taken modulo [2^32]. *)
Definition RoundUp (a b : Z) : Z :=
  let r := (a mod b)%Z in
  if (r =? 0)%Z then a else wrap32 (a + b - r).

(** Modelled from the spec: the helper [Max] of the utility headers. *)
Definition Max (a b : nat) : nat := if (b <? a)%nat then a else b.

(** ** Device descriptions and the selection of [CreateHWContext] *)

(** The device classes of the compute platform. The file names
    [DEVICE_TYPE_CUDA_GPU] and [DEVICE_TYPE_OPENCL_GPU]; the remaining
    classes are the other members of the platform's enumeration. *)
Inductive DeviceType :=
  | DEVICE_TYPE_NATIVE
  | DEVICE_TYPE_OPENCL_DEFAULT
  | DEVICE_TYPE_OPENCL_CPU
  | DEVICE_TYPE_OPENCL_GPU
  | DEVICE_TYPE_OPENCL_UNKNOWN
  | DEVICE_TYPE_CUDA_GPU.

Global Instance DeviceType_eq_dec : EqDecision DeviceType.
Proof. solve_decision. Defined.

Record DeviceDescription := mkDesc { GetName : string; GetType : DeviceType }.

Definition is_cuda (d : DeviceDescription) : bool :=
  bool_decide (GetType d = DEVICE_TYPE_CUDA_GPU).
Definition is_opencl_gpu (d : DeviceDescription) : bool :=
  bool_decide (GetType d = DEVICE_TYPE_OPENCL_GPU).

(** The [for] loop of lines 73-86, entered at index [i] with the rest
    [descs] of the vector still to visit and [selected] the value of
    [selectedDeviceDesc] so far. *)
Fixpoint scan_devices (i : nat) (descs : list DeviceDescription)
    (selected : option nat) : option nat :=
  match descs with
  | [] => selected
  | desc :: rest =>
      if is_cuda desc then Some i (* break *)
      else if is_opencl_gpu desc then scan_devices (S i) rest (Some i)
      else scan_devices (S i) rest selected
  end.

(** Lines 66-90: the value of [selectedDeviceDesc], as a position in
    [descs]. *)
Definition select_device (hwEnable : bool) (hwDeviceIndex : Z)
    (descs : list DeviceDescription) : option nat :=
  if hwEnable then
    if ((0 <=? hwDeviceIndex)%Z && (hwDeviceIndex <? to_int (Z.of_nat (length descs)))%Z)
    then Some (Z.to_nat hwDeviceIndex)
    else if (0 <? length descs)%nat then scan_devices 0 descs None
    else None
  else None.

(** Modelled from the spec: [DeviceDescription::Filter] with
    [DEVICE_TYPE_ALL_HARDWARE] belongs to the compute platform; it keeps the
    descriptors of the hardware-device class, in their order. *)
Definition is_hardware (d : DeviceDescription) : bool :=
  match GetType d with
  | DEVICE_TYPE_NATIVE => false
  | _ => true
  end.
Definition Filter_ALL_HARDWARE (descs : list DeviceDescription) : list DeviceDescription :=
  List.filter is_hardware descs.

(** ** The film: channels, image pipelines and hardware handles *)

Inductive FilmChannelType :=
  | RADIANCE_PER_PIXEL_NORMALIZED
  | RADIANCE_PER_SCREEN_NORMALIZED
  | ALPHA
  | IMAGEPIPELINE
  | OBJECT_ID.

Global Instance FilmChannelType_eq_dec : EqDecision FilmChannelType.
Proof. solve_decision. Defined.

Global Instance FilmChannelType_countable : Countable FilmChannelType.
Proof.
  refine (inj_countable'
    (fun t => match t with
              | RADIANCE_PER_PIXEL_NORMALIZED => 0 | RADIANCE_PER_SCREEN_NORMALIZED => 1
              | ALPHA => 2 | IMAGEPIPELINE => 3 | OBJECT_ID => 4 end)
    (fun n => match n with
              | 0 => RADIANCE_PER_PIXEL_NORMALIZED | 1 => RADIANCE_PER_SCREEN_NORMALIZED
              | 2 => ALPHA | 3 => IMAGEPIPELINE | _ => OBJECT_ID end) _).
  intros []; reflexivity.
Defined.

(** A host-side channel (a [GenericFrameBuffer]): its pixel storage, as
    bytes. [GetSize()] is the size of that storage in bytes. *)
Record Channel := mkChannel { GetPixels : list byte }.
Definition GetSize (ch : Channel) : nat := length (GetPixels ch).

(** Per light group and output target: the enable flag and the RGB scale
    returned by [GetScale()]. *)
Record RadianceChannelScale := mkScale { enabled : bool; GetScale : Spectrum }.

Record ImagePipeline := mkImagePipeline { radianceChannelScales : list RadianceChannelScale }.

(** Handles of objects owned by the compute platform. *)
Definition Buffer := nat.
Definition Kernel := nat.
Definition Context := nat.
Definition DataSet := nat.
Definition HardwareDevice := nat.

Record Film := mkFilm {
  hwEnable : bool;
  hwDeviceIndex : Z;
  ctx : option Context;
  dataSet : option DataSet;
  hardwareDevice : option HardwareDevice;
  hw_IMAGEPIPELINE : option Buffer;
  hw_ALPHA : option Buffer;
  hw_OBJECT_ID : option Buffer;
  hw_mergeBuffer : option Buffer;
  mergeInitializeKernel : option Kernel;
  mergeRADIANCE_PER_PIXEL_NORMALIZEDKernel : option Kernel;
  mergeRADIANCE_PER_SCREEN_NORMALIZEDKernel : option Kernel;
  mergeFinalizeKernel : option Kernel;
  width : Z;
  height : Z;
  pixelCount : Z;
  radianceGroupCount : nat;
  channels : gset FilmChannelType;
  channel_IMAGEPIPELINEs : list Channel;
  channel_ALPHA : option Channel;
  channel_OBJECT_ID : option Channel;
  channel_RADIANCE_PER_PIXEL_NORMALIZEDs : list Channel;
  channel_RADIANCE_PER_SCREEN_NORMALIZEDs : list Channel;
  imagePipelines : list ImagePipeline;
  (** the value of [samplesCounts.GetSampleCount_RADIANCE_PER_SCREEN_NORMALIZED()],
      a [double] *)
  SampleCount_RADIANCE_PER_SCREEN_NORMALIZED : spec_float
}.

Definition HasChannel (f : Film) (t : FilmChannelType) : bool :=
  bool_decide (t ∈ channels f).

(** The four buffer members of the film, as targets of [AllocBuffer] and
    [FreeBuffer], which take their address. *)
Inductive BufferSlot := slot_IMAGEPIPELINE | slot_ALPHA | slot_OBJECT_ID | slot_mergeBuffer.
Inductive KernelSlot := slot_Initialize | slot_PER_PIXEL | slot_PER_SCREEN | slot_Finalize.

Global Instance BufferSlot_eq_dec : EqDecision BufferSlot.
Proof. solve_decision. Defined.
Global Instance KernelSlot_eq_dec : EqDecision KernelSlot.
Proof. solve_decision. Defined.

Definition hw_buffer (s : BufferSlot) (f : Film) : option Buffer :=
  match s with
  | slot_IMAGEPIPELINE => hw_IMAGEPIPELINE f
  | slot_ALPHA => hw_ALPHA f
  | slot_OBJECT_ID => hw_OBJECT_ID f
  | slot_mergeBuffer => hw_mergeBuffer f
  end.

Definition hw_kernel (s : KernelSlot) (f : Film) : option Kernel :=
  match s with
  | slot_Initialize => mergeInitializeKernel f
  | slot_PER_PIXEL => mergeRADIANCE_PER_PIXEL_NORMALIZEDKernel f
  | slot_PER_SCREEN => mergeRADIANCE_PER_SCREEN_NORMALIZEDKernel f
  | slot_Finalize => mergeFinalizeKernel f
  end.

(** The film with its handle members replaced. *)
Definition with_handles (f : Film)
    (c : option Context) (ds : option DataSet) (hd : option HardwareDevice)
    (b : BufferSlot -> option Buffer) (k : KernelSlot -> option Kernel) : Film :=
  {| hwEnable := hwEnable f; hwDeviceIndex := hwDeviceIndex f;
     ctx := c; dataSet := ds; hardwareDevice := hd;
     hw_IMAGEPIPELINE := b slot_IMAGEPIPELINE; hw_ALPHA := b slot_ALPHA;
     hw_OBJECT_ID := b slot_OBJECT_ID; hw_mergeBuffer := b slot_mergeBuffer;
     mergeInitializeKernel := k slot_Initialize;
     mergeRADIANCE_PER_PIXEL_NORMALIZEDKernel := k slot_PER_PIXEL;
     mergeRADIANCE_PER_SCREEN_NORMALIZEDKernel := k slot_PER_SCREEN;
     mergeFinalizeKernel := k slot_Finalize;
     width := width f; height := height f; pixelCount := pixelCount f;
     radianceGroupCount := radianceGroupCount f; channels := channels f;
     channel_IMAGEPIPELINEs := channel_IMAGEPIPELINEs f;
     channel_ALPHA := channel_ALPHA f; channel_OBJECT_ID := channel_OBJECT_ID f;
     channel_RADIANCE_PER_PIXEL_NORMALIZEDs := channel_RADIANCE_PER_PIXEL_NORMALIZEDs f;
     channel_RADIANCE_PER_SCREEN_NORMALIZEDs := channel_RADIANCE_PER_SCREEN_NORMALIZEDs f;
     imagePipelines := imagePipelines f;
     SampleCount_RADIANCE_PER_SCREEN_NORMALIZED := SampleCount_RADIANCE_PER_SCREEN_NORMALIZED f |}.

Definition set_ctx (c : option Context) (f : Film) : Film :=
  with_handles f c (dataSet f) (hardwareDevice f) (fun s => hw_buffer s f) (fun s => hw_kernel s f).
Definition set_dataSet (ds : option DataSet) (f : Film) : Film :=
  with_handles f (ctx f) ds (hardwareDevice f) (fun s => hw_buffer s f) (fun s => hw_kernel s f).
Definition set_hardwareDevice (hd : option HardwareDevice) (f : Film) : Film :=
  with_handles f (ctx f) (dataSet f) hd (fun s => hw_buffer s f) (fun s => hw_kernel s f).
Definition set_hw_buffer (s : BufferSlot) (b : option Buffer) (f : Film) : Film :=
  with_handles f (ctx f) (dataSet f) (hardwareDevice f)
    (fun s' => if decide (s' = s) then b else hw_buffer s' f) (fun s' => hw_kernel s' f).
Definition set_hw_kernel (s : KernelSlot) (k : option Kernel) (f : Film) : Film :=
  with_handles f (ctx f) (dataSet f) (hardwareDevice f)
    (fun s' => hw_buffer s' f) (fun s' => if decide (s' = s) then k else hw_kernel s' f).

(** Host memory reached through the [GetPixels()] pointers handed to the
    device. *)
Inductive HostRef :=
  | px_IMAGEPIPELINE (i : nat)
  | px_ALPHA
  | px_OBJECT_ID
  | px_PER_PIXEL (i : nat)
  | px_PER_SCREEN (i : nat).

Global Instance HostRef_eq_dec : EqDecision HostRef.
Proof. solve_decision. Defined.

Definition host_load (f : Film) (r : HostRef) : list byte :=
  match r with
  | px_IMAGEPIPELINE i => from_option GetPixels [] (channel_IMAGEPIPELINEs f !! i)
  | px_ALPHA => from_option GetPixels [] (channel_ALPHA f)
  | px_OBJECT_ID => from_option GetPixels [] (channel_OBJECT_ID f)
  | px_PER_PIXEL i => from_option GetPixels [] (channel_RADIANCE_PER_PIXEL_NORMALIZEDs f !! i)
  | px_PER_SCREEN i => from_option GetPixels [] (channel_RADIANCE_PER_SCREEN_NORMALIZEDs f !! i)
  end.

(** The film with its host channels replaced. *)
Definition with_channels (f : Film) (ips : list Channel) (a o : option Channel)
    (pp ps : list Channel) : Film :=
  {| hwEnable := hwEnable f; hwDeviceIndex := hwDeviceIndex f;
     ctx := ctx f; dataSet := dataSet f; hardwareDevice := hardwareDevice f;
     hw_IMAGEPIPELINE := hw_IMAGEPIPELINE f; hw_ALPHA := hw_ALPHA f;
     hw_OBJECT_ID := hw_OBJECT_ID f; hw_mergeBuffer := hw_mergeBuffer f;
     mergeInitializeKernel := mergeInitializeKernel f;
     mergeRADIANCE_PER_PIXEL_NORMALIZEDKernel := mergeRADIANCE_PER_PIXEL_NORMALIZEDKernel f;
     mergeRADIANCE_PER_SCREEN_NORMALIZEDKernel := mergeRADIANCE_PER_SCREEN_NORMALIZEDKernel f;
     mergeFinalizeKernel := mergeFinalizeKernel f;
     width := width f; height := height f; pixelCount := pixelCount f;
     radianceGroupCount := radianceGroupCount f; channels := channels f;
     channel_IMAGEPIPELINEs := ips;
     channel_ALPHA := a; channel_OBJECT_ID := o;
     channel_RADIANCE_PER_PIXEL_NORMALIZEDs := pp;
     channel_RADIANCE_PER_SCREEN_NORMALIZEDs := ps;
     imagePipelines := imagePipelines f;
     SampleCount_RADIANCE_PER_SCREEN_NORMALIZED := SampleCount_RADIANCE_PER_SCREEN_NORMALIZED f |}.

(** Overwriting, in place, the pixel storage behind a host pointer. A
    pointer that reaches no channel stores nothing. *)
Definition host_store (f : Film) (r : HostRef) (px : list byte) : Film :=
  let ch := mkChannel px in
  match r with
  | px_IMAGEPIPELINE i =>
      with_channels f (<[i := ch]> (channel_IMAGEPIPELINEs f)) (channel_ALPHA f)
        (channel_OBJECT_ID f) (channel_RADIANCE_PER_PIXEL_NORMALIZEDs f)
        (channel_RADIANCE_PER_SCREEN_NORMALIZEDs f)
  | px_ALPHA =>
      with_channels f (channel_IMAGEPIPELINEs f) ((fun _ => ch) <$> channel_ALPHA f)
        (channel_OBJECT_ID f) (channel_RADIANCE_PER_PIXEL_NORMALIZEDs f)
        (channel_RADIANCE_PER_SCREEN_NORMALIZEDs f)
  | px_OBJECT_ID =>
      with_channels f (channel_IMAGEPIPELINEs f) (channel_ALPHA f)
        ((fun _ => ch) <$> channel_OBJECT_ID f) (channel_RADIANCE_PER_PIXEL_NORMALIZEDs f)
        (channel_RADIANCE_PER_SCREEN_NORMALIZEDs f)
  | px_PER_PIXEL i =>
      with_channels f (channel_IMAGEPIPELINEs f) (channel_ALPHA f)
        (channel_OBJECT_ID f) (<[i := ch]> (channel_RADIANCE_PER_PIXEL_NORMALIZEDs f))
        (channel_RADIANCE_PER_SCREEN_NORMALIZEDs f)
  | px_PER_SCREEN i =>
      with_channels f (channel_IMAGEPIPELINEs f) (channel_ALPHA f)
        (channel_OBJECT_ID f) (channel_RADIANCE_PER_PIXEL_NORMALIZEDs f)
        (<[i := ch]> (channel_RADIANCE_PER_SCREEN_NORMALIZEDs f))
  end.

(** ** The compute platform

    The platform is not part of this file. The description below covers
    the runs in which the platform reports no error and no deleted object
    is used again: an allocation or a compilation that fails throws and
    leaves the method, and the use of a deleted context, device or kernel
    is undefined. The properties of [AllocateHWBuffers] and
    [CompileHWKernels] are therefore properties of the calls that return,
    and no property says what a method does with a member whose object
    was deleted. Queued work is carried out when the queue is drained,
    the latest moment an in-order queue allows; the platform does not fix
    what the host holds between a non-blocking read and the drain, and no
    property of a film method is about that. *)

(** A kernel argument: a scalar or a buffer handle. *)
Inductive KArg :=
  | ArgUInt (v : Z)
  | ArgBuffer (b : option Buffer)
  | ArgFloat (v : spec_float).

(** Work submitted to the device queue. A kernel dispatch carries the
    arguments that were bound when it was enqueued. *)
Inductive QItem :=
  | QWrite (b : Buffer) (size : nat) (src : HostRef)
  | QRead (b : Buffer) (size : nat) (dst : HostRef)
  | QKernel (k : Kernel) (args : gmap nat KArg) (globalRange workGroup : Z).

(** What a dispatch of a kernel does to the device buffers, given its
    arguments and its index space. *)
Definition Program : Type :=
  Kernel -> gmap nat KArg -> Z -> Z -> gmap Buffer (list byte) -> gmap Buffer (list byte).

(** The compiled kernels are supplied to the film as an external program:
    the device carries it as [program]. *)
Record Device := mkDevice {
  program : Program;
  buffers : gmap Buffer (list byte);        (* live buffers and their contents *)
  kernelArgs : gmap Kernel (gmap nat KArg); (* current argument bindings *)
  queue : list QItem;                       (* enqueued, not yet carried out *)
  completed : list QItem;                   (* carried out, oldest first *)
  next_handle : nat
}.

(** The calls the film makes on the platform, in the words of the source. *)
Inductive Call :=
  | C_NewContext (c : Context)
  | C_AddHardwareDevices (desc : nat)
  | C_NewDataSet (ds : DataSet)
  | C_Preprocess
  | C_SetDataSet
  | C_Start
  | C_SetVerbose (v : bool)
  | C_AllocBufferRW (s : BufferSlot) (src : option HostRef) (size : nat)
  | C_AllocBufferRO (s : BufferSlot) (src : option HostRef) (size : nat)
  | C_FreeBuffer (s : BufferSlot)
  | C_CompileProgram
  | C_GetKernel (s : KernelSlot)
  | C_DeleteProgram
  | C_DeleteKernel (k : Kernel)
  | C_DeleteContext (c : Context)
  | C_DeleteDataSet (ds : DataSet)
  | C_SetKernelArg (k : Kernel) (index : nat) (v : KArg)
  | C_EnqueueWriteBuffer (b : Buffer) (blocking : bool) (size : nat) (src : HostRef)
  | C_EnqueueReadBuffer (b : Buffer) (blocking : bool) (size : nat) (dst : HostRef)
  | C_EnqueueKernel (k : Kernel) (globalRange workGroup : Z)
  | C_FinishQueue.

(** The film object, the device it drives and the calls made so far. *)
Record World := mkWorld { film : Film; device : Device; calls : list Call }.

(** [n] bytes of [src] copied over the start of [dst]. A transfer never
    changes the size of its destination: what does not fit is not
    copied. *)
Definition copy_bytes (n : nat) (src dst : list byte) : list byte :=
  let s := take (n `min` length dst) src in s ++ drop (length s) dst.

Definition args_of (d : Device) (k : Kernel) : gmap nat KArg :=
  default ∅ (kernelArgs d !! k).

Definition set_queue (q c : list QItem) (d : Device) : Device :=
  mkDevice (program d) (buffers d) (kernelArgs d) q c (next_handle d).
Definition set_buffers (b : gmap Buffer (list byte)) (n : nat) (d : Device) : Device :=
  mkDevice (program d) b (kernelArgs d) (queue d) (completed d) n.
Definition set_kernelArgs (a : gmap Kernel (gmap nat KArg)) (n : nat) (d : Device) : Device :=
  mkDevice (program d) (buffers d) a (queue d) (completed d) n.

(** A non-blocking call only adds its work to the queue. *)
Definition push (it : QItem) (w : World) : World :=
  mkWorld (film w) (set_queue (queue (device w) ++ [it]) (completed (device w)) (device w)) (calls w).

(** Modelled from the spec: the device carries out the work of its single
    queue in submission order. A write copies host bytes into a live
    buffer, a read copies buffer bytes over the host storage, a dispatch
    runs the kernel on the buffers. *)
Definition exec_item (kernel_body : Program) (st : Film * gmap Buffer (list byte))
    (it : QItem) : Film * gmap Buffer (list byte) :=
  match it with
  | QWrite b n src => (st.1, alter (copy_bytes n (host_load st.1 src)) b st.2)
  | QRead b n dst =>
      (host_store st.1 dst (copy_bytes n (default [] (st.2 !! b)) (host_load st.1 dst)), st.2)
  | QKernel k args g l => (st.1, kernel_body k args g l st.2)
  end.

Definition exec_items (kernel_body : Program) (st : Film * gmap Buffer (list byte))
    (q : list QItem) : Film * gmap Buffer (list byte) :=
  foldl (exec_item kernel_body) st q.

(** All pending work is carried out: the blocking queue drain. *)
Definition drain (w : World) : World :=
  let d := device w in
  let st := exec_items (program d) (film w, buffers d) (queue d) in
  mkWorld st.1
    (mkDevice (program d) st.2 (kernelArgs d) [] (completed d ++ queue d) (next_handle d))
    (calls w).

(** Modelled from the spec: [FreeBuffer] releases the buffer of a member
    and nulls the member; on a null member it does nothing. *)
Definition free_slot (s : BufferSlot) (w : World) : World :=
  match hw_buffer s (film w) with
  | Some b =>
      mkWorld (set_hw_buffer s None (film w))
        (set_buffers (delete b (buffers (device w))) (next_handle (device w)) (device w))
        (calls w)
  | None => w
  end.

(** Modelled from the spec: [AllocBufferRW] and [AllocBufferRO] release
    what the member held and bind it to a fresh buffer of [size] bytes,
    filled from the host pointer when one is given. This is the
    allocation that succeeds; one that fails throws and leaves the
    method, and is not described. *)
Definition alloc_slot (s : BufferSlot) (src : option HostRef) (size : nat) (w : World) : World :=
  let w1 := free_slot s w in
  let b := next_handle (device w1) in
  let blank := repeat x00 size in
  let content :=
    match src with
    | Some r => copy_bytes size (host_load (film w1) r) blank
    | None => blank
    end in
  mkWorld (set_hw_buffer s (Some b) (film w1))
    (set_buffers (<[b := content]> (buffers (device w1))) (S b) (device w1))
    (calls w1).

Definition new_kernel (s : KernelSlot) (w : World) : World :=
  let k := next_handle (device w) in
  mkWorld (set_hw_kernel s (Some k) (film w))
    (set_kernelArgs (<[k := ∅]> (kernelArgs (device w))) (S k) (device w))
    (calls w).

(** The effect of one call on the platform, when the platform reports no
    error (a compilation or a kernel lookup that fails throws). A deletion
    ends the object on the device side; the member that named it is left
    to the film, and a later use of the deleted object is not described. *)
Definition effect (c : Call) (w : World) : World :=
  match c with
  | C_AllocBufferRW s src size | C_AllocBufferRO s src size => alloc_slot s src size w
  | C_FreeBuffer s => free_slot s w
  | C_GetKernel s => new_kernel s w
  | C_DeleteKernel k =>
      mkWorld (film w)
        (set_kernelArgs (delete k (kernelArgs (device w))) (next_handle (device w)) (device w))
        (calls w)
  | C_SetKernelArg k i v =>
      mkWorld (film w)
        (set_kernelArgs (<[k := <[i := v]> (args_of (device w) k)]> (kernelArgs (device w)))
           (next_handle (device w)) (device w))
        (calls w)
  | C_EnqueueWriteBuffer b blocking n src =>
      let w1 := push (QWrite b n src) w in if blocking then drain w1 else w1
  | C_EnqueueReadBuffer b blocking n dst =>
      let w1 := push (QRead b n dst) w in if blocking then drain w1 else w1
  | C_EnqueueKernel k g l => push (QKernel k (args_of (device w) k) g l) w
  | C_FinishQueue => drain w
  | _ => w
  end.

Definition step (c : Call) (w : World) : World :=
  let w1 := effect c w in mkWorld (film w1) (device w1) (calls w1 ++ [c]).

Definition run (cs : list Call) (w : World) : World := foldl (fun w c => step c w) w cs.

(** ** Film methods: a state monad with faults *)

Inductive Fault := NullPointer | OutOfRange.

Inductive Result (A : Type) := OK (a : A) | Err (e : Fault).
Global Arguments OK {A} a.
Global Arguments Err {A} e.

Definition M (A : Type) : Type := World -> Result (A * World).

Global Instance M_ret : MRet M := fun A a w => OK (a, w).
Global Instance M_bind : MBind M := fun A B k m w =>
  match m w with
  | OK (a, w') => k a w'
  | Err e => Err e
  end.

Definition read {A} (proj : Film -> A) : M A := fun w => OK (proj (film w), w).
Definition fault {A} (e : Fault) : M A := fun _ => Err e.
Definition perform (c : Call) : M unit := fun w => OK (tt, step c w).
Definition modify_film (g : Film -> Film) : M unit :=
  fun w => OK (tt, mkWorld (g (film w)) (device w) (calls w)).
Definition fresh : M nat := fun w =>
  let d := device w in
  OK (next_handle d, mkWorld (film w) (set_buffers (buffers d) (S (next_handle d)) d) (calls w)).

(** [*p] *)
Definition deref {A} (p : option A) : M A :=
  match p with
  | Some a => mret a
  | None => fault NullPointer
  end.

(** [v[i]] *)
Definition at_index {A} (v : list A) (i : nat) : M A :=
  match v !! i with
  | Some a => mret a
  | None => fault OutOfRange
  end.

Definition channel_at (proj : Film -> list Channel) (i : nat) : M Channel :=
  v ← read proj; at_index v i.

Fixpoint for_each (l : list nat) (body : nat -> M unit) : M unit :=
  match l with
  | [] => mret tt
  | i :: l' => body i;; for_each l' body
  end.

(** [for (u_int i = 0; i < n; ++i) body] *)
Definition for_upto (n : nat) (body : nat -> M unit) : M unit := for_each (seq 0 n) body.

Definition when (b : bool) (m : M unit) : M unit := if b then m else mret tt.

(** Calls through [hardwareDevice->] and [ctx->]; a null buffer or kernel
    handed to the queue is a fault of the platform. *)
Definition on_device (c : Call) : M unit :=
  hd ← read hardwareDevice; _ ← deref hd; perform c.
Definition on_ctx (c : Call) : M unit :=
  p ← read ctx; _ ← deref p; perform c.

Definition EnqueueWriteBuffer (buff : option Buffer) (blocking : bool) (size : nat)
    (src : HostRef) : M unit :=
  b ← deref buff; on_device (C_EnqueueWriteBuffer b blocking size src).
Definition EnqueueReadBuffer (buff : option Buffer) (blocking : bool) (size : nat)
    (dst : HostRef) : M unit :=
  b ← deref buff; on_device (C_EnqueueReadBuffer b blocking size dst).
Definition SetKernelArg (kernel : option Kernel) (index : nat) (v : KArg) : M unit :=
  k ← deref kernel; on_device (C_SetKernelArg k index v).
Definition EnqueueKernel (kernel : option Kernel) (globalRange workGroup : Z) : M unit :=
  k ← deref kernel; on_device (C_EnqueueKernel k globalRange workGroup).
Definition FinishQueue : M unit := on_device C_FinishQueue.

Definition SetUpHW_film (f : Film) : Film :=
  {| hwEnable := true; hwDeviceIndex := (-1)%Z;
     ctx := None; dataSet := None; hardwareDevice := None;
     hw_IMAGEPIPELINE := None; hw_ALPHA := None;
     hw_OBJECT_ID := None; hw_mergeBuffer := None;
     mergeInitializeKernel := None;
     mergeRADIANCE_PER_PIXEL_NORMALIZEDKernel := None;
     mergeRADIANCE_PER_SCREEN_NORMALIZEDKernel := None;
     mergeFinalizeKernel := None;
     width := width f; height := height f; pixelCount := pixelCount f;
     radianceGroupCount := radianceGroupCount f; channels := channels f;
     channel_IMAGEPIPELINEs := channel_IMAGEPIPELINEs f;
     channel_ALPHA := channel_ALPHA f; channel_OBJECT_ID := channel_OBJECT_ID f;
     channel_RADIANCE_PER_PIXEL_NORMALIZEDs := channel_RADIANCE_PER_PIXEL_NORMALIZEDs f;
     channel_RADIANCE_PER_SCREEN_NORMALIZEDs := channel_RADIANCE_PER_SCREEN_NORMALIZEDs f;
     imagePipelines := imagePipelines f;
     SampleCount_RADIANCE_PER_SCREEN_NORMALIZED := SampleCount_RADIANCE_PER_SCREEN_NORMALIZED f |}.

(** [Film::SetUpHW], lines 34-52. *)
Definition SetUpHW : M unit := modify_film SetUpHW_film.

(** [Film::CreateHWContext], lines 54-120; [available] is what
    [ctx->GetAvailableDeviceDescriptions()] returns. *)
Definition CreateHWContext (available : list DeviceDescription) : M unit :=
  c ← fresh;
  perform (C_NewContext c);;
  modify_film (set_ctx (Some c));;
  let descs := Filter_ALL_HARDWARE available in
  en ← read hwEnable;
  idx ← read hwDeviceIndex;
  match select_device en idx descs with
  | Some i =>
      on_ctx (C_AddHardwareDevices i);;
      modify_film (set_hardwareDevice (Some i));;
      ds ← fresh;
      perform (C_NewDataSet ds);;
      modify_film (set_dataSet (Some ds));;
      perform C_Preprocess;;
      on_ctx C_SetDataSet;;
      on_ctx C_Start
  | None => mret tt
  end.

(** [delete p]: nothing happens on a null pointer. *)
Definition delete_kernel (s : KernelSlot) : M unit :=
  k ← read (hw_kernel s);
  match k with
  | Some k => perform (C_DeleteKernel k)
  | None => mret tt
  end.

Definition delete_ctx : M unit :=
  c ← read ctx;
  match c with
  | Some c => perform (C_DeleteContext c)
  | None => mret tt
  end.

Definition delete_dataSet : M unit :=
  ds ← read dataSet;
  match ds with
  | Some ds => perform (C_DeleteDataSet ds)
  | None => mret tt
  end.

(** [Film::DeleteHWContext], lines 122-141. The used memory of the device
    is read for the log message only. *)
Definition DeleteHWContext : M unit :=
  hd ← read hardwareDevice;
  when (bool_decide (is_Some hd))
    (delete_kernel slot_Initialize;;
     delete_kernel slot_PER_PIXEL;;
     delete_kernel slot_PER_SCREEN;;
     delete_kernel slot_Finalize;;
     on_device (C_FreeBuffer slot_IMAGEPIPELINE);;
     on_device (C_FreeBuffer slot_ALPHA);;
     on_device (C_FreeBuffer slot_OBJECT_ID);;
     on_device (C_FreeBuffer slot_mergeBuffer));;
  delete_ctx;;
  delete_dataSet.

(** The byte size of the first channel of a radiance kind, or 0 when the
    film has no such channel (the two arguments of [Max], lines 152-153). *)
Definition group_channel_size (t : FilmChannelType) (proj : Film -> list Channel) : M nat :=
  has ← read (fun f => HasChannel f t);
  if (has : bool) then ch ← channel_at proj 0; mret (GetSize ch) else mret 0.

(** [Film::AllocateHWBuffers], lines 143-158. *)
Definition AllocateHWBuffers : M unit :=
  on_ctx (C_SetVerbose true);;
  ch0 ← channel_at channel_IMAGEPIPELINEs 0;
  on_device (C_AllocBufferRW slot_IMAGEPIPELINE (Some (px_IMAGEPIPELINE 0)) (GetSize ch0));;
  hasALPHA ← read (fun f => HasChannel f ALPHA);
  when hasALPHA
    (p ← read channel_ALPHA; ch ← deref p;
     on_device (C_AllocBufferRO slot_ALPHA (Some px_ALPHA) (GetSize ch)));;
  hasOBJECT_ID ← read (fun f => HasChannel f OBJECT_ID);
  when hasOBJECT_ID
    (p ← read channel_OBJECT_ID; ch ← deref p;
     on_device (C_AllocBufferRO slot_OBJECT_ID (Some px_OBJECT_ID) (GetSize ch)));;
  szPP ← group_channel_size RADIANCE_PER_PIXEL_NORMALIZED channel_RADIANCE_PER_PIXEL_NORMALIZEDs;
  szPS ← group_channel_size RADIANCE_PER_SCREEN_NORMALIZED channel_RADIANCE_PER_SCREEN_NORMALIZEDs;
  let mergeBufferSize := Max szPP szPS in
  when (0 <? mergeBufferSize)%nat
    (on_device (C_AllocBufferRO slot_mergeBuffer None mergeBufferSize));;
  on_ctx (C_SetVerbose false).

(** The invariant arguments of a kernel, bound at compile time. *)
Definition bind_invariant_args (s : KernelSlot) (with_merge : bool) : M unit :=
  k ← read (hw_kernel s);
  w ← read width;
  h ← read height;
  ip ← read hw_IMAGEPIPELINE;
  mb ← read hw_mergeBuffer;
  SetKernelArg k 0 (ArgUInt w);;
  SetKernelArg k 1 (ArgUInt h);;
  SetKernelArg k 2 (ArgBuffer ip);;
  when with_merge (SetKernelArg k 3 (ArgBuffer mb)).

(** [Film::CompileHWKernels], lines 160-236. *)
Definition CompileHWKernels : M unit :=
  on_ctx (C_SetVerbose true);;
  on_device C_CompileProgram;;
  on_device (C_GetKernel slot_Initialize);;
  bind_invariant_args slot_Initialize false;;
  on_device (C_GetKernel slot_PER_PIXEL);;
  bind_invariant_args slot_PER_PIXEL true;;
  on_device (C_GetKernel slot_PER_SCREEN);;
  bind_invariant_args slot_PER_SCREEN true;;
  on_device (C_GetKernel slot_Finalize);;
  bind_invariant_args slot_Finalize false;;
  perform C_DeleteProgram;;
  on_ctx (C_SetVerbose false).

(** [Film::WriteAllHWBuffers], lines 238-247. *)
Definition WriteAllHWBuffers : M unit :=
  hasALPHA ← read (fun f => HasChannel f ALPHA);
  when hasALPHA
    (p ← read channel_ALPHA; ch ← deref p; buf ← read hw_ALPHA;
     EnqueueWriteBuffer buf false (GetSize ch) px_ALPHA);;
  hasOBJECT_ID ← read (fun f => HasChannel f OBJECT_ID);
  when hasOBJECT_ID
    (p ← read channel_OBJECT_ID; ch ← deref p; buf ← read hw_OBJECT_ID;
     EnqueueWriteBuffer buf false (GetSize ch) px_OBJECT_ID).

(** [Film::ReadHWBuffer_IMAGEPIPELINE], lines 249-253. *)
Definition ReadHWBuffer_IMAGEPIPELINE (index : nat) : M unit :=
  ch ← channel_at channel_IMAGEPIPELINEs index;
  buf ← read hw_IMAGEPIPELINE;
  EnqueueReadBuffer buf false (GetSize ch) (px_IMAGEPIPELINE index).

(** [Film::WriteHWBuffer_IMAGEPIPELINE], lines 255-259. *)
Definition WriteHWBuffer_IMAGEPIPELINE (index : nat) : M unit :=
  ch ← channel_at channel_IMAGEPIPELINEs index;
  buf ← read hw_IMAGEPIPELINE;
  EnqueueWriteBuffer buf false (GetSize ch) (px_IMAGEPIPELINE index).

(** Line 295: the [double] quotient, or the [float] constant [1.f]
    promoted to [double], converted to the [float] variable [factor]. The
    literal [0] of the comparison is converted to [double]. *)
Definition normalization_factor (pixelCount : Z) (sampleCount : spec_float) : spec_float :=
  F64.to_float
    (if F64.gt sampleCount (F64.of_uint 0)
     then F64.div (F64.of_uint pixelCount) sampleCount
     else F64.of_float F32.one).

(** [!ip || ip->radianceChannelScales[i].enabled] *)
Definition group_enabled (ip : option ImagePipeline) (i : nat) : M bool :=
  match ip with
  | None => mret true
  | Some p => s ← at_index (radianceChannelScales p) i; mret (enabled s)
  end.

(** [ip ? ip->radianceChannelScales[i].GetScale() : Spectrum(1.f)] *)
Definition group_scale (ip : option ImagePipeline) (i : nat) : M Spectrum :=
  match ip with
  | Some p => s ← at_index (radianceChannelScales p) i; mret (GetScale s)
  | None => mret (Spectrum_of F32.one)
  end.

(** One iteration of the loops of lines 274-290 and 297-313: [proj] and
    [px] name the channel vector, [ks] the accumulate kernel, and [f] is
    what multiplies the scale ([None] in the first loop). *)
Definition accumulate_group (ip : option ImagePipeline)
    (proj : Film -> list Channel) (px : nat -> HostRef) (ks : KernelSlot)
    (f : option spec_float) (i : nat) : M unit :=
  en ← group_enabled ip i;
  when en
    (ch ← channel_at proj i;
     buf ← read hw_mergeBuffer;
     EnqueueWriteBuffer buf false (GetSize ch) (px i);;
     s ← group_scale ip i;
     let scale := match f with Some f => Spectrum_scale f s | None => s end in
     k ← read (hw_kernel ks);
     SetKernelArg k 4 (ArgFloat (c0 scale));;
     SetKernelArg k 5 (ArgFloat (c1 scale));;
     SetKernelArg k 6 (ArgFloat (c2 scale));;
     k ← read (hw_kernel ks);
     pc ← read pixelCount;
     EnqueueKernel k (RoundUp pc 256) 256).

(** [Film::MergeSampleBuffersHW], lines 261-326. *)
Definition MergeSampleBuffersHW (imagePipelineIndex : nat) : M unit :=
  ips ← read imagePipelines;
  let ip := if bool_decide (imagePipelineIndex < length ips)
            then ips !! imagePipelineIndex else None in
  (* Transfer IMAGEPIPELINEs[index] *)
  ch ← channel_at channel_IMAGEPIPELINEs imagePipelineIndex;
  buf ← read hw_IMAGEPIPELINE;
  EnqueueWriteBuffer buf false (GetSize ch) (px_IMAGEPIPELINE imagePipelineIndex);;
  (* Initialize the framebuffer *)
  k ← read mergeInitializeKernel;
  pc ← read pixelCount;
  EnqueueKernel k (RoundUp pc 256) 256;;
  hasPP ← read (fun f => HasChannel f RADIANCE_PER_PIXEL_NORMALIZED);
  when hasPP
    (n ← read radianceGroupCount;
     for_upto n
       (accumulate_group ip channel_RADIANCE_PER_PIXEL_NORMALIZEDs px_PER_PIXEL
          slot_PER_PIXEL None));;
  hasPS ← read (fun f => HasChannel f RADIANCE_PER_SCREEN_NORMALIZED);
  when hasPS
    (sc ← read SampleCount_RADIANCE_PER_SCREEN_NORMALIZED;
     pc ← read pixelCount;
     let factor := normalization_factor pc sc in
     n ← read radianceGroupCount;
     for_upto n
       (accumulate_group ip channel_RADIANCE_PER_SCREEN_NORMALIZEDs px_PER_SCREEN
          slot_PER_SCREEN (Some factor)));;
  (* Finalize the framebuffer *)
  k ← read mergeFinalizeKernel;
  pc ← read pixelCount;
  EnqueueKernel k (RoundUp pc 256) 256;;
  (* Transfer back the results *)
  ch ← channel_at channel_IMAGEPIPELINEs imagePipelineIndex;
  buf ← read hw_IMAGEPIPELINE;
  EnqueueReadBuffer buf false (GetSize ch) (px_IMAGEPIPELINE imagePipelineIndex);;
  FinishQueue.

(** ** The merge, call by call

    What [MergeSampleBuffersHW] asks of the device, written out from the
    film alone. The handles are read through [handle]; a merge that
    returns has found every handle it uses non-null. *)

Definition handle (o : option nat) : nat := default 0 o.

(** [ip]: the image pipeline of the target, or null when the index is not
    below [imagePipelines.size()]. *)
Definition target_pipeline (f : Film) (i : nat) : option ImagePipeline :=
  if bool_decide (i < length (imagePipelines f)) then imagePipelines f !! i else None.

Definition is_enabled (ip : option ImagePipeline) (g : nat) : bool :=
  match ip with
  | None => true
  | Some p => from_option enabled false (radianceChannelScales p !! g)
  end.

Definition configured_scale (ip : option ImagePipeline) (g : nat) : Spectrum :=
  match ip with
  | None => Spectrum_of F32.one
  | Some p => from_option GetScale (Spectrum_of F32.one) (radianceChannelScales p !! g)
  end.

(** The light groups the target has enabled, in index order. *)
Definition enabled_groups (f : Film) (i : nat) : list nat :=
  List.filter (is_enabled (target_pipeline f i)) (seq 0 (radianceGroupCount f)).

Definition dispatch_size (f : Film) : Z := RoundUp (pixelCount f) 256.

Definition channel_size (v : list Channel) (g : nat) : nat := from_option GetSize 0 (v !! g).

Definition factor_of (f : Film) : spec_float :=
  normalization_factor (pixelCount f) (SampleCount_RADIANCE_PER_SCREEN_NORMALIZED f).

(** The scale bound for group [g] in the first and in the second loop. *)
Definition per_pixel_scale (f : Film) (i g : nat) : Spectrum :=
  configured_scale (target_pipeline f i) g.
Definition per_screen_scale (f : Film) (i g : nat) : Spectrum :=
  Spectrum_scale (factor_of f) (configured_scale (target_pipeline f i) g).

(** Upload of a group channel, rebinding of slots 4, 5, 6 and dispatch. *)
Definition accumulate_calls (mb k : nat) (range : Z) (size : nat) (src : HostRef)
    (s : Spectrum) : list Call :=
  [ C_EnqueueWriteBuffer mb false size src;
    C_SetKernelArg k 4 (ArgFloat (c0 s));
    C_SetKernelArg k 5 (ArgFloat (c1 s));
    C_SetKernelArg k 6 (ArgFloat (c2 s));
    C_EnqueueKernel k range 256 ].

(** The calls of one iteration of an accumulate loop, in the terms of
    [accumulate_group]. *)
Definition accumulate_calls_of (f : Film) (ip : option ImagePipeline)
    (proj : Film -> list Channel) (px : nat -> HostRef) (ks : KernelSlot)
    (fac : option spec_float) (g : nat) : list Call :=
  accumulate_calls (handle (hw_mergeBuffer f)) (handle (hw_kernel ks f)) (dispatch_size f)
    (channel_size (proj f) g) (px g)
    (match fac with
     | Some x => Spectrum_scale x (configured_scale ip g)
     | None => configured_scale ip g
     end).

Definition per_pixel_group (f : Film) (i g : nat) : list Call :=
  accumulate_calls (handle (hw_mergeBuffer f))
    (handle (mergeRADIANCE_PER_PIXEL_NORMALIZEDKernel f)) (dispatch_size f)
    (channel_size (channel_RADIANCE_PER_PIXEL_NORMALIZEDs f) g) (px_PER_PIXEL g)
    (per_pixel_scale f i g).

Definition per_screen_group (f : Film) (i g : nat) : list Call :=
  accumulate_calls (handle (hw_mergeBuffer f))
    (handle (mergeRADIANCE_PER_SCREEN_NORMALIZEDKernel f)) (dispatch_size f)
    (channel_size (channel_RADIANCE_PER_SCREEN_NORMALIZEDs f) g) (px_PER_SCREEN g)
    (per_screen_scale f i g).

Definition per_pixel_calls (f : Film) (i : nat) : list Call :=
  if HasChannel f RADIANCE_PER_PIXEL_NORMALIZED
  then flat_map (per_pixel_group f i) (enabled_groups f i) else [].

Definition per_screen_calls (f : Film) (i : nat) : list Call :=
  if HasChannel f RADIANCE_PER_SCREEN_NORMALIZED
  then flat_map (per_screen_group f i) (enabled_groups f i) else [].

(** The calls of the per-screen-normalized loop when the factor of line
    295 is [fac]. *)
Definition per_screen_calls_with (f : Film) (i : nat) (fac : spec_float) : list Call :=
  if HasChannel f RADIANCE_PER_SCREEN_NORMALIZED
  then flat_map
         (fun g =>
            accumulate_calls (handle (hw_mergeBuffer f))
              (handle (mergeRADIANCE_PER_SCREEN_NORMALIZEDKernel f)) (dispatch_size f)
              (channel_size (channel_RADIANCE_PER_SCREEN_NORMALIZEDs f) g) (px_PER_SCREEN g)
              (Spectrum_scale fac (configured_scale (target_pipeline f i) g)))
         (enabled_groups f i)
  else [].

Definition upload_target (f : Film) (i : nat) : Call :=
  C_EnqueueWriteBuffer (handle (hw_IMAGEPIPELINE f)) false
    (channel_size (channel_IMAGEPIPELINEs f) i) (px_IMAGEPIPELINE i).

Definition download_target (f : Film) (i : nat) : Call :=
  C_EnqueueReadBuffer (handle (hw_IMAGEPIPELINE f)) false
    (channel_size (channel_IMAGEPIPELINEs f) i) (px_IMAGEPIPELINE i).

Definition dispatch_initialize (f : Film) : Call :=
  C_EnqueueKernel (handle (mergeInitializeKernel f)) (dispatch_size f) 256.

Definition dispatch_finalize (f : Film) : Call :=
  C_EnqueueKernel (handle (mergeFinalizeKernel f)) (dispatch_size f) 256.

(** Everything up to the blocking drain. *)
Definition merge_enqueues (f : Film) (i : nat) : list Call :=
  [upload_target f i; dispatch_initialize f]
  ++ per_pixel_calls f i ++ per_screen_calls f i
  ++ [dispatch_finalize f; download_target f i].

Definition merge_calls (f : Film) (i : nat) : list Call :=
  merge_enqueues f i ++ [C_FinishQueue].

(** Calls that only bind arguments or enqueue work without blocking. *)
Definition quiet (c : Call) : bool :=
  match c with
  | C_SetKernelArg _ _ _ | C_EnqueueKernel _ _ _ => true
  | C_EnqueueWriteBuffer _ blocking _ _ | C_EnqueueReadBuffer _ blocking _ _ => negb blocking
  | _ => false
  end.

(** The argument bindings after a call, and the work a quiet call adds to
    the queue under the bindings [a]. *)
Definition rebind (a : gmap Kernel (gmap nat KArg)) (c : Call) : gmap Kernel (gmap nat KArg) :=
  match c with
  | C_SetKernelArg k i v => <[k := <[i := v]> (default ∅ (a !! k))]> a
  | _ => a
  end.

Definition item_of (a : gmap Kernel (gmap nat KArg)) (c : Call) : list QItem :=
  match c with
  | C_EnqueueWriteBuffer b _ n src => [QWrite b n src]
  | C_EnqueueReadBuffer b _ n dst => [QRead b n dst]
  | C_EnqueueKernel k g l => [QKernel k (default ∅ (a !! k)) g l]
  | _ => []
  end.

Fixpoint items_of (a : gmap Kernel (gmap nat KArg)) (cs : list Call) : list QItem :=
  match cs with
  | [] => []
  | c :: cs' => item_of a c ++ items_of (rebind a c) cs'
  end.

Definition is_read (it : QItem) : bool :=
  match it with
  | QRead _ _ _ => true
  | _ => false
  end.

(** The scale arguments a dispatch was enqueued with. *)
Definition scale_bound (a : gmap nat KArg) (s : Spectrum) : Prop :=
  a !! 4 = Some (ArgFloat (c0 s)) ∧ a !! 5 = Some (ArgFloat (c1 s))
  ∧ a !! 6 = Some (ArgFloat (c2 s)).

(** The work of one accumulate iteration: the upload of the group channel
    followed by a dispatch of kernel [k] carrying the scale [s]. *)
Definition accumulate_work (mb k : nat) (range : Z) (size : nat) (src : HostRef)
    (s : Spectrum) (its : list QItem) : Prop :=
  ∃ a, its = [QWrite mb size src; QKernel k a range 256] ∧ scale_bound a s.

(** ** Selection policy, in the words of the design *)

(** Position of the first, and of the last, element satisfying [p]. *)
Fixpoint first_index {A} (p : A -> bool) (l : list A) : option nat :=
  match l with
  | [] => None
  | x :: l' => if p x then Some 0 else S <$> first_index p l'
  end.

Fixpoint last_index {A} (p : A -> bool) (l : list A) : option nat :=
  match l with
  | [] => None
  | x :: l' =>
      match last_index p l' with
      | Some i => Some (S i)
      | None => if p x then Some 0 else None
      end
  end.

(** A pinned index is one inside the descriptor list. *)
Definition pinned (hwDeviceIndex : Z) (descs : list DeviceDescription) : bool :=
  (0 <=? hwDeviceIndex)%Z && (hwDeviceIndex <? Z.of_nat (length descs))%Z.

(** The policy as the design document words it: a pinned index always,
    else the first CUDA GPU, else the first OpenCL GPU seen. *)
Definition documented_selection (hwDeviceIndex : Z) (descs : list DeviceDescription)
    : option nat :=
  if pinned hwDeviceIndex descs then Some (Z.to_nat hwDeviceIndex)
  else match first_index is_cuda descs with
       | Some i => Some i
       | None => first_index is_opencl_gpu descs
       end.

Definition three_opencl_devices : list DeviceDescription :=
  [mkDesc "OpenCL GPU 0" DEVICE_TYPE_OPENCL_GPU; mkDesc "OpenCL CPU" DEVICE_TYPE_OPENCL_CPU;
   mkDesc "OpenCL GPU 1" DEVICE_TYPE_OPENCL_GPU].

Definition two_opencl_gpus : list DeviceDescription :=
  [mkDesc "OpenCL GPU 0" DEVICE_TYPE_OPENCL_GPU;
   mkDesc "OpenCL GPU 1" DEVICE_TYPE_OPENCL_GPU].

(** The policy of the code when hardware merging is enabled: as above,
    but without a CUDA GPU the last OpenCL GPU of the list is kept. *)
Definition selection_policy (hwDeviceIndex : Z) (descs : list DeviceDescription)
    : option nat :=
  if pinned hwDeviceIndex descs then Some (Z.to_nat hwDeviceIndex)
  else match first_index is_cuda descs with
       | Some i => Some i
       | None => last_index is_opencl_gpu descs
       end.

(** The work of the two accumulate loops: one upload and one dispatch per
    enabled group, each dispatch carrying the scale of its group. *)
Definition per_pixel_work (f : Film) (i : nat) (work : list (list QItem)) : Prop :=
  if HasChannel f RADIANCE_PER_PIXEL_NORMALIZED
  then Forall2
         (fun g its =>
            accumulate_work (handle (hw_mergeBuffer f))
              (handle (mergeRADIANCE_PER_PIXEL_NORMALIZEDKernel f)) (dispatch_size f)
              (channel_size (channel_RADIANCE_PER_PIXEL_NORMALIZEDs f) g) (px_PER_PIXEL g)
              (per_pixel_scale f i g) its)
         (enabled_groups f i) work
  else work = [].

Definition per_screen_work (f : Film) (i : nat) (work : list (list QItem)) : Prop :=
  if HasChannel f RADIANCE_PER_SCREEN_NORMALIZED
  then Forall2
         (fun g its =>
            accumulate_work (handle (hw_mergeBuffer f))
              (handle (mergeRADIANCE_PER_SCREEN_NORMALIZEDKernel f)) (dispatch_size f)
              (channel_size (channel_RADIANCE_PER_SCREEN_NORMALIZEDs f) g) (px_PER_SCREEN g)
              (per_screen_scale f i g) its)
         (enabled_groups f i) work
  else work = [].

(** The whole work of a merge, in queue order. *)
Definition merge_work (f : Film) (i : nat) (its : list QItem) : Prop :=
  ∃ a_init pp ps a_fin,
    its =
      [ QWrite (handle (hw_IMAGEPIPELINE f)) (channel_size (channel_IMAGEPIPELINEs f) i)
          (px_IMAGEPIPELINE i);
        QKernel (handle (mergeInitializeKernel f)) a_init (dispatch_size f) 256 ]
      ++ concat pp ++ concat ps
      ++ [ QKernel (handle (mergeFinalizeKernel f)) a_fin (dispatch_size f) 256;
           QRead (handle (hw_IMAGEPIPELINE f)) (channel_size (channel_IMAGEPIPELINEs f) i)
             (px_IMAGEPIPELINE i) ]
    ∧ per_pixel_work f i pp ∧ per_screen_work f i ps.

(** ** Allocation and teardown, call by call *)

(** [mergeBufferSize], lines 151-153. *)
Definition mergeBufferSize (f : Film) : nat :=
  Max (if HasChannel f RADIANCE_PER_PIXEL_NORMALIZED
       then channel_size (channel_RADIANCE_PER_PIXEL_NORMALIZEDs f) 0 else 0)
      (if HasChannel f RADIANCE_PER_SCREEN_NORMALIZED
       then channel_size (channel_RADIANCE_PER_SCREEN_NORMALIZEDs f) 0 else 0).

Definition allocate_calls (f : Film) : list Call :=
  [ C_SetVerbose true;
    C_AllocBufferRW slot_IMAGEPIPELINE (Some (px_IMAGEPIPELINE 0))
      (channel_size (channel_IMAGEPIPELINEs f) 0) ]
  ++ (if HasChannel f ALPHA
      then [C_AllocBufferRO slot_ALPHA (Some px_ALPHA) (from_option GetSize 0 (channel_ALPHA f))]
      else [])
  ++ (if HasChannel f OBJECT_ID
      then [C_AllocBufferRO slot_OBJECT_ID (Some px_OBJECT_ID)
              (from_option GetSize 0 (channel_OBJECT_ID f))]
      else [])
  ++ (if (0 <? mergeBufferSize f)%nat
      then [C_AllocBufferRO slot_mergeBuffer None (mergeBufferSize f)]
      else [])
  ++ [C_SetVerbose false].

(** [delete] of a pointer member: a call only when it is not null. *)
Definition delete_call {A} (c : A -> Call) (p : option A) : list Call :=
  match p with
  | Some a => [c a]
  | None => []
  end.

(** The calls of [DeleteHWContext] on a film with a device. *)
Definition teardown_calls (f : Film) : list Call :=
  delete_call C_DeleteKernel (mergeInitializeKernel f)
  ++ delete_call C_DeleteKernel (mergeRADIANCE_PER_PIXEL_NORMALIZEDKernel f)
  ++ delete_call C_DeleteKernel (mergeRADIANCE_PER_SCREEN_NORMALIZEDKernel f)
  ++ delete_call C_DeleteKernel (mergeFinalizeKernel f)
  ++ [ C_FreeBuffer slot_IMAGEPIPELINE; C_FreeBuffer slot_ALPHA;
       C_FreeBuffer slot_OBJECT_ID; C_FreeBuffer slot_mergeBuffer ]
  ++ delete_call C_DeleteContext (ctx f)
  ++ delete_call C_DeleteDataSet (dataSet f).


(** ** Reasoning about film methods *)

(** [wp m w Q]: if [m] returns from [w], the result satisfies [Q];
    [returns m w Q]: [m] does return from [w], and the result satisfies
    [Q]. *)
Definition wp {A} (m : M A) (w : World) (Q : A -> World -> Prop) : Prop :=
  match m w with
  | OK (a, w') => Q a w'
  | Err _ => True
  end.

Definition returns {A} (m : M A) (w : World) (Q : A -> World -> Prop) : Prop :=
  match m w with
  | OK (a, w') => Q a w'
  | Err _ => False
  end.

(** ** What a merge needs

    The handles, channels and scale entries a merge reads. For group [g]:
    the scale entry of the target, and, when the group is enabled, its
    channel, the merge buffer and the accumulate kernel. *)
Definition group_ready (f : Film) (ip : option ImagePipeline)
    (proj : Film -> list Channel) (ks : KernelSlot) (g : nat) : Prop :=
  (forall p, ip = Some p -> is_Some (radianceChannelScales p !! g)) ∧
  (is_enabled ip g = true ->
     is_Some (proj f !! g) ∧ is_Some (hw_mergeBuffer f) ∧ is_Some (hw_kernel ks f)).

Definition merge_ready (f : Film) (i : nat) : Prop :=
  is_Some (hardwareDevice f)
  ∧ is_Some (channel_IMAGEPIPELINEs f !! i)
  ∧ is_Some (hw_IMAGEPIPELINE f)
  ∧ is_Some (mergeInitializeKernel f)
  ∧ is_Some (mergeFinalizeKernel f)
  ∧ (HasChannel f RADIANCE_PER_PIXEL_NORMALIZED = true ->
      forall g, g < radianceGroupCount f ->
        group_ready f (target_pipeline f i) channel_RADIANCE_PER_PIXEL_NORMALIZEDs
          slot_PER_PIXEL g)
  ∧ (HasChannel f RADIANCE_PER_SCREEN_NORMALIZED = true ->
      forall g, g < radianceGroupCount f ->
        group_ready f (target_pipeline f i) channel_RADIANCE_PER_SCREEN_NORMALIZEDs
          slot_PER_SCREEN g).

(** ** A small film, for examples

    A 4x4 film with two light groups, of which the first image pipeline
    disables the second; the second image-pipeline channel has no
    pipeline of its own. The device runs a program whose kernels leave the
    buffers as they are. *)

Definition identity_program : Program := fun _ _ _ _ bufs => bufs.

Definition blank_device : Device := mkDevice identity_program ∅ ∅ [] [] 0.

Definition filled (n : nat) (b : byte) : Channel := mkChannel (repeat b n).

Definition example_film : Film :=
  {| hwEnable := false; hwDeviceIndex := 0;
     ctx := None; dataSet := None; hardwareDevice := None;
     hw_IMAGEPIPELINE := None; hw_ALPHA := None;
     hw_OBJECT_ID := None; hw_mergeBuffer := None;
     mergeInitializeKernel := None;
     mergeRADIANCE_PER_PIXEL_NORMALIZEDKernel := None;
     mergeRADIANCE_PER_SCREEN_NORMALIZEDKernel := None;
     mergeFinalizeKernel := None;
     width := 4; height := 4; pixelCount := 16;
     radianceGroupCount := 2;
     channels := {[ RADIANCE_PER_PIXEL_NORMALIZED; RADIANCE_PER_SCREEN_NORMALIZED;
                    ALPHA; IMAGEPIPELINE ]};
     channel_IMAGEPIPELINEs := [filled 6 x01; filled 6 x02];
     channel_ALPHA := Some (filled 4 x03);
     channel_OBJECT_ID := None;
     channel_RADIANCE_PER_PIXEL_NORMALIZEDs := [filled 8 x04; filled 8 x05];
     channel_RADIANCE_PER_SCREEN_NORMALIZEDs := [filled 6 x06; filled 6 x07];
     imagePipelines :=
       [mkImagePipeline
          [mkScale true (mkSpectrum (F64.to_float (F64.of_uint 2)) F32.one F32.one);
           mkScale false (Spectrum_of F32.one)]];
     SampleCount_RADIANCE_PER_SCREEN_NORMALIZED := F64.of_uint 32 |}.

Definition example_descs : list DeviceDescription :=
  [mkDesc "Native" DEVICE_TYPE_NATIVE; mkDesc "OpenCL GPU" DEVICE_TYPE_OPENCL_GPU;
   mkDesc "CUDA GPU" DEVICE_TYPE_CUDA_GPU].

Definition world_after (m : M unit) (w : World) : World :=
  match m w with
  | OK (_, w') => w'
  | Err _ => w
  end.

(** The film set up, with its context created, its buffers allocated and
    its kernels compiled. *)
Definition built_world : World :=
  world_after
    (SetUpHW;; CreateHWContext example_descs;; AllocateHWBuffers;; CompileHWKernels)
    (mkWorld example_film blank_device []).

(** Every scale argument bound by the calls [cs] is 1. *)
Definition unit_scale_calls (cs : list Call) : Prop :=
  ∀ k idx v, C_SetKernelArg k idx (ArgFloat v) ∈ cs → v = F32.one.

(** No read is waiting in the queue. *)
Definition no_pending_read (d : Device) : bool :=
  forallb (fun it => negb (is_read it)) (queue d).

(** The example film set up, and with its context created. *)
Definition setup_world : World :=
  world_after SetUpHW (mkWorld example_film blank_device []).

Definition created_world : World :=
  world_after (CreateHWContext example_descs) setup_world.

(** Calls that touch only the handle members of the film. *)
Definition handle_only (c : Call) : bool :=
  match c with
  | C_SetVerbose _ | C_AllocBufferRW _ _ _ | C_AllocBufferRO _ _ _
  | C_FreeBuffer _ | C_DeleteKernel _ | C_DeleteContext _ | C_DeleteDataSet _ => true
  | _ => false
  end.

(** The part of the film that is not a handle. *)
Definition host_part (f : Film) :=
  (channels f, radianceGroupCount f, pixelCount f, imagePipelines f,
   SampleCount_RADIANCE_PER_SCREEN_NORMALIZED f,
   (channel_IMAGEPIPELINEs f, channel_ALPHA f, channel_OBJECT_ID f,
    channel_RADIANCE_PER_PIXEL_NORMALIZEDs f, channel_RADIANCE_PER_SCREEN_NORMALIZEDs f)).

(** ** Context creation, call by call *)

(** What the scan of lines 73-86 ends with: the first CUDA GPU, or
    without one the last OpenCL GPU. *)
Definition scanned_device (descs : list DeviceDescription) : option nat :=
  match first_index is_cuda descs with
  | Some i => Some i
  | None => last_index is_opencl_gpu descs
  end.

(** The calls of [CreateHWContext] when the next free handle is [c] and
    the descriptor at position [sel] is selected. *)
Definition create_calls (c : nat) (sel : option nat) : list Call :=
  C_NewContext c ::
  match sel with
  | Some i => [C_AddHardwareDevices i; C_NewDataSet (S c); C_Preprocess; C_SetDataSet; C_Start]
  | None => []
  end.

(** ** What an allocation needs *)

(** The handles and channels [AllocateHWBuffers] reads: the context, the
    device, the first image-pipeline channel, and the channel behind
    every channel kind the film says it has. *)
Definition allocate_ready (f : Film) : Prop :=
  is_Some (ctx f)
  ∧ is_Some (hardwareDevice f)
  ∧ is_Some (channel_IMAGEPIPELINEs f !! 0)
  ∧ (HasChannel f ALPHA = true → is_Some (channel_ALPHA f))
  ∧ (HasChannel f OBJECT_ID = true → is_Some (channel_OBJECT_ID f))
  ∧ (HasChannel f RADIANCE_PER_PIXEL_NORMALIZED = true →
       is_Some (channel_RADIANCE_PER_PIXEL_NORMALIZEDs f !! 0))
  ∧ (HasChannel f RADIANCE_PER_SCREEN_NORMALIZED = true →
       is_Some (channel_RADIANCE_PER_SCREEN_NORMALIZEDs f !! 0)).

(** Calls that allocate a buffer or switch the log on or off. *)
Definition alloc_only (c : Call) : bool :=
  match c with
  | C_SetVerbose _ | C_AllocBufferRW _ _ _ | C_AllocBufferRO _ _ _ => true
  | _ => false
  end.

(** The members of the film that are not buffer members, and the part of
    the device that is not its buffers. *)
Definition outside_buffers (w : World) :=
  (host_part (film w), hwEnable (film w), hwDeviceIndex (film w), width (film w),
   height (film w), ctx (film w), dataSet (film w), hardwareDevice (film w),
   (mergeInitializeKernel (film w), mergeRADIANCE_PER_PIXEL_NORMALIZEDKernel (film w),
    mergeRADIANCE_PER_SCREEN_NORMALIZEDKernel (film w), mergeFinalizeKernel (film w)),
   (kernelArgs (device w), queue (device w), completed (device w))).

(** ** Kernel compilation, call by call *)

(** The arguments bound to kernel [k] when it is compiled: width, height
    and the image-pipeline buffer, and for an accumulate kernel the merge
    buffer. *)
Definition invariant_arg_calls (f : Film) (k : Kernel) (with_merge : bool) : list Call :=
  [ C_SetKernelArg k 0 (ArgUInt (width f)); C_SetKernelArg k 1 (ArgUInt (height f));
    C_SetKernelArg k 2 (ArgBuffer (hw_IMAGEPIPELINE f)) ]
  ++ (if with_merge then [C_SetKernelArg k 3 (ArgBuffer (hw_mergeBuffer f))] else []).

(** Whether the kernel of a member takes the merge buffer. *)
Definition takes_merge_buffer (s : KernelSlot) : bool :=
  match s with
  | slot_PER_PIXEL | slot_PER_SCREEN => true
  | slot_Initialize | slot_Finalize => false
  end.

(** The calls of [CompileHWKernels]; [k] names the kernel obtained for a
    member. *)
Definition compile_calls (f : Film) (k : KernelSlot -> Kernel) : list Call :=
  [C_SetVerbose true; C_CompileProgram]
  ++ flat_map
       (fun s => C_GetKernel s :: invariant_arg_calls f (k s) (takes_merge_buffer s))
       [slot_Initialize; slot_PER_PIXEL; slot_PER_SCREEN; slot_Finalize]
  ++ [C_DeleteProgram; C_SetVerbose false].

(** The position of a kernel member in the order of compilation. *)
Definition kernel_offset (s : KernelSlot) : nat :=
  match s with
  | slot_Initialize => 0
  | slot_PER_PIXEL => 1
  | slot_PER_SCREEN => 2
  | slot_Finalize => 3
  end.

(** Calls that touch only kernels and the log. *)
Definition kernel_only (c : Call) : bool :=
  match c with
  | C_SetVerbose _ | C_CompileProgram | C_DeleteProgram | C_GetKernel _
  | C_SetKernelArg _ _ _ => true
  | _ => false
  end.

(** The bindings a kernel has after compilation. *)
Definition invariant_args (f : Film) (with_merge : bool) : gmap nat KArg :=
  let a := <[2 := ArgBuffer (hw_IMAGEPIPELINE f)]>
             (<[1 := ArgUInt (height f)]> (<[0 := ArgUInt (width f)]> ∅)) in
  if with_merge then <[3 := ArgBuffer (hw_mergeBuffer f)]> a else a.

(** The members of the film that are not kernel members, and the part of
    the device that is not its bindings. *)
Definition outside_kernels (w : World) :=
  (host_part (film w), hwEnable (film w), hwDeviceIndex (film w), width (film w),
   height (film w), ctx (film w), dataSet (film w), hardwareDevice (film w),
   (hw_IMAGEPIPELINE (film w), hw_ALPHA (film w), hw_OBJECT_ID (film w),
    hw_mergeBuffer (film w)),
   (buffers (device w), queue (device w), completed (device w))).

(** ** Transfers, call by call *)

(** The uploads of [WriteAllHWBuffers]: the alpha channel, then the
    object-id channel, each only when the film has it. *)
Definition write_all_calls (f : Film) : list Call :=
  (if HasChannel f ALPHA
   then [C_EnqueueWriteBuffer (handle (hw_ALPHA f)) false
           (from_option GetSize 0 (channel_ALPHA f)) px_ALPHA]
   else [])
  ++ (if HasChannel f OBJECT_ID
      then [C_EnqueueWriteBuffer (handle (hw_OBJECT_ID f)) false
              (from_option GetSize 0 (channel_OBJECT_ID f)) px_OBJECT_ID]
      else []).

(** What [WriteAllHWBuffers] reads: for each of the two channel kinds the
    film has, the channel, its buffer and the device. *)
Definition write_all_ready (f : Film) : Prop :=
  (HasChannel f ALPHA = true →
     is_Some (channel_ALPHA f) ∧ is_Some (hw_ALPHA f) ∧ is_Some (hardwareDevice f))
  ∧ (HasChannel f OBJECT_ID = true →
       is_Some (channel_OBJECT_ID f) ∧ is_Some (hw_OBJECT_ID f)
       ∧ is_Some (hardwareDevice f)).

(** What a transfer of image-pipeline channel [i] reads. *)
Definition transfer_ready (f : Film) (i : nat) : Prop :=
  is_Some (channel_IMAGEPIPELINEs f !! i)
  ∧ is_Some (hw_IMAGEPIPELINE f)
  ∧ is_Some (hardwareDevice f).

(** ** What a merge leaves alone *)

(** The members of the film that are not host channels. *)
Definition members (f : Film) :=
  (hwEnable f, hwDeviceIndex f, ctx f, dataSet f, hardwareDevice f,
   (hw_IMAGEPIPELINE f, hw_ALPHA f, hw_OBJECT_ID f, hw_mergeBuffer f),
   (mergeInitializeKernel f, mergeRADIANCE_PER_PIXEL_NORMALIZEDKernel f,
    mergeRADIANCE_PER_SCREEN_NORMALIZEDKernel f, mergeFinalizeKernel f),
   (width f, height f, pixelCount f, radianceGroupCount f, channels f, imagePipelines f,
    SampleCount_RADIANCE_PER_SCREEN_NORMALIZED f)).

(** A scale slot of an accumulate kernel of the film. *)
Definition scale_slot (f : Film) (k : Kernel) (idx : nat) : Prop :=
  (k = handle (mergeRADIANCE_PER_PIXEL_NORMALIZEDKernel f)
   ∨ k = handle (mergeRADIANCE_PER_SCREEN_NORMALIZEDKernel f))
  ∧ 4 ≤ idx ≤ 6.

Definition is_dispatch (c : Call) : bool :=
  match c with
  | C_EnqueueKernel _ _ _ => true
  | _ => false
  end.

(** The number of accumulate loops the film runs: one per radiance kind
    it has. *)
Definition radiance_kinds (f : Film) : nat :=
  (if HasChannel f RADIANCE_PER_PIXEL_NORMALIZED then 1 else 0)
  + (if HasChannel f RADIANCE_PER_SCREEN_NORMALIZED then 1 else 0).

(** ** Members that own a device object *)

(** The context, the data set, the device and the four kernels: the
    members [DeleteHWContext] deletes or reads besides the buffers. *)
Definition owner_members (f : Film) :=
  (ctx f, dataSet f, hardwareDevice f,
   (mergeInitializeKernel f, mergeRADIANCE_PER_PIXEL_NORMALIZEDKernel f,
    mergeRADIANCE_PER_SCREEN_NORMALIZEDKernel f, mergeFinalizeKernel f)).

(** ** The host side of what a merge needs *)

(** The channels and scale entries a merge for target [i] reads, handles
    apart. *)
Definition group_data_ready (f : Film) (ip : option ImagePipeline)
    (proj : Film -> list Channel) (g : nat) : Prop :=
  (forall p, ip = Some p -> is_Some (radianceChannelScales p !! g))
  ∧ (is_enabled ip g = true -> is_Some (proj f !! g)).

Definition merge_data_ready (f : Film) (i : nat) : Prop :=
  is_Some (channel_IMAGEPIPELINEs f !! i)
  ∧ (HasChannel f RADIANCE_PER_PIXEL_NORMALIZED = true ->
       forall g, g < radianceGroupCount f ->
         group_data_ready f (target_pipeline f i) channel_RADIANCE_PER_PIXEL_NORMALIZEDs g)
  ∧ (HasChannel f RADIANCE_PER_SCREEN_NORMALIZED = true ->
       forall g, g < radianceGroupCount f ->
         group_data_ready f (target_pipeline f i) channel_RADIANCE_PER_SCREEN_NORMALIZEDs g).

(** The example film without its radiance channels, set up, with its
    context created, its buffers allocated and its kernels compiled. *)
Definition plain_film : Film :=
  {| hwEnable := false; hwDeviceIndex := 0;
     ctx := None; dataSet := None; hardwareDevice := None;
     hw_IMAGEPIPELINE := None; hw_ALPHA := None;
     hw_OBJECT_ID := None; hw_mergeBuffer := None;
     mergeInitializeKernel := None;
     mergeRADIANCE_PER_PIXEL_NORMALIZEDKernel := None;
     mergeRADIANCE_PER_SCREEN_NORMALIZEDKernel := None;
     mergeFinalizeKernel := None;
     width := 4; height := 4; pixelCount := 16;
     radianceGroupCount := 2;
     channels := {[ ALPHA; IMAGEPIPELINE ]};
     channel_IMAGEPIPELINEs := [filled 6 x01; filled 6 x02];
     channel_ALPHA := Some (filled 4 x03);
     channel_OBJECT_ID := None;
     channel_RADIANCE_PER_PIXEL_NORMALIZEDs := [];
     channel_RADIANCE_PER_SCREEN_NORMALIZEDs := [];
     imagePipelines := [];
     SampleCount_RADIANCE_PER_SCREEN_NORMALIZED := F64.of_uint 0 |}.

Definition plain_world : World :=
  world_after
    (SetUpHW;; CreateHWContext example_descs;; AllocateHWBuffers;; CompileHWKernels)
    (mkWorld plain_film blank_device []).

(** The example film with its buffers allocated, before compilation. *)
Definition allocated_world : World := world_after AllocateHWBuffers created_world.

(** * Properties *)

(** ** Rounding up *)

(** Without overflow, [RoundUp a b] is the least multiple of [b] that is
    not below [a]. *)
Lemma RoundUp_multiple (a b : Z) :
  (0 < b)%Z -> (0 <= a)%Z -> (a + b <= 2 ^ 32)%Z ->
  (a <= RoundUp a b < a + b)%Z /\ (RoundUp a b mod b = 0)%Z.
Proof.
  intros Hb Ha Hfit. unfold RoundUp, wrap32.
  pose proof (Z.mod_pos_bound a b Hb) as Hr.
  destruct (Z.eqb_spec (a mod b) 0) as [Hz|Hnz]; [split; [lia|exact Hz]|].
  rewrite (Z.mod_small (a + b - a mod b)) by lia.
  split; [lia|].
  replace (a + b - a mod b)%Z with ((a / b + 1) * b)%Z.
  - apply Z.mod_mul. lia.
  - pose proof (Z.div_mod a b ltac:(lia)). lia.
Qed.

Example RoundUp_16 : RoundUp 16 256 = 256%Z /\ RoundUp 256 256 = 256%Z
                     /\ RoundUp 257 256 = 512%Z.
Proof. repeat split. Qed.

(** ** Device selection *)

Lemma first_index_Some {A} (p : A -> bool) (l : list A) (i : nat) :
  first_index p l = Some i <->
  (exists x, l !! i = Some x /\ p x = true) /\
  (forall j x, j < i -> l !! j = Some x -> p x = false).
Proof.
  revert i. induction l as [|y l IH]; intros i; simpl.
  - split; [discriminate|]. intros [[x [Hx _]] _]. discriminate.
  - destruct (p y) eqn:Hy.
    + split.
      * intros [= <-]. split; [exists y; auto|]. intros j x Hj. lia.
      * intros [[x [Hx Hpx]] Hmin]. destruct i as [|i]; [reflexivity|].
        specialize (Hmin 0 y ltac:(lia) eq_refl). congruence.
    + destruct (first_index p l) as [k|] eqn:Hk; simpl.
      * split.
        -- intros [= <-]. destruct (proj1 (IH k) eq_refl) as [Hex Hmin].
           split; [exact Hex|].
           intros [|j] x Hj Hx; simpl in Hx; [congruence|].
           apply (Hmin j); [lia|exact Hx].
        -- intros [[x [Hx Hpx]] Hmin]. destruct i as [|i]; simpl in Hx; [congruence|].
           assert (Some k = Some i) as Hki; [|congruence].
           apply IH. split; [eauto|].
           intros j z Hj Hz. apply (Hmin (S j)); [lia|exact Hz].
      * split; [discriminate|].
        intros [[x [Hx Hpx]] Hmin]. destruct i as [|i]; simpl in Hx; [congruence|].
        assert (None = Some i) as Hn; [|discriminate].
        apply IH. split; [eauto|].
        intros j z Hj Hz. apply (Hmin (S j)); [lia|exact Hz].
Qed.

Lemma first_index_None {A} (p : A -> bool) (l : list A) :
  first_index p l = None <-> (forall x, x ∈ l -> p x = false).
Proof.
  induction l as [|y l IH]; simpl.
  - split; [|reflexivity]. intros _ x Hx. inversion Hx.
  - destruct (p y) eqn:Hy.
    + split; [discriminate|]. intros H. specialize (H y ltac:(left)). congruence.
    + destruct (first_index p l); simpl.
      * split; [discriminate|]. intros H.
        assert (Some n = None) as Hn; [|discriminate].
        apply IH. intros x Hx. apply H. right. exact Hx.
      * split; [|reflexivity]. intros _ x Hx.
        inversion Hx; subst; [exact Hy|]. apply IH; auto.
Qed.

Lemma last_index_Some {A} (p : A -> bool) (l : list A) (i : nat) :
  last_index p l = Some i <->
  (exists x, l !! i = Some x /\ p x = true) /\
  (forall j x, i < j -> l !! j = Some x -> p x = false).
Proof.
  revert i. induction l as [|y l IH]; intros i; simpl.
  - split; [discriminate|]. intros [[x [Hx _]] _]. discriminate.
  - destruct (last_index p l) as [k|] eqn:Hk.
    + split.
      * intros [= <-]. destruct (proj1 (IH k) eq_refl) as [Hex Hmax].
        split; [exact Hex|]. intros [|j] x Hj Hx; [lia|]. simpl in Hx.
        apply (Hmax j); [lia|exact Hx].
      * intros [[x [Hx Hpx]] Hmax].
        destruct (proj1 (IH k) eq_refl) as [[z [Hz Hpz]] Hmaxk].
        destruct i as [|i].
        -- specialize (Hmax (S k) z ltac:(lia) Hz). congruence.
        -- f_equal. simpl in Hx.
           destruct (Nat.lt_trichotomy k i) as [Hlt|[->|Hgt]]; [|reflexivity|].
           ++ specialize (Hmaxk i x Hlt Hx). congruence.
           ++ specialize (Hmax (S k) z ltac:(lia) Hz). congruence.
    + assert (forall j x, l !! j = Some x -> p x = false) as Hnone.
      { intros j x Hx. destruct (p x) eqn:Hpx; [|reflexivity].
        assert (exists k, last_index p l = Some k) as [k Hk']; [|congruence].
        clear -Hx Hpx. revert j Hx. induction l as [|y l IHl]; intros j Hx; [discriminate|].
        simpl. destruct j as [|j]; simpl in Hx.
        - injection Hx as ->. destruct (last_index p l); eauto. rewrite Hpx. eauto.
        - destruct (IHl j Hx) as [k ->]. eauto. }
      destruct (p y) eqn:Hy.
      * split.
        -- intros [= <-]. split; [exists y; auto|].
           intros [|j] x Hj Hx; [lia|]. simpl in Hx. eapply Hnone; eauto.
        -- intros [[x [Hx Hpx]] _]. destruct i as [|i]; [reflexivity|].
           simpl in Hx. rewrite (Hnone i x Hx) in Hpx. discriminate.
      * split; [discriminate|]. intros [[x [Hx Hpx]] _].
        destruct i as [|i]; simpl in Hx; [congruence|].
        rewrite (Hnone i x Hx) in Hpx. discriminate.
Qed.

(** The scan, entered at index [i] with a candidate [sel]: the first CUDA
    GPU if there is one, else the last OpenCL GPU, else the candidate. *)
Lemma scan_devices_spec (descs : list DeviceDescription) (i : nat) (sel : option nat) :
  scan_devices i descs sel =
    match first_index is_cuda descs with
    | Some k => Some (i + k)
    | None =>
        match last_index is_opencl_gpu descs with
        | Some k => Some (i + k)
        | None => sel
        end
    end.
Proof.
  revert i sel. induction descs as [|d descs IH]; intros i sel; simpl; [reflexivity|].
  destruct (is_cuda d) eqn:Hc; [f_equal; lia|].
  assert (is_opencl_gpu d = true -> is_cuda d = false) as _ by auto.
  destruct (is_opencl_gpu d) eqn:Ho; rewrite IH;
    destruct (first_index is_cuda descs) as [k|]; simpl; try (f_equal; lia);
    destruct (last_index is_opencl_gpu descs) as [k|]; simpl; try (f_equal; lia);
    reflexivity.
Qed.

Lemma to_int_small (n : Z) : (0 <= n < 2 ^ 31)%Z -> to_int n = n.
Proof.
  intros H. unfold to_int, wrap32. rewrite Z.mod_small by lia.
  destruct (Z.ltb_spec n (2 ^ 31)); lia.
Qed.

(** What [CreateHWContext] leaves in [hardwareDevice]: the device of the
    selected descriptor, if one was selected. *)
Lemma create_context_selects available w u w' :
  CreateHWContext available w = OK (u, w') ->
  hardwareDevice (film w') =
    match select_device (hwEnable (film w)) (hwDeviceIndex (film w))
            (Filter_ALL_HARDWARE available) with
    | Some i => Some i
    | None => hardwareDevice (film w)
    end.
Proof.
  unfold CreateHWContext, mbind, M_bind, fresh, perform, modify_film, read, on_ctx, deref.
  cbn [film device calls set_ctx with_handles hwEnable hwDeviceIndex mret M_ret].
  destruct (select_device _ _ _) as [i|]; simpl; intros [= Hw]; subst w'; reflexivity.
Qed.

(** C1 (as amended). With hardware merging enabled and a descriptor list
    of fewer than 2^31 entries, the selection of [CreateHWContext] is the
    pinned index when it lies inside the list; otherwise the first CUDA
    GPU of the list; otherwise, when the list has no CUDA GPU, the last
    OpenCL GPU of the list; otherwise nothing. With hardware merging
    disabled nothing is selected. On a film with no device yet,
    [CreateHWContext] leaves the device of that selection in
    [hardwareDevice]. *)
Theorem select_device_policy (index : Z) (descs : list DeviceDescription) :
  (Z.of_nat (length descs) < 2 ^ 31)%Z ->
  select_device true index descs = selection_policy index descs
  /\ select_device false index descs = None
  /\ forall available w u w',
       Filter_ALL_HARDWARE available = descs ->
       hwEnable (film w) = true ->
       hwDeviceIndex (film w) = index ->
       hardwareDevice (film w) = None ->
       CreateHWContext available w = OK (u, w') ->
       hardwareDevice (film w') = selection_policy index descs.
Proof.
  intros Hlen.
  assert (select_device true index descs = selection_policy index descs) as Hsel.
  { unfold select_device, selection_policy, pinned.
    rewrite to_int_small by lia.
    destruct ((0 <=? index)%Z && (index <? Z.of_nat (length descs))%Z); [reflexivity|].
    destruct descs as [|d descs]; [reflexivity|].
    change (0 <? length (d :: descs)) with true. cbv iota.
    rewrite scan_devices_spec.
    destruct (first_index is_cuda (d :: descs)); [reflexivity|].
    destruct (last_index is_opencl_gpu (d :: descs)); reflexivity. }
  split; [exact Hsel|]. split; [reflexivity|].
  intros available w u w' Hdescs Hen Hidx Hnone Hc.
  rewrite (create_context_selects _ _ _ _ Hc), Hen, Hidx, Hdescs, Hsel, Hnone.
  by destruct (selection_policy index descs).
Qed.

Lemma select_device_policy_witness :
  select_device true (-1) three_opencl_devices = selection_policy (-1) three_opencl_devices
  /\ hardwareDevice (film created_world)
     = selection_policy (-1) (Filter_ALL_HARDWARE example_descs).
Proof.
  split.
  - apply (select_device_policy (-1) three_opencl_devices). simpl. lia.
  - refine (proj2 (proj2 (select_device_policy (-1) (Filter_ALL_HARDWARE example_descs) _))
              example_descs setup_world tt _ _ _ _ _ _).
    + simpl. lia.
    + reflexivity.
    + reflexivity.
    + reflexivity.
    + reflexivity.
    + vm_compute. reflexivity.
Defined.

(** C1 (as stated) fails: with two OpenCL GPUs and no CUDA GPU the scan
    keeps the second one, where the documented policy names the first;
    and with hardware merging disabled a pinned index selects nothing. *)
Lemma select_device_not_documented :
  documented_selection (-1) two_opencl_gpus = Some 0
  /\ select_device true (-1) two_opencl_gpus = Some 1
  /\ documented_selection 0 two_opencl_gpus = Some 0
  /\ select_device false 0 two_opencl_gpus = None.
Proof. repeat split. Qed.

(** ** The platform: calls, queue and bindings *)

Lemma free_slot_calls s w : calls (free_slot s w) = calls w.
Proof. unfold free_slot. destruct (hw_buffer s (film w)); reflexivity. Qed.

Lemma effect_calls c w : calls (effect c w) = calls w.
Proof.
  destruct c; simpl; try reflexivity;
    try (unfold alloc_slot; simpl; apply free_slot_calls);
    try apply free_slot_calls;
    destruct blocking; reflexivity.
Qed.

Lemma step_calls c w : calls (step c w) = calls w ++ [c].
Proof. unfold step. simpl. by rewrite effect_calls. Qed.

Lemma run_app cs1 cs2 w : run (cs1 ++ cs2) w = run cs2 (run cs1 w).
Proof. apply foldl_app. Qed.

Lemma run_calls cs w : calls (run cs w) = calls w ++ cs.
Proof.
  revert w. induction cs as [|c cs IH]; intros w; simpl.
  - by rewrite app_nil_r.
  - rewrite IH, step_calls, <- app_assoc. reflexivity.
Qed.

Lemma quiet_step c w :
  quiet c = true ->
  step c w =
    mkWorld (film w)
      (mkDevice (program (device w)) (buffers (device w))
         (rebind (kernelArgs (device w)) c)
         (queue (device w) ++ item_of (kernelArgs (device w)) c)
         (completed (device w)) (next_handle (device w)))
      (calls w ++ [c]).
Proof.
  destruct w as [f [pr b a q cp n] cs].
  destruct c; simpl; try discriminate; intros Hq;
    try (destruct blocking; [discriminate|]);
    unfold step, push, set_queue, set_kernelArgs, args_of; simpl;
    rewrite ?app_nil_r; reflexivity.
Qed.

Lemma quiet_run cs w :
  forallb quiet cs = true ->
  run cs w =
    mkWorld (film w)
      (mkDevice (program (device w)) (buffers (device w))
         (foldl rebind (kernelArgs (device w)) cs)
         (queue (device w) ++ items_of (kernelArgs (device w)) cs)
         (completed (device w)) (next_handle (device w)))
      (calls w ++ cs).
Proof.
  revert w. induction cs as [|c cs IH]; intros w; simpl.
  - intros _. destruct w as [f [pr b a q cp n] l]. simpl. by rewrite !app_nil_r.
  - intros [Hc Hcs]%andb_prop. rewrite quiet_step by exact Hc.
    rewrite IH by exact Hcs. simpl. by rewrite <- !app_assoc.
Qed.

Lemma quiet_run_film cs w : forallb quiet cs = true -> film (run cs w) = film w.
Proof. intros H. by rewrite quiet_run. Qed.

Lemma items_of_app a cs1 cs2 :
  items_of a (cs1 ++ cs2) = items_of a cs1 ++ items_of (foldl rebind a cs1) cs2.
Proof.
  revert a. induction cs1 as [|c cs1 IH]; intros a; simpl; [reflexivity|].
  by rewrite IH, app_assoc.
Qed.

Lemma exec_items_app pr st q1 q2 :
  exec_items pr st (q1 ++ q2) = exec_items pr (exec_items pr st q1) q2.
Proof. apply foldl_app. Qed.

(** Work other than reads leaves the host untouched. *)
Lemma exec_items_no_read pr st q :
  forallb (fun it => negb (is_read it)) q = true ->
  (exec_items pr st q).1 = st.1.
Proof.
  revert st. induction q as [|it q IH]; intros st Hq; [reflexivity|].
  simpl in Hq. apply andb_prop in Hq as [Hit Hq].
  unfold exec_items in *. simpl. rewrite IH by exact Hq.
  destruct it; simpl in *; [reflexivity|discriminate|reflexivity].
Qed.

(** ** Rules for [wp] *)

Lemma wp_elim {A} (m : M A) w Q a w' : wp m w Q -> m w = OK (a, w') -> Q a w'.
Proof. unfold wp. intros H Hm. by rewrite Hm in H. Qed.

Lemma wp_intro {A} (m : M A) w (Q : A -> World -> Prop) :
  (forall a w', m w = OK (a, w') -> Q a w') -> wp m w Q.
Proof. unfold wp. intros H. destruct (m w) as [[a w']|]; auto. Qed.

Lemma wp_bind {A B} (m : M A) (k : A -> M B) w Q :
  wp m w (fun a w1 => wp (k a) w1 Q) -> wp (m ≫= k) w Q.
Proof. unfold wp, mbind, M_bind. destruct (m w) as [[a w1]|]; auto. Qed.

Lemma wp_ret {A} (a : A) w (Q : A -> World -> Prop) : Q a w -> wp (mret a) w Q.
Proof. auto. Qed.

Lemma wp_read {A} (proj : Film -> A) w (Q : A -> World -> Prop) :
  Q (proj (film w)) w -> wp (read proj) w Q.
Proof. auto. Qed.

Lemma wp_deref {A} (p : option A) w (Q : A -> World -> Prop) :
  (forall a, p = Some a -> Q a w) -> wp (deref p) w Q.
Proof. destruct p; simpl; intros H; [by apply H|exact I]. Qed.

Lemma wp_at_index {A} (v : list A) i w (Q : A -> World -> Prop) :
  (forall a, v !! i = Some a -> Q a w) -> wp (at_index v i) w Q.
Proof.
  unfold at_index. destruct (v !! i); simpl; intros H; [by apply H|exact I].
Qed.

Lemma wp_channel_at proj i w (Q : Channel -> World -> Prop) :
  (forall ch, proj (film w) !! i = Some ch -> Q ch w) -> wp (channel_at proj i) w Q.
Proof. intros H. apply wp_bind, wp_read, wp_at_index, H. Qed.

Lemma wp_perform c w (Q : unit -> World -> Prop) : Q tt (step c w) -> wp (perform c) w Q.
Proof. auto. Qed.

Lemma wp_on_device c w (Q : unit -> World -> Prop) :
  (forall hd, hardwareDevice (film w) = Some hd -> Q tt (step c w)) ->
  wp (on_device c) w Q.
Proof.
  intros H. apply wp_bind, wp_read, wp_bind, wp_deref. intros hd Hhd.
  apply wp_perform. eauto.
Qed.

Lemma wp_on_ctx c w (Q : unit -> World -> Prop) :
  (forall p, ctx (film w) = Some p -> Q tt (step c w)) ->
  wp (on_ctx c) w Q.
Proof.
  intros H. apply wp_bind, wp_read, wp_bind, wp_deref. intros hd Hhd.
  apply wp_perform. eauto.
Qed.

Lemma wp_when (b : bool) m w (Q : unit -> World -> Prop) :
  (b = true -> wp m w Q) -> (b = false -> Q tt w) -> wp (when b m) w Q.
Proof.
  intros Ht Hf. destruct b; simpl; [by apply Ht|by apply wp_ret, Hf].
Qed.

Lemma wp_for_each (Inv : list nat -> World -> Prop) l body w (Q : unit -> World -> Prop) :
  Inv [] w ->
  (forall done g w1, Inv done w1 -> wp (body g) w1 (fun _ w2 => Inv (done ++ [g]) w2)) ->
  (forall w', Inv l w' -> Q tt w') ->
  wp (for_each l body) w Q.
Proof.
  intros H0 Hstep HQ.
  assert (forall done rest w1, done ++ rest = l -> Inv done w1 ->
            wp (for_each rest body) w1 Q) as Hgen.
  { intros done rest. revert done. induction rest as [|g rest IH]; intros done w1 Hl Hinv.
    - rewrite app_nil_r in Hl. subst. by apply HQ.
    - simpl. apply wp_bind. specialize (Hstep done g w1 Hinv).
      unfold wp in *. destruct (body g w1) as [[[] w2]|]; [|exact I].
      apply (IH (done ++ [g])); [|exact Hstep]. by rewrite <- app_assoc. }
  by apply (Hgen [] l).
Qed.

(** The queue calls of the film, on non-null handles. *)
Lemma wp_EnqueueWriteBuffer buff blocking size src w (Q : unit -> World -> Prop) :
  (forall b hd, buff = Some b -> hardwareDevice (film w) = Some hd ->
     Q tt (step (C_EnqueueWriteBuffer b blocking size src) w)) ->
  wp (EnqueueWriteBuffer buff blocking size src) w Q.
Proof. intros H. apply wp_bind, wp_deref. intros b ->. apply wp_on_device. eauto. Qed.

Lemma wp_EnqueueReadBuffer buff blocking size dst w (Q : unit -> World -> Prop) :
  (forall b hd, buff = Some b -> hardwareDevice (film w) = Some hd ->
     Q tt (step (C_EnqueueReadBuffer b blocking size dst) w)) ->
  wp (EnqueueReadBuffer buff blocking size dst) w Q.
Proof. intros H. apply wp_bind, wp_deref. intros b ->. apply wp_on_device. eauto. Qed.

Lemma wp_SetKernelArg kernel index v w (Q : unit -> World -> Prop) :
  (forall k hd, kernel = Some k -> hardwareDevice (film w) = Some hd ->
     Q tt (step (C_SetKernelArg k index v) w)) ->
  wp (SetKernelArg kernel index v) w Q.
Proof. intros H. apply wp_bind, wp_deref. intros b ->. apply wp_on_device. eauto. Qed.

Lemma wp_EnqueueKernel kernel g l w (Q : unit -> World -> Prop) :
  (forall k hd, kernel = Some k -> hardwareDevice (film w) = Some hd ->
     Q tt (step (C_EnqueueKernel k g l) w)) ->
  wp (EnqueueKernel kernel g l) w Q.
Proof. intros H. apply wp_bind, wp_deref. intros b ->. apply wp_on_device. eauto. Qed.

Lemma film_quiet_step c w : quiet c = true -> film (step c w) = film w.
Proof. intros H. by rewrite quiet_step. Qed.

Lemma wp_group_enabled ip g w (Q : bool -> World -> Prop) :
  ((forall p, ip = Some p -> is_Some (radianceChannelScales p !! g)) ->
   Q (is_enabled ip g) w) ->
  wp (group_enabled ip g) w Q.
Proof.
  intros HQ. destruct ip as [p|]; simpl.
  - apply wp_bind, wp_at_index. intros s Hs. apply wp_ret.
    simpl in HQ. rewrite Hs in HQ. apply HQ. intros ? [= <-]. eauto.
  - apply wp_ret, HQ. discriminate.
Qed.

Lemma wp_group_scale ip g w (Q : Spectrum -> World -> Prop) :
  Q (configured_scale ip g) w -> wp (group_scale ip g) w Q.
Proof.
  intros HQ. destruct ip as [p|]; simpl; [|by apply wp_ret].
  apply wp_bind, wp_at_index. intros s Hs. apply wp_ret.
  simpl in HQ. by rewrite Hs in HQ.
Qed.

(** One statement of a film method. *)
Ltac wp_step :=
  lazymatch goal with
  | |- wp (mbind _ _) _ _ => apply wp_bind; wp_step
  | |- wp (mret _) _ _ => apply wp_ret
  | |- wp (read _) _ _ => apply wp_read
  | |- wp (channel_at _ _) _ _ => apply wp_channel_at; intros ? ?
  | |- wp (deref _) _ _ => apply wp_deref; intros ? ?
  | |- wp (group_enabled _ _) _ _ => apply wp_group_enabled; intros ?
  | |- wp (group_scale _ _) _ _ => apply wp_group_scale
  | |- wp (EnqueueWriteBuffer _ _ _ _) _ _ => apply wp_EnqueueWriteBuffer; intros ? ? ? ?
  | |- wp (EnqueueReadBuffer _ _ _ _) _ _ => apply wp_EnqueueReadBuffer; intros ? ? ? ?
  | |- wp (SetKernelArg _ _ _) _ _ => apply wp_SetKernelArg; intros ? ? ? ?
  | |- wp (EnqueueKernel _ _ _) _ _ => apply wp_EnqueueKernel; intros ? ? ? ?
  | |- wp (on_device _) _ _ => apply wp_on_device; intros ? ?
  | |- wp (on_ctx _) _ _ => apply wp_on_ctx; intros ? ?
  | |- wp (perform _) _ _ => apply wp_perform
  end;
  rewrite ?film_quiet_step by reflexivity.

(** One iteration of an accumulate loop issues the calls of the group, or
    none when the group is disabled. *)
Lemma accumulate_group_run ip proj px ks fac g w :
  wp (accumulate_group ip proj px ks fac g) w (fun _ w' =>
    group_ready (film w) ip proj ks g /\
    w' = run (if is_enabled ip g
              then accumulate_calls_of (film w) ip proj px ks fac g else []) w).
Proof.
  unfold accumulate_group, group_ready, accumulate_calls_of. wp_step.
  apply wp_when.
  - intros Hen. rewrite Hen. do 11 wp_step.
    simplify_eq. unfold channel_size.
    repeat match goal with H : _ = Some _ |- _ => rewrite H end.
    eauto 10.
  - intros Hen. rewrite Hen. split; [|reflexivity]. split; [assumption|discriminate].
Qed.

Lemma wp_mono {A} (m : M A) w (Q Q' : A -> World -> Prop) :
  wp m w Q -> (forall a w', Q a w' -> Q' a w') -> wp m w Q'.
Proof. unfold wp. destruct (m w) as [[a w']|]; auto. Qed.

Lemma quiet_flat_map {A} (gc : A -> list Call) (l : list A) :
  (forall g, forallb quiet (gc g) = true) -> forallb quiet (flat_map gc l) = true.
Proof.
  intros H. induction l as [|g l IH]; simpl; [reflexivity|].
  rewrite forallb_app, H, IH. reflexivity.
Qed.

Lemma filter_snoc {A} (p : A -> bool) (l : list A) (x : A) :
  List.filter p (l ++ [x]) = List.filter p l ++ (if p x then [x] else []).
Proof.
  induction l as [|y l IH]; simpl; [by destruct (p x)|].
  rewrite IH. by destruct (p y).
Qed.

(** A whole accumulate loop issues the calls of the enabled groups, in
    index order. *)
Lemma accumulate_loop_run ip proj px ks fac n w :
  wp (for_upto n (accumulate_group ip proj px ks fac)) w (fun _ w' =>
    (forall g, g < n -> group_ready (film w) ip proj ks g) /\
    w' = run (flat_map (accumulate_calls_of (film w) ip proj px ks fac)
                (List.filter (is_enabled ip) (seq 0 n))) w).
Proof.
  unfold for_upto.
  set (gc := accumulate_calls_of (film w) ip proj px ks fac).
  apply (wp_for_each (fun done w1 =>
           (forall g, g ∈ done -> group_ready (film w) ip proj ks g) /\
           w1 = run (flat_map gc (List.filter (is_enabled ip) done)) w)).
  - split; [|reflexivity]. intros g Hg. inversion Hg.
  - intros done g w1 [Hready ->].
    eapply wp_mono; [apply accumulate_group_run|].
    intros _ w2 [Hg ->]. cbv beta in *.
    rewrite quiet_run_film in * by (apply quiet_flat_map; intros; reflexivity).
    split.
    + intros g' [Hin|Hin%list_elem_of_singleton]%elem_of_app; [auto|by subst].
    + rewrite filter_snoc, flat_map_app, run_app.
      destruct (is_enabled ip g); simpl; reflexivity.
  - intros w' [Hready ->]. split; [|reflexivity].
    intros g Hg. apply Hready. apply elem_of_seq. lia.
Qed.

Lemma quiet_per_pixel_calls f i : forallb quiet (per_pixel_calls f i) = true.
Proof.
  unfold per_pixel_calls. destruct (HasChannel f _); [|reflexivity].
  apply quiet_flat_map. reflexivity.
Qed.

Lemma quiet_per_screen_calls f i : forallb quiet (per_screen_calls f i) = true.
Proof.
  unfold per_screen_calls. destruct (HasChannel f _); [|reflexivity].
  apply quiet_flat_map. reflexivity.
Qed.

Lemma quiet_merge_enqueues f i : forallb quiet (merge_enqueues f i) = true.
Proof.
  unfold merge_enqueues.
  rewrite !forallb_app, quiet_per_pixel_calls, quiet_per_screen_calls. reflexivity.
Qed.

(** A merge that returns found what it needs, and is the run of its
    calls. *)
Lemma merge_run i w :
  wp (MergeSampleBuffersHW i) w (fun _ w' =>
    merge_ready (film w) i /\ w' = run (merge_calls (film w) i) w).
Proof.
  unfold MergeSampleBuffersHW.
  do 8 wp_step.
  apply wp_bind.
  fold (target_pipeline (film w) i).
  set (f := film w) in *.
  set (w1 := step _ (step _ w)).
  assert (film w1 = f) as Hf1 by (subst w1; by rewrite !film_quiet_step).
  apply (wp_mono _ _ (fun _ w2 =>
           (HasChannel f RADIANCE_PER_PIXEL_NORMALIZED = true ->
            forall g, g < radianceGroupCount f ->
              group_ready f (target_pipeline f i) channel_RADIANCE_PER_PIXEL_NORMALIZEDs
                slot_PER_PIXEL g) /\
           w2 = run (per_pixel_calls f i) w1)).
  { unfold per_pixel_calls.
    apply wp_when; intros ->; [|split; [discriminate|reflexivity]].
    wp_step. rewrite ?Hf1.
    eapply wp_mono; [apply accumulate_loop_run|].
    intros _ w2 [Hr ->]. rewrite ?Hf1 in *. split; [auto|reflexivity]. }
  intros _ w2 [Hpp ->].
  set (w2 := run _ w1).
  assert (film w2 = f) as Hf2
    by (subst w2; by rewrite quiet_run_film by apply quiet_per_pixel_calls).
  wp_step. rewrite ?Hf2. apply wp_bind.
  apply (wp_mono _ _ (fun _ w3 =>
           (HasChannel f RADIANCE_PER_SCREEN_NORMALIZED = true ->
            forall g, g < radianceGroupCount f ->
              group_ready f (target_pipeline f i) channel_RADIANCE_PER_SCREEN_NORMALIZEDs
                slot_PER_SCREEN g) /\
           w3 = run (per_screen_calls f i) w2)).
  { unfold per_screen_calls.
    apply wp_when; intros ->; [|split; [discriminate|reflexivity]].
    do 3 wp_step. rewrite ?Hf2.
    eapply wp_mono; [apply accumulate_loop_run|].
    intros _ w3 [Hr ->]. rewrite ?Hf2 in *. split; [auto|reflexivity]. }
  intros _ w3 [Hps ->].
  set (w3 := run _ w2).
  assert (film w3 = f) as Hf3
    by (subst w3; by rewrite quiet_run_film by apply quiet_per_screen_calls).
  do 2 wp_step. rewrite ?Hf3. wp_step.
  apply wp_bind, wp_channel_at. intros ch0 Hch0.
  rewrite film_quiet_step, Hf3 in Hch0 by reflexivity.
  wp_step. rewrite ?Hf3. wp_step.
  unfold FinishQueue. wp_step.
  split.
  - unfold merge_ready. fold f. simplify_eq. eauto 10.
  - unfold merge_calls, merge_enqueues.
    rewrite !run_app. fold f. simpl.
    unfold upload_target, download_target, dispatch_initialize, dispatch_finalize,
      channel_size, dispatch_size.
    simplify_eq.
    repeat match goal with H : _ = Some _ |- _ => rewrite H; clear H end.
    reflexivity.
Qed.

Lemma merge_returns i w u w' :
  MergeSampleBuffersHW i w = OK (u, w') ->
  merge_ready (film w) i /\ w' = run (merge_calls (film w) i) w.
Proof. intros H. exact (wp_elim _ _ _ _ _ (merge_run i w) H). Qed.

(** ** Rules for [returns] *)

Lemma returns_wp {A} (m : M A) w (Q Q' : A -> World -> Prop) :
  returns m w Q -> wp m w Q' -> returns m w (fun a w' => Q a w' /\ Q' a w').
Proof. unfold returns, wp. destruct (m w) as [[a w']|]; auto. Qed.

Lemma returns_elim {A} (m : M A) w (Q : A -> World -> Prop) :
  returns m w Q -> exists a w', m w = OK (a, w') /\ Q a w'.
Proof. unfold returns. destruct (m w) as [[a w']|]; [eauto|tauto]. Qed.

Lemma returns_mono {A} (m : M A) w (Q Q' : A -> World -> Prop) :
  returns m w Q -> (forall a w', Q a w' -> Q' a w') -> returns m w Q'.
Proof. unfold returns. destruct (m w) as [[a w']|]; auto. Qed.

Lemma returns_bind {A B} (m : M A) (k : A -> M B) w Q :
  returns m w (fun a w1 => returns (k a) w1 Q) -> returns (m ≫= k) w Q.
Proof. unfold returns, mbind, M_bind. destruct (m w) as [[a w1]|]; auto. Qed.

Lemma returns_ret {A} (a : A) w (Q : A -> World -> Prop) : Q a w -> returns (mret a) w Q.
Proof. auto. Qed.

Lemma returns_read {A} (proj : Film -> A) w (Q : A -> World -> Prop) :
  Q (proj (film w)) w -> returns (read proj) w Q.
Proof. auto. Qed.

Lemma returns_deref {A} (p : option A) w (Q : A -> World -> Prop) :
  is_Some p -> (forall a, p = Some a -> Q a w) -> returns (deref p) w Q.
Proof. intros [a ->] H. by apply H. Qed.

Lemma returns_at_index {A} (v : list A) i w (Q : A -> World -> Prop) :
  is_Some (v !! i) -> (forall a, v !! i = Some a -> Q a w) -> returns (at_index v i) w Q.
Proof.
  intros [a Ha] H. unfold at_index, returns. rewrite Ha. by apply H.
Qed.

Lemma returns_channel_at proj i w (Q : Channel -> World -> Prop) :
  is_Some (proj (film w) !! i) ->
  (forall ch, proj (film w) !! i = Some ch -> Q ch w) ->
  returns (channel_at proj i) w Q.
Proof. intros Hs H. apply returns_bind, returns_read, returns_at_index; auto. Qed.

Lemma returns_perform c w (Q : unit -> World -> Prop) :
  Q tt (step c w) -> returns (perform c) w Q.
Proof. auto. Qed.

Lemma returns_on_device c w (Q : unit -> World -> Prop) :
  is_Some (hardwareDevice (film w)) -> Q tt (step c w) -> returns (on_device c) w Q.
Proof.
  intros Hs H. apply returns_bind, returns_read, returns_bind, returns_deref; [done|].
  intros _ _. by apply returns_perform.
Qed.

Lemma returns_on_ctx c w (Q : unit -> World -> Prop) :
  is_Some (ctx (film w)) -> Q tt (step c w) -> returns (on_ctx c) w Q.
Proof.
  intros Hs H. apply returns_bind, returns_read, returns_bind, returns_deref; [done|].
  intros _ _. by apply returns_perform.
Qed.

Lemma returns_when (b : bool) m w (Q : unit -> World -> Prop) :
  (b = true -> returns m w Q) -> (b = false -> Q tt w) -> returns (when b m) w Q.
Proof.
  intros Ht Hf. destruct b; simpl; [by apply Ht|by apply returns_ret, Hf].
Qed.

Lemma returns_for_each (Inv : list nat -> World -> Prop) l body w
    (Q : unit -> World -> Prop) :
  Inv [] w ->
  (forall done g w1, g ∈ l -> Inv done w1 ->
     returns (body g) w1 (fun _ w2 => Inv (done ++ [g]) w2)) ->
  (forall w', Inv l w' -> Q tt w') ->
  returns (for_each l body) w Q.
Proof.
  intros H0 Hstep HQ.
  assert (forall done rest w1, done ++ rest = l -> Inv done w1 ->
            returns (for_each rest body) w1 Q) as Hgen.
  { intros done rest. revert done. induction rest as [|g rest IH]; intros done w1 Hl Hinv.
    - rewrite app_nil_r in Hl. subst. by apply HQ.
    - simpl. apply returns_bind.
      assert (g ∈ l) as Hg by (subst l; apply elem_of_app; right; left).
      specialize (Hstep done g w1 Hg Hinv).
      unfold returns in *. destruct (body g w1) as [[[] w2]|]; [|exact Hstep].
      apply (IH (done ++ [g])); [|exact Hstep]. by rewrite <- app_assoc. }
  by apply (Hgen [] l).
Qed.

Lemma returns_EnqueueWriteBuffer buff blocking size src w (Q : unit -> World -> Prop) :
  is_Some buff -> is_Some (hardwareDevice (film w)) ->
  (forall b, buff = Some b -> Q tt (step (C_EnqueueWriteBuffer b blocking size src) w)) ->
  returns (EnqueueWriteBuffer buff blocking size src) w Q.
Proof.
  intros Hb Hd H. apply returns_bind, returns_deref; [done|].
  intros b ->. apply returns_on_device; eauto.
Qed.

Lemma returns_EnqueueReadBuffer buff blocking size dst w (Q : unit -> World -> Prop) :
  is_Some buff -> is_Some (hardwareDevice (film w)) ->
  (forall b, buff = Some b -> Q tt (step (C_EnqueueReadBuffer b blocking size dst) w)) ->
  returns (EnqueueReadBuffer buff blocking size dst) w Q.
Proof.
  intros Hb Hd H. apply returns_bind, returns_deref; [done|].
  intros b ->. apply returns_on_device; eauto.
Qed.

Lemma returns_SetKernelArg kernel index v w (Q : unit -> World -> Prop) :
  is_Some kernel -> is_Some (hardwareDevice (film w)) ->
  (forall k, kernel = Some k -> Q tt (step (C_SetKernelArg k index v) w)) ->
  returns (SetKernelArg kernel index v) w Q.
Proof.
  intros Hb Hd H. apply returns_bind, returns_deref; [done|].
  intros b ->. apply returns_on_device; eauto.
Qed.

Lemma returns_EnqueueKernel kernel g l w (Q : unit -> World -> Prop) :
  is_Some kernel -> is_Some (hardwareDevice (film w)) ->
  (forall k, kernel = Some k -> Q tt (step (C_EnqueueKernel k g l) w)) ->
  returns (EnqueueKernel kernel g l) w Q.
Proof.
  intros Hb Hd H. apply returns_bind, returns_deref; [done|].
  intros b ->. apply returns_on_device; eauto.
Qed.

Lemma returns_group_enabled ip g w (Q : bool -> World -> Prop) :
  (forall p, ip = Some p -> is_Some (radianceChannelScales p !! g)) ->
  Q (is_enabled ip g) w -> returns (group_enabled ip g) w Q.
Proof.
  intros Hs HQ. destruct ip as [p|]; simpl; [|by apply returns_ret].
  apply returns_bind, returns_at_index; [by apply Hs|].
  intros s Hsg. apply returns_ret. simpl in HQ. by rewrite Hsg in HQ.
Qed.

Lemma returns_group_scale ip g w (Q : Spectrum -> World -> Prop) :
  (forall p, ip = Some p -> is_Some (radianceChannelScales p !! g)) ->
  Q (configured_scale ip g) w -> returns (group_scale ip g) w Q.
Proof.
  intros Hs HQ. destruct ip as [p|]; simpl; [|by apply returns_ret].
  apply returns_bind, returns_at_index; [by apply Hs|].
  intros s Hsg. apply returns_ret. simpl in HQ. by rewrite Hsg in HQ.
Qed.

Ltac film_facts := rewrite ?film_quiet_step by reflexivity; eauto.

Ltac returns_step :=
  lazymatch goal with
  | |- returns (mbind _ _) _ _ => apply returns_bind; returns_step
  | |- returns (mret _) _ _ => apply returns_ret
  | |- returns (read _) _ _ => apply returns_read
  | |- returns (channel_at _ _) _ _ => apply returns_channel_at; [film_facts|intros ? ?]
  | |- returns (group_enabled _ _) _ _ => apply returns_group_enabled; [film_facts|]
  | |- returns (group_scale _ _) _ _ => apply returns_group_scale; [film_facts|]
  | |- returns (EnqueueWriteBuffer _ _ _ _) _ _ =>
      apply returns_EnqueueWriteBuffer; [film_facts|film_facts|intros ? ?]
  | |- returns (EnqueueReadBuffer _ _ _ _) _ _ =>
      apply returns_EnqueueReadBuffer; [film_facts|film_facts|intros ? ?]
  | |- returns (SetKernelArg _ _ _) _ _ =>
      apply returns_SetKernelArg; [film_facts|film_facts|intros ? ?]
  | |- returns (EnqueueKernel _ _ _) _ _ =>
      apply returns_EnqueueKernel; [film_facts|film_facts|intros ? ?]
  | |- returns (on_device _) _ _ => apply returns_on_device; [film_facts|]
  | |- returns (on_ctx _) _ _ => apply returns_on_ctx; [film_facts|]
  | |- returns (perform _) _ _ => apply returns_perform
  end;
  rewrite ?film_quiet_step by reflexivity.

(** With what it needs at hand, an accumulate iteration returns. *)
Lemma accumulate_group_returns ip proj px ks fac g w :
  is_Some (hardwareDevice (film w)) ->
  group_ready (film w) ip proj ks g ->
  returns (accumulate_group ip proj px ks fac g) w (fun _ w' => film w' = film w).
Proof.
  intros Hd [Hs Hen]. unfold accumulate_group. returns_step.
  apply returns_when; [|reflexivity].
  intros Hg. destruct (Hen Hg) as (Hch & Hmb & Hk).
  do 11 returns_step. reflexivity.
Qed.

Lemma accumulate_loop_returns ip proj px ks fac n w :
  is_Some (hardwareDevice (film w)) ->
  (forall g, g < n -> group_ready (film w) ip proj ks g) ->
  returns (for_upto n (accumulate_group ip proj px ks fac)) w (fun _ w' => film w' = film w).
Proof.
  intros Hd Hready. unfold for_upto.
  apply (returns_for_each (fun _ w1 => film w1 = film w)); [reflexivity| |auto].
  intros done g w1 Hg%elem_of_seq Hf.
  eapply returns_mono.
  - apply accumulate_group_returns; rewrite Hf; [exact Hd|]. apply Hready. lia.
  - intros _ w2 ->. exact Hf.
Qed.

(** With what it needs at hand, the merge returns. *)
Lemma merge_total i w :
  merge_ready (film w) i -> returns (MergeSampleBuffersHW i) w (fun _ _ => True).
Proof.
  intros (Hd & Hch & Hip & Hki & Hkf & Hpp & Hps).
  unfold MergeSampleBuffersHW. do 8 returns_step.
  fold (target_pipeline (film w) i).
  apply returns_bind.
  set (w1 := step _ (step _ w)).
  assert (film w1 = film w) as Hf1 by (subst w1; by rewrite !film_quiet_step).
  apply (returns_mono _ _ (fun _ w2 => film w2 = film w)).
  { apply returns_when; [|auto]. intros Hhas. returns_step.
    eapply returns_mono.
    - apply accumulate_loop_returns; rewrite Hf1; auto.
    - intros _ w2 ->. exact Hf1. }
  intros _ w2 Hf2. returns_step. rewrite Hf2.
  apply returns_bind.
  apply (returns_mono _ _ (fun _ w3 => film w3 = film w)).
  { apply returns_when; [|auto]. intros Hhas. do 3 returns_step.
    eapply returns_mono.
    - apply accumulate_loop_returns; rewrite Hf2; auto.
    - intros _ w3 ->. exact Hf2. }
  intros _ w3 Hf3.
  do 2 returns_step. rewrite ?Hf3.
  assert (forall c, quiet c = true -> film (step c w3) = film w) as Hq1
    by (intros; by rewrite film_quiet_step).
  assert (forall c c', quiet c = true -> quiet c' = true ->
            film (step c' (step c w3)) = film w) as Hq2
    by (intros; by rewrite !film_quiet_step).
  apply returns_bind, returns_EnqueueKernel; [rewrite ?Hf3; auto..|]. intros kf _.
  apply returns_bind, returns_channel_at; [rewrite Hq1 by reflexivity; auto|].
  intros ch' _.
  apply returns_bind, returns_read. rewrite Hq1 by reflexivity.
  apply returns_bind, returns_EnqueueReadBuffer;
    [auto|rewrite Hq1 by reflexivity; auto|]. intros b' _.
  unfold FinishQueue. apply returns_on_device; [|exact I].
  rewrite Hq2 by reflexivity. auto.
Qed.

(** The merge returns exactly when it has what it needs, and is then the
    run of its calls. *)
Lemma merge_spec i w u w' :
  MergeSampleBuffersHW i w = OK (u, w') <->
  merge_ready (film w) i /\ w' = run (merge_calls (film w) i) w.
Proof.
  split; [apply merge_returns|].
  intros [Hready ->].
  destruct (returns_elim _ _ _ (returns_wp _ _ _ _ (merge_total i w Hready) (merge_run i w)))
    as ([] & w' & Hm & _ & _ & ->).
  destruct u. exact Hm.
Qed.

(** ** The work a merge hands to the device *)

Lemma rebind_accumulate_calls a mb k r size src s :
  default ∅ (foldl rebind a (accumulate_calls mb k r size src s) !! k)
  = <[6 := ArgFloat (c2 s)]> (<[5 := ArgFloat (c1 s)]> (<[4 := ArgFloat (c0 s)]>
      (default ∅ (a !! k)))).
Proof. simpl. by rewrite !lookup_insert_eq. Qed.

Lemma items_of_accumulate_calls a mb k r size src s :
  accumulate_work mb k r size src s (items_of a (accumulate_calls mb k r size src s)).
Proof.
  eexists. split.
  - simpl. rewrite !lookup_insert_eq. simpl. reflexivity.
  - unfold scale_bound. repeat split.
    + rewrite lookup_insert_ne, lookup_insert_ne, lookup_insert_eq by lia. reflexivity.
    + rewrite lookup_insert_ne, lookup_insert_eq by lia. reflexivity.
    + rewrite lookup_insert_eq. reflexivity.
Qed.

(** Whatever was bound before the loop, every dispatch of the loop
    carries the scale of its own group. *)
Lemma items_of_accumulate_loop a mb k r (size : nat -> nat) (src : nat -> HostRef)
    (s : nat -> Spectrum) (gs : list nat) :
  exists work,
    items_of a (flat_map (fun g => accumulate_calls mb k r (size g) (src g) (s g)) gs)
      = concat work
    /\ Forall2 (fun g its => accumulate_work mb k r (size g) (src g) (s g) its) gs work.
Proof.
  revert a. induction gs as [|g gs IH]; intros a.
  - exists []. split; [reflexivity|constructor].
  - cbn [flat_map]. rewrite items_of_app.
    destruct (IH (foldl rebind a (accumulate_calls mb k r (size g) (src g) (s g))))
      as (work & Hw & Hall).
    exists (items_of a (accumulate_calls mb k r (size g) (src g) (s g)) :: work).
    split.
    + cbn [concat]. by rewrite Hw.
    + constructor; [apply items_of_accumulate_calls|exact Hall].
Qed.

Lemma merge_enqueues_work f i a : merge_work f i (items_of a (merge_enqueues f i)).
Proof.
  unfold merge_enqueues, merge_work.
  rewrite !items_of_app.
  set (a1 := foldl rebind a [upload_target f i; dispatch_initialize f]).
  set (a2 := foldl rebind a1 (per_pixel_calls f i)).
  set (a3 := foldl rebind a2 (per_screen_calls f i)).
  assert (exists pp, items_of a1 (per_pixel_calls f i) = concat pp /\ per_pixel_work f i pp)
    as (pp & Hpp & Hppw).
  { unfold per_pixel_calls, per_pixel_work.
    destruct (HasChannel f RADIANCE_PER_PIXEL_NORMALIZED); [|by exists []].
    apply (items_of_accumulate_loop a1 _ _ _
             (channel_size (channel_RADIANCE_PER_PIXEL_NORMALIZEDs f)) px_PER_PIXEL
             (per_pixel_scale f i)). }
  assert (exists ps, items_of a2 (per_screen_calls f i) = concat ps /\ per_screen_work f i ps)
    as (ps & Hps & Hpsw).
  { unfold per_screen_calls, per_screen_work.
    destruct (HasChannel f RADIANCE_PER_SCREEN_NORMALIZED); [|by exists []].
    apply (items_of_accumulate_loop a2 _ _ _
             (channel_size (channel_RADIANCE_PER_SCREEN_NORMALIZEDs f)) px_PER_SCREEN
             (per_screen_scale f i)). }
  eexists _, pp, ps, _. rewrite Hpp, Hps. split; [|split; assumption].
  simpl. reflexivity.
Qed.

(** The state a returned merge leaves: the queue, old and new, has been
    carried out in order. *)
Lemma merge_final i w u w' :
  MergeSampleBuffersHW i w = OK (u, w') ->
  let d := device w in
  let its := items_of (kernelArgs d) (merge_enqueues (film w) i) in
  let st := exec_items (program d) (film w, buffers d) (queue d ++ its) in
  film w' = st.1 /\ buffers (device w') = st.2
  /\ completed (device w') = completed d ++ queue d ++ its
  /\ queue (device w') = [].
Proof.
  intros [_ ->]%merge_returns. unfold merge_calls.
  rewrite run_app, (quiet_run (merge_enqueues (film w) i)) by apply quiet_merge_enqueues.
  simpl. auto.
Qed.

(** ** The normalization factor *)

Lemma merge_ready_returns i w :
  merge_ready (film w) i -> exists w', MergeSampleBuffersHW i w = OK (tt, w').
Proof. intros H. exists (run (merge_calls (film w) i) w). by apply merge_spec. Qed.

Lemma normalization_factor_zero pc s : normalization_factor pc (S754_zero s) = F32.one.
Proof. unfold normalization_factor. by destruct s. Qed.

(** ** The merge *)

Lemma dispatch_in_accumulate_loop k g l (gc : nat -> list Call) r gs :
  (forall g', exists mb k' size src s, gc g' = accumulate_calls mb k' r size src s) ->
  C_EnqueueKernel k g l ∈ flat_map gc gs -> g = r /\ l = 256%Z.
Proof.
  intros Hgc [g' [_ Hin]]%list_elem_of_In%in_flat_map.
  destruct (Hgc g') as (mb & k' & size & src & s & Heq). rewrite Heq in Hin.
  simpl in Hin. intuition congruence.
Qed.

Lemma dispatch_in_merge_calls f i k g l :
  C_EnqueueKernel k g l ∈ merge_calls f i -> g = dispatch_size f /\ l = 256%Z.
Proof.
  unfold merge_calls, merge_enqueues, per_pixel_calls, per_screen_calls.
  rewrite !elem_of_app. intros [[Hin|[Hin|[Hin|Hin]]]|Hin].
  - apply list_elem_of_In in Hin. simpl in Hin.
    unfold upload_target, dispatch_initialize in Hin. intuition congruence.
  - destruct (HasChannel f RADIANCE_PER_PIXEL_NORMALIZED); [|inversion Hin].
    eapply dispatch_in_accumulate_loop; [|exact Hin].
    intros g'. unfold per_pixel_group. eauto 10.
  - destruct (HasChannel f RADIANCE_PER_SCREEN_NORMALIZED); [|inversion Hin].
    eapply dispatch_in_accumulate_loop; [|exact Hin].
    intros g'. unfold per_screen_group. eauto 10.
  - apply list_elem_of_In in Hin. simpl in Hin.
    unfold download_target, dispatch_finalize in Hin. intuition congruence.
  - apply list_elem_of_In in Hin. simpl in Hin. intuition congruence.
Qed.

Lemma merge_calls_made i w u w' :
  MergeSampleBuffersHW i w = OK (u, w') ->
  calls w' =
    calls w
    ++ [upload_target (film w) i; dispatch_initialize (film w)]
    ++ per_pixel_calls (film w) i
    ++ per_screen_calls (film w) i
    ++ [dispatch_finalize (film w); download_target (film w) i; C_FinishQueue].
Proof.
  intros [_ ->]%merge_returns.
  rewrite run_calls. unfold merge_calls, merge_enqueues.
  rewrite <- !app_assoc. reflexivity.
Qed.

(** C2. The factor of the per-screen-normalized loop is the [double]
    quotient pixel count / sample count, converted to [float], when the
    sample count is greater than zero, and exactly 1.0 when the sample
    count is zero. It is this factor the merge multiplies into the scale
    of every enabled group before binding slots 4, 5 and 6 of the
    per-screen-normalized kernel: the calls of a merge that returns are
    those of [per_screen_calls_with] at that factor. A zero sample count
    raises no fault: a merge that has its handles and channels returns,
    having bound 1.0 times the scale of each group. *)
Theorem normalization_factor_guard (pc : Z) (sc : spec_float) :
  (F64.gt sc (F64.of_uint 0) = true ->
   normalization_factor pc sc = F64.to_float (F64.div (F64.of_uint pc) sc))
  /\ (forall s, sc = S754_zero s -> normalization_factor pc sc = F32.one)
  /\ (forall i w u w',
        pixelCount (film w) = pc ->
        SampleCount_RADIANCE_PER_SCREEN_NORMALIZED (film w) = sc ->
        MergeSampleBuffersHW i w = OK (u, w') ->
        calls w' =
          calls w
          ++ [upload_target (film w) i; dispatch_initialize (film w)]
          ++ per_pixel_calls (film w) i
          ++ per_screen_calls_with (film w) i (normalization_factor pc sc)
          ++ [dispatch_finalize (film w); download_target (film w) i; C_FinishQueue])
  /\ (forall s i w,
        sc = S754_zero s ->
        pixelCount (film w) = pc ->
        SampleCount_RADIANCE_PER_SCREEN_NORMALIZED (film w) = sc ->
        merge_ready (film w) i ->
        exists w',
          MergeSampleBuffersHW i w = OK (tt, w')
          /\ factor_of (film w) = F32.one
          /\ calls w' =
               calls w
               ++ [upload_target (film w) i; dispatch_initialize (film w)]
               ++ per_pixel_calls (film w) i
               ++ per_screen_calls_with (film w) i F32.one
               ++ [dispatch_finalize (film w); download_target (film w) i;
                   C_FinishQueue]).
Proof.
  assert (forall s, sc = S754_zero s -> normalization_factor pc sc = F32.one) as Hzero.
  { intros s ->. apply normalization_factor_zero. }
  assert (forall i w u w',
            pixelCount (film w) = pc ->
            SampleCount_RADIANCE_PER_SCREEN_NORMALIZED (film w) = sc ->
            MergeSampleBuffersHW i w = OK (u, w') ->
            calls w' =
              calls w
              ++ [upload_target (film w) i; dispatch_initialize (film w)]
              ++ per_pixel_calls (film w) i
              ++ per_screen_calls_with (film w) i (normalization_factor pc sc)
              ++ [dispatch_finalize (film w); download_target (film w) i; C_FinishQueue])
    as Hcalls.
  { intros i w u w' Hpc Hcount Hm. rewrite (merge_calls_made _ _ _ _ Hm).
    unfold per_screen_calls, per_screen_calls_with, per_screen_group, per_screen_scale,
      factor_of.
    rewrite Hpc, Hcount. reflexivity. }
  split; [|split; [|split]].
  - intros Hgt. unfold normalization_factor. by rewrite Hgt.
  - exact Hzero.
  - exact Hcalls.
  - intros s i w Hsc Hpc Hcount Hready.
    destruct (merge_ready_returns i w Hready) as [w' Hw'].
    exists w'. split; [exact Hw'|]. split.
    + unfold factor_of. rewrite Hpc, Hcount. by apply (Hzero s).
    + rewrite <- (Hzero s Hsc). by apply (Hcalls i w tt w').
Qed.

Lemma normalization_factor_guard_witness :
  normalization_factor 16 (F64.of_uint 32)
    = F64.to_float (F64.div (F64.of_uint 16) (F64.of_uint 32))
  /\ normalization_factor 16 (S754_zero false) = F32.one
  /\ calls (world_after (MergeSampleBuffersHW 0) built_world) =
       calls built_world
       ++ [upload_target (film built_world) 0; dispatch_initialize (film built_world)]
       ++ per_pixel_calls (film built_world) 0
       ++ per_screen_calls_with (film built_world) 0
            (normalization_factor 16 (F64.of_uint 32))
       ++ [dispatch_finalize (film built_world); download_target (film built_world) 0;
           C_FinishQueue].
Proof.
  split; [|split].
  - apply (proj1 (normalization_factor_guard 16 (F64.of_uint 32))). reflexivity.
  - apply (proj1 (proj2 (normalization_factor_guard 16 (S754_zero false))) false).
    reflexivity.
  - refine (proj1 (proj2 (proj2 (normalization_factor_guard 16 (F64.of_uint 32))))
              0 built_world tt _ _ _ _).
    + reflexivity.
    + reflexivity.
    + vm_compute. reflexivity.
Defined.

(** C4. A merge that returns has made, after the calls made before it,
    exactly these calls in this order: the upload of the target's
    image-pipeline channel, the dispatch of the initialize kernel, for each
    enabled group in index order the calls of the per-pixel-normalized
    loop, then those of the per-screen-normalized loop, the dispatch of
    the finalize kernel, the download into the target's channel and one
    queue drain. No call before the drain blocks, and every dispatch has
    index space [RoundUp(pixelCount, 256)] and workgroup size 256. *)
Theorem merge_call_order i w u w' :
  MergeSampleBuffersHW i w = OK (u, w') ->
  calls w' =
    calls w
    ++ [upload_target (film w) i; dispatch_initialize (film w)]
    ++ per_pixel_calls (film w) i
    ++ per_screen_calls (film w) i
    ++ [dispatch_finalize (film w); download_target (film w) i; C_FinishQueue]
  /\ merge_ready (film w) i
  /\ forallb quiet (merge_enqueues (film w) i) = true
  /\ (forall k g l, C_EnqueueKernel k g l ∈ merge_calls (film w) i ->
        g = RoundUp (pixelCount (film w)) 256 /\ l = 256%Z).
Proof.
  intros Hm. split; [|split; [|split]].
  - by apply merge_calls_made with u.
  - by apply merge_returns in Hm as [Hready _].
  - apply quiet_merge_enqueues.
  - intros k g l Hin. exact (dispatch_in_merge_calls _ _ _ _ _ Hin).
Qed.

Lemma built_world_merge_0 :
  MergeSampleBuffersHW 0 built_world
  = OK (tt, world_after (MergeSampleBuffersHW 0) built_world).
Proof. vm_compute. reflexivity. Qed.

Lemma merge_call_order_witness :
  calls (world_after (MergeSampleBuffersHW 0) built_world) =
    calls built_world
    ++ [upload_target (film built_world) 0; dispatch_initialize (film built_world)]
    ++ per_pixel_calls (film built_world) 0
    ++ per_screen_calls (film built_world) 0
    ++ [dispatch_finalize (film built_world); download_target (film built_world) 0;
        C_FinishQueue].
Proof.
  refine (proj1 (merge_call_order 0 built_world tt _ _)).
  vm_compute. reflexivity.
Defined.

(** C5. In a merge that returns, the calls of every enabled group are its
    channel upload, the binding of slots 4, 5 and 6 of the accumulate
    kernel to the scale of that group, and the dispatch, in this order
    ([per_pixel_calls], [per_screen_calls]); and every accumulate dispatch
    the device carried out was enqueued with slots 4, 5 and 6 holding the
    scale of its own group, whatever was bound before ([merge_work]). In
    the per-screen-normalized loop the scale of a group is its configured
    scale times the normalization factor. *)
Theorem merge_scale_rebinding i w u w' :
  MergeSampleBuffersHW i w = OK (u, w') ->
  (exists before after,
     calls w' = calls w ++ before
                ++ per_pixel_calls (film w) i ++ per_screen_calls (film w) i ++ after)
  /\ exists its,
       completed (device w') = completed (device w) ++ queue (device w) ++ its
       /\ merge_work (film w) i its.
Proof.
  intros Hm. split.
  - rewrite (merge_calls_made _ _ _ _ Hm). eauto.
  - destruct (merge_final _ _ _ _ Hm) as (_ & _ & -> & _).
    eexists. split; [reflexivity|apply merge_enqueues_work].
Qed.

Lemma merge_scale_rebinding_witness :
  exists its,
    completed (device (world_after (MergeSampleBuffersHW 0) built_world))
    = completed (device built_world) ++ queue (device built_world) ++ its
    /\ merge_work (film built_world) 0 its.
Proof.
  refine (proj2 (merge_scale_rebinding 0 built_world tt _ _)).
  vm_compute. reflexivity.
Defined.

(** ** The host after a merge *)

Lemma accumulate_work_no_read mb k r (size : nat -> nat) (src : nat -> HostRef)
    (s : nat -> Spectrum) gs work :
  Forall2 (fun g its => accumulate_work mb k r (size g) (src g) (s g) its) gs work ->
  forallb (fun it => negb (is_read it)) (concat work) = true.
Proof.
  induction 1 as [|g its gs work (a & -> & _) _ IH]; [reflexivity|].
  simpl. exact IH.
Qed.

Lemma drain_no_pending_read w :
  no_pending_read (device w) = true -> film (drain w) = film w.
Proof. intros H. unfold drain. simpl. by rewrite exec_items_no_read. Qed.

Lemma exec_items_then_read pr st pre b n dst :
  forallb (fun it => negb (is_read it)) pre = true ->
  (exec_items pr st (pre ++ [QRead b n dst])).1
  = host_store st.1 dst
      (copy_bytes n (default [] ((exec_items pr st pre).2 !! b)) (host_load st.1 dst)).
Proof.
  intros Hpre. rewrite exec_items_app.
  unfold exec_items at 1. simpl. by rewrite exec_items_no_read.
Qed.

(** The host after a merge is the host with the pending work carried
    out, and the target's image-pipeline channel overwritten. *)
Lemma merge_host_effect i w u w' :
  MergeSampleBuffersHW i w = OK (u, w') ->
  exists data, film w' = host_store (film (drain w)) (px_IMAGEPIPELINE i) data.
Proof.
  intros Hm. destruct (merge_final _ _ _ _ Hm) as (-> & _).
  destruct (merge_enqueues_work (film w) i (kernelArgs (device w)))
    as (a_init & pp & ps & a_fin & -> & Hpp & Hps).
  set (f := film w) in *.
  assert (forallb (fun it => negb (is_read it)) (concat pp) = true) as Hnpp.
  { unfold per_pixel_work in Hpp.
    destruct (HasChannel f RADIANCE_PER_PIXEL_NORMALIZED); [|by subst].
    eapply (accumulate_work_no_read _ _ _ _ px_PER_PIXEL (per_pixel_scale f i)), Hpp. }
  assert (forallb (fun it => negb (is_read it)) (concat ps) = true) as Hnps.
  { unfold per_screen_work in Hps.
    destruct (HasChannel f RADIANCE_PER_SCREEN_NORMALIZED); [|by subst].
    eapply (accumulate_work_no_read _ _ _ _ px_PER_SCREEN (per_screen_scale f i)), Hps. }
  rewrite exec_items_app.
  set (st0 := exec_items _ (f, _) (queue _)).
  change (film (drain w)) with st0.1.
  match goal with
  | |- context [exec_items ?pr st0 ([?i1; ?i2] ++ ?p ++ ?q ++ [?i3; QRead ?b ?n ?dst])] =>
      replace ([i1; i2] ++ p ++ q ++ [i3; QRead b n dst])
        with (([i1; i2] ++ p ++ q ++ [i3]) ++ [QRead b n dst])
        by (by rewrite <- !app_assoc)
  end.
  rewrite exec_items_then_read; [eauto|].
  rewrite !forallb_app, Hnpp, Hnps. reflexivity.
Qed.

(** C9. When a merge returns, the host channels are those left by the
    work that was pending when it was called, except for the pixel data
    of image-pipeline channel [i]: the alpha, object-id and radiance
    channels and every other image-pipeline channel are the same, and the
    image-pipeline vector has kept its length. With no read pending at
    the call, these are the channels the film had at the call. *)
Theorem merge_frame i w u w' :
  MergeSampleBuffersHW i w = OK (u, w') ->
  channel_ALPHA (film w') = channel_ALPHA (film (drain w))
  /\ channel_OBJECT_ID (film w') = channel_OBJECT_ID (film (drain w))
  /\ channel_RADIANCE_PER_PIXEL_NORMALIZEDs (film w')
     = channel_RADIANCE_PER_PIXEL_NORMALIZEDs (film (drain w))
  /\ channel_RADIANCE_PER_SCREEN_NORMALIZEDs (film w')
     = channel_RADIANCE_PER_SCREEN_NORMALIZEDs (film (drain w))
  /\ (forall j, j <> i ->
        channel_IMAGEPIPELINEs (film w') !! j = channel_IMAGEPIPELINEs (film (drain w)) !! j)
  /\ length (channel_IMAGEPIPELINEs (film w'))
     = length (channel_IMAGEPIPELINEs (film (drain w)))
  /\ (no_pending_read (device w) = true -> film (drain w) = film w).
Proof.
  intros Hm. destruct (merge_host_effect _ _ _ _ Hm) as [data ->].
  simpl. repeat split.
  - intros j Hj. by rewrite list_lookup_insert_ne.
  - apply length_insert.
  - apply drain_no_pending_read.
Qed.

Lemma merge_frame_witness :
  channel_ALPHA (film (world_after (MergeSampleBuffersHW 0) built_world))
  = channel_ALPHA (film (drain built_world)).
Proof.
  refine (proj1 (merge_frame 0 built_world tt _ _)).
  vm_compute. reflexivity.
Defined.

(** ** Targets without an image pipeline *)

Lemma target_pipeline_None f i :
  length (imagePipelines f) <= i -> target_pipeline f i = None.
Proof.
  intros H. unfold target_pipeline. rewrite bool_decide_eq_false_2 by lia. reflexivity.
Qed.

Lemma filter_all {A} (l : list A) : List.filter (fun _ => true) l = l.
Proof. induction l as [|x l IH]; simpl; [reflexivity|by rewrite IH]. Qed.

(** C3 (as amended). A merge for an index not below the number of image
    pipelines, when it returns, has treated every light group as enabled:
    both loops upload and dispatch for every group index in order. The
    dispatches of the per-pixel-normalized loop are bound to the unit
    scale (1, 1, 1); those of the per-screen-normalized loop to the unit
    scale times the normalization factor. *)
Theorem merge_neutral_target i w u w' :
  length (imagePipelines (film w)) <= i ->
  MergeSampleBuffersHW i w = OK (u, w') ->
  calls w' =
    calls w
    ++ [upload_target (film w) i; dispatch_initialize (film w)]
    ++ (if HasChannel (film w) RADIANCE_PER_PIXEL_NORMALIZED
        then flat_map
               (fun g =>
                  accumulate_calls (handle (hw_mergeBuffer (film w)))
                    (handle (mergeRADIANCE_PER_PIXEL_NORMALIZEDKernel (film w)))
                    (dispatch_size (film w))
                    (channel_size (channel_RADIANCE_PER_PIXEL_NORMALIZEDs (film w)) g)
                    (px_PER_PIXEL g)
                    (Spectrum_of F32.one))
               (seq 0 (radianceGroupCount (film w)))
        else [])
    ++ (if HasChannel (film w) RADIANCE_PER_SCREEN_NORMALIZED
        then flat_map
               (fun g =>
                  accumulate_calls (handle (hw_mergeBuffer (film w)))
                    (handle (mergeRADIANCE_PER_SCREEN_NORMALIZEDKernel (film w)))
                    (dispatch_size (film w))
                    (channel_size (channel_RADIANCE_PER_SCREEN_NORMALIZEDs (film w)) g)
                    (px_PER_SCREEN g)
                    (Spectrum_scale (factor_of (film w)) (Spectrum_of F32.one)))
               (seq 0 (radianceGroupCount (film w)))
        else [])
    ++ [dispatch_finalize (film w); download_target (film w) i; C_FinishQueue].
Proof.
  intros Hi Hm. rewrite (merge_calls_made _ _ _ _ Hm).
  unfold per_pixel_calls, per_screen_calls, enabled_groups, per_pixel_group,
    per_screen_group, per_pixel_scale, per_screen_scale.
  rewrite (target_pipeline_None _ _ Hi). simpl.
  change (is_enabled None) with (fun _ : nat => true).
  rewrite filter_all. reflexivity.
Qed.

Lemma built_world_merge_1 :
  MergeSampleBuffersHW 1 built_world
  = OK (tt, world_after (MergeSampleBuffersHW 1) built_world).
Proof. vm_compute. reflexivity. Qed.

Lemma merge_neutral_target_witness :
  exists cs,
    calls (world_after (MergeSampleBuffersHW 1) built_world) = calls built_world ++ cs.
Proof.
  eexists.
  refine (merge_neutral_target 1 built_world tt _ _ _).
  - vm_compute. lia.
  - vm_compute. reflexivity.
Defined.

(** C3 (as stated) fails: the second image-pipeline channel of the
    example film has no pipeline, and its merge binds the scale
    arguments of the per-screen-normalized dispatches to 16/32 = 0.5. *)
Lemma merge_neutral_not_unit :
  length (imagePipelines (film built_world)) <= 1
  /\ exists w' cs,
       MergeSampleBuffersHW 1 built_world = OK (tt, w')
       /\ calls w' = calls built_world ++ cs
       /\ ~ unit_scale_calls cs.
Proof.
  split; [vm_compute; lia|].
  exists (world_after (MergeSampleBuffersHW 1) built_world),
         (merge_calls (film built_world) 1).
  split; [exact built_world_merge_1|]. split.
  - vm_compute. reflexivity.
  - intros Hunit.
    specialize (Hunit 7 4 (S754_finite false 8388608 (-24))).
    assert (S754_finite false 8388608 (-24) = F32.one) as Hone; [|discriminate Hone].
    apply Hunit. apply list_elem_of_In. vm_compute. tauto.
Qed.

(** When no per-screen-normalized sample was counted the factor is 1.0
    and the second loop too binds the unit scale. *)
Lemma neutral_scale_without_samples f s :
  SampleCount_RADIANCE_PER_SCREEN_NORMALIZED f = S754_zero s ->
  Spectrum_scale (factor_of f) (Spectrum_of F32.one) = Spectrum_of F32.one.
Proof.
  intros H. unfold factor_of. rewrite H.
  rewrite normalization_factor_zero. reflexivity.
Qed.

(** ** Index precondition *)

(** C10. The merge indexes the host image-pipeline channel vector with
    the index it is given: an index outside that vector is a fault (an
    out-of-range access), so a merge that returns was given a valid
    position. The comparison with the number of image pipelines only
    selects the neutral target: an index not below it, when the merge has
    what it needs, returns with no pipeline consulted. *)
Theorem merge_index_precondition i w :
  (length (channel_IMAGEPIPELINEs (film w)) <= i ->
   MergeSampleBuffersHW i w = Err OutOfRange)
  /\ (forall u w', MergeSampleBuffersHW i w = OK (u, w') ->
        i < length (channel_IMAGEPIPELINEs (film w)))
  /\ (length (imagePipelines (film w)) <= i -> merge_ready (film w) i ->
        target_pipeline (film w) i = None
        /\ exists w', MergeSampleBuffersHW i w = OK (tt, w')).
Proof.
  split; [|split].
  - intros Hi. unfold MergeSampleBuffersHW, channel_at, mbind, M_bind, read, at_index.
    simpl. rewrite (lookup_ge_None_2 _ _ Hi). reflexivity.
  - intros u w' Hm. apply merge_returns in Hm as [(_ & Hch & _) _].
    by apply lookup_lt_is_Some.
  - intros Hi Hready. split; [by apply target_pipeline_None|].
    by apply merge_ready_returns.
Qed.

Lemma merge_index_precondition_witness :
  MergeSampleBuffersHW 2 built_world = Err OutOfRange
  /\ exists w', MergeSampleBuffersHW 1 built_world = OK (tt, w').
Proof.
  split.
  - apply (proj1 (merge_index_precondition 2 built_world)). vm_compute. lia.
  - refine (proj2 (proj2 (proj2 (merge_index_precondition 1 built_world)) _ _)).
    + vm_compute. lia.
    + apply (merge_returns _ _ _ _ built_world_merge_1).
Defined.

(** ** Allocation *)

Lemma set_hw_buffer_twice s b b' f :
  set_hw_buffer s b (set_hw_buffer s b' f) = set_hw_buffer s b f.
Proof. destruct s; reflexivity. Qed.

Lemma film_alloc_slot s src n w :
  film (alloc_slot s src n w) = set_hw_buffer s (Some (next_handle (device w))) (film w).
Proof.
  unfold alloc_slot, free_slot.
  destruct (hw_buffer s (film w)); simpl; [apply set_hw_buffer_twice|reflexivity].
Qed.

Lemma film_step_AllocBufferRO s src n w :
  film (step (C_AllocBufferRO s src n) w)
  = set_hw_buffer s (Some (next_handle (device w))) (film w).
Proof. apply film_alloc_slot. Qed.

Lemma film_step_AllocBufferRW s src n w :
  film (step (C_AllocBufferRW s src n) w)
  = set_hw_buffer s (Some (next_handle (device w))) (film w).
Proof. apply film_alloc_slot. Qed.

Lemma film_step_SetVerbose v w : film (step (C_SetVerbose v) w) = film w.
Proof. reflexivity. Qed.

(** Rebinding a buffer member leaves the rest of the film as it is. *)
Lemma set_hw_buffer_HasChannel s b f t : HasChannel (set_hw_buffer s b f) t = HasChannel f t.
Proof. reflexivity. Qed.
Lemma set_hw_buffer_ctx s b f : ctx (set_hw_buffer s b f) = ctx f.
Proof. reflexivity. Qed.
Lemma set_hw_buffer_hardwareDevice s b f :
  hardwareDevice (set_hw_buffer s b f) = hardwareDevice f.
Proof. reflexivity. Qed.
Lemma set_hw_buffer_IMAGEPIPELINEs s b f :
  channel_IMAGEPIPELINEs (set_hw_buffer s b f) = channel_IMAGEPIPELINEs f.
Proof. reflexivity. Qed.
Lemma set_hw_buffer_ALPHA s b f : channel_ALPHA (set_hw_buffer s b f) = channel_ALPHA f.
Proof. reflexivity. Qed.
Lemma set_hw_buffer_OBJECT_ID s b f :
  channel_OBJECT_ID (set_hw_buffer s b f) = channel_OBJECT_ID f.
Proof. reflexivity. Qed.
Lemma set_hw_buffer_PER_PIXEL s b f :
  channel_RADIANCE_PER_PIXEL_NORMALIZEDs (set_hw_buffer s b f)
  = channel_RADIANCE_PER_PIXEL_NORMALIZEDs f.
Proof. reflexivity. Qed.
Lemma set_hw_buffer_PER_SCREEN s b f :
  channel_RADIANCE_PER_SCREEN_NORMALIZEDs (set_hw_buffer s b f)
  = channel_RADIANCE_PER_SCREEN_NORMALIZEDs f.
Proof. reflexivity. Qed.

Create Rewrite HintDb film.
Hint Rewrite film_step_AllocBufferRO film_step_AllocBufferRW film_step_SetVerbose
  set_hw_buffer_HasChannel set_hw_buffer_ctx set_hw_buffer_hardwareDevice
  set_hw_buffer_IMAGEPIPELINEs set_hw_buffer_ALPHA set_hw_buffer_OBJECT_ID
  set_hw_buffer_PER_PIXEL set_hw_buffer_PER_SCREEN : film.

Lemma wp_group_channel_size t proj w (Q : nat -> World -> Prop) :
  Q (if HasChannel (film w) t then channel_size (proj (film w)) 0 else 0) w ->
  wp (group_channel_size t proj) w Q.
Proof.
  intros HQ. unfold group_channel_size. wp_step.
  destruct (HasChannel (film w) t); [|by apply wp_ret].
  wp_step. wp_step. unfold channel_size in HQ. by rewrite H in HQ.
Qed.

Ltac alloc_step :=
  first [ wp_step
        | apply wp_bind, wp_when; intros ?
        | apply wp_when; intros ?
        | apply wp_bind, wp_group_channel_size ];
  autorewrite with film in *.

Lemma allocate_run w :
  wp AllocateHWBuffers w (fun _ w' => w' = run (allocate_calls (film w)) w).
Proof.
  unfold AllocateHWBuffers.
  repeat alloc_step.
  all: unfold allocate_calls, mergeBufferSize, channel_size in *.
  all: repeat match goal with H : _ = _ |- _ => rewrite H; clear H end.
  all: reflexivity.
Qed.

Lemma allocate_returns w u w' :
  AllocateHWBuffers w = OK (u, w') -> w' = run (allocate_calls (film w)) w.
Proof. intros H. exact (wp_elim _ _ _ _ _ (allocate_run w) H). Qed.

Lemma film_free_slot s w : host_part (film (free_slot s w)) = host_part (film w).
Proof. unfold free_slot. destruct (hw_buffer s (film w)); reflexivity. Qed.

Lemma host_part_step c w :
  handle_only c = true -> host_part (film (step c w)) = host_part (film w).
Proof.
  destruct c; try discriminate; intros _; try reflexivity.
  - by rewrite film_step_AllocBufferRW.
  - by rewrite film_step_AllocBufferRO.
  - exact (film_free_slot s w).
Qed.

Lemma host_part_run cs w :
  forallb handle_only cs = true -> host_part (film (run cs w)) = host_part (film w).
Proof.
  revert w. induction cs as [|c cs IH]; intros w; simpl; [reflexivity|].
  intros [Hc Hcs]%andb_prop. rewrite IH by exact Hcs. by apply host_part_step.
Qed.


Lemma next_handle_free_slot s w :
  next_handle (device (free_slot s w)) = next_handle (device w).
Proof. unfold free_slot. destruct (hw_buffer s (film w)); reflexivity. Qed.

(** A fresh buffer holds what it was allocated with. *)
Lemma alloc_slot_bound s n w :
  let w' := alloc_slot s None n w in
  hw_buffer s (film w') = Some (next_handle (device w))
  /\ buffers (device w') !! next_handle (device w) = Some (repeat x00 n).
Proof.
  cbv zeta. rewrite film_alloc_slot. split.
  - destruct s; reflexivity.
  - unfold alloc_slot. cbn [device buffers set_buffers].
    rewrite next_handle_free_slot. apply lookup_insert_eq.
Qed.

Lemma allocate_merge_buffer w u w' :
  AllocateHWBuffers w = OK (u, w') ->
  (0 < mergeBufferSize (film w) ->
   exists b, hw_mergeBuffer (film w') = Some b
             /\ buffers (device w') !! b = Some (repeat x00 (mergeBufferSize (film w))))
  /\ (mergeBufferSize (film w) = 0 -> hw_mergeBuffer (film w') = hw_mergeBuffer (film w)).
Proof.
  intros ->%allocate_returns. unfold allocate_calls.
  rewrite !app_assoc, run_app.
  match goal with |- context [run (?p ++ ?m) w] => set (pre := p); set (mb := m) end.
  rewrite (run_app pre mb).
  assert (hw_mergeBuffer (film (run pre w)) = hw_mergeBuffer (film w)) as Hpre.
  { subst pre.
    destruct (HasChannel (film w) ALPHA), (HasChannel (film w) OBJECT_ID);
      cbn [run foldl app]; autorewrite with film; reflexivity. }
  split.
  - intros Hpos. subst mb. rewrite (proj2 (Nat.ltb_lt _ _) Hpos).
    destruct (alloc_slot_bound slot_mergeBuffer (mergeBufferSize (film w)) (run pre w))
      as [Hb Hc].
    eexists. split; [exact Hb|exact Hc].
  - intros Hz. subst mb. rewrite Hz. exact Hpre.
Qed.

Ltac in_calls :=
  repeat match goal with
         | H : _ ∈ _ |- _ => apply list_elem_of_In in H; simpl in H
         | H : exists _, _ |- _ => destruct H
         | H : _ \/ _ |- _ => destruct H
         | H : False |- _ => destruct H
         | H : @eq Call _ _ |- _ => inversion H; clear H; subst
         end.

(** C6. [AllocateHWBuffers], when it returns, has made the calls of
    [allocate_calls] and no other: the alpha buffer is allocated exactly
    when the film has the alpha channel, the object-id buffer exactly when
    it has that channel, and the merge buffer exactly when the larger of
    the two radiance channel sizes (0 for an absent channel) is positive,
    with that size and with no host data. The film then holds the handle
    of a merge buffer of that many bytes. *)
Theorem allocate_buffers w u w' :
  AllocateHWBuffers w = OK (u, w') ->
  calls w' = calls w ++ allocate_calls (film w)
  /\ ((exists src n, C_AllocBufferRO slot_ALPHA src n ∈ allocate_calls (film w))
      <-> HasChannel (film w) ALPHA = true)
  /\ ((exists src n, C_AllocBufferRO slot_OBJECT_ID src n ∈ allocate_calls (film w))
      <-> HasChannel (film w) OBJECT_ID = true)
  /\ ((exists src n, C_AllocBufferRO slot_mergeBuffer src n ∈ allocate_calls (film w))
      <-> 0 < mergeBufferSize (film w))
  /\ (forall src n, C_AllocBufferRO slot_mergeBuffer src n ∈ allocate_calls (film w) ->
        src = None /\ n = mergeBufferSize (film w))
  /\ (0 < mergeBufferSize (film w) ->
      exists b, hw_mergeBuffer (film w') = Some b
                /\ buffers (device w') !! b = Some (repeat x00 (mergeBufferSize (film w))))
  /\ (mergeBufferSize (film w) = 0 -> hw_mergeBuffer (film w') = hw_mergeBuffer (film w)).
Proof.
  intros Ha. destruct (allocate_merge_buffer _ _ _ Ha) as [Hpos Hzero].
  split; [rewrite (allocate_returns _ _ _ Ha); apply run_calls|].
  clear Ha. unfold allocate_calls.
  set (mbs := mergeBufferSize (film w)) in *.
  destruct (Nat.ltb_spec 0 mbs) as [Hm|Hm];
    destruct (HasChannel (film w) ALPHA), (HasChannel (film w) OBJECT_ID);
    (repeat split; try assumption; intros; in_calls;
       try reflexivity; try discriminate; try lia;
       try (eexists _, _; apply list_elem_of_In; simpl; tauto)).
Qed.

Lemma allocate_buffers_witness :
  calls (world_after AllocateHWBuffers created_world)
  = calls created_world ++ allocate_calls (film created_world).
Proof.
  refine (proj1 (allocate_buffers created_world tt _ _)).
  vm_compute. reflexivity.
Defined.

(** ** The merge buffer is large enough *)





(** The group uploads among the calls of a merge. *)
Lemma group_upload_in_merge_calls f i b blocking n src g :
  src = px_PER_PIXEL g \/ src = px_PER_SCREEN g ->
  C_EnqueueWriteBuffer b blocking n src ∈ merge_calls f i ->
  g ∈ enabled_groups f i /\ b = handle (hw_mergeBuffer f)
  /\ ((src = px_PER_PIXEL g /\ HasChannel f RADIANCE_PER_PIXEL_NORMALIZED = true
       /\ n = channel_size (channel_RADIANCE_PER_PIXEL_NORMALIZEDs f) g)
      \/ (src = px_PER_SCREEN g /\ HasChannel f RADIANCE_PER_SCREEN_NORMALIZED = true
          /\ n = channel_size (channel_RADIANCE_PER_SCREEN_NORMALIZEDs f) g)).
Proof.
  intros Hsrc. unfold merge_calls, merge_enqueues, per_pixel_calls, per_screen_calls.
  rewrite !elem_of_app. intros [[Hin|[Hin|[Hin|Hin]]]|Hin].
  - apply list_elem_of_In in Hin. simpl in Hin.
    unfold upload_target, dispatch_initialize in Hin.
    destruct Hsrc; subst; intuition congruence.
  - destruct (HasChannel f RADIANCE_PER_PIXEL_NORMALIZED); [|inversion Hin].
    apply list_elem_of_In, in_flat_map in Hin as (g' & Hg' & Hin).
    apply list_elem_of_In in Hg'. simpl in Hin.
    destruct Hin as [Heq|[Heq|[Heq|[Heq|[Heq|[]]]]]]; try discriminate.
    destruct Hsrc; simplify_eq; auto 10.
  - destruct (HasChannel f RADIANCE_PER_SCREEN_NORMALIZED); [|inversion Hin].
    apply list_elem_of_In, in_flat_map in Hin as (g' & Hg' & Hin).
    apply list_elem_of_In in Hg'. simpl in Hin.
    destruct Hin as [Heq|[Heq|[Heq|[Heq|[Heq|[]]]]]]; try discriminate.
    destruct Hsrc; simplify_eq; auto 10.
  - apply list_elem_of_In in Hin. simpl in Hin.
    unfold download_target, dispatch_finalize in Hin. intuition congruence.
  - apply list_elem_of_In in Hin. simpl in Hin. intuition congruence.
Qed.



(** ** Teardown *)

Lemma set_hw_buffer_same s f : set_hw_buffer s (hw_buffer s f) f = f.
Proof. destruct f, s; reflexivity. Qed.

Lemma film_step_FreeBuffer s w :
  film (step (C_FreeBuffer s) w) = set_hw_buffer s None (film w).
Proof.
  change (film (step (C_FreeBuffer s) w)) with (film (free_slot s w)).
  unfold free_slot. destruct (hw_buffer s (film w)) eqn:Hb; [reflexivity|].
  rewrite <- Hb. symmetry. apply set_hw_buffer_same.
Qed.

Lemma buffers_step_FreeBuffer s w :
  buffers (device (step (C_FreeBuffer s) w))
  = match hw_buffer s (film w) with
    | Some b => delete b (buffers (device w))
    | None => buffers (device w)
    end.
Proof.
  change (device (step (C_FreeBuffer s) w)) with (device (free_slot s w)).
  unfold free_slot. destruct (hw_buffer s (film w)); reflexivity.
Qed.

Lemma film_run_delete_kernel p w : film (run (delete_call C_DeleteKernel p) w) = film w.
Proof. destruct p; reflexivity. Qed.

Lemma buffers_run_delete_kernel p w :
  buffers (device (run (delete_call C_DeleteKernel p) w)) = buffers (device w).
Proof. destruct p; reflexivity. Qed.

Lemma returns_delete_kernel s w (Q : unit -> World -> Prop) :
  Q tt (run (delete_call C_DeleteKernel (hw_kernel s (film w))) w) ->
  returns (delete_kernel s) w Q.
Proof.
  intros HQ. unfold delete_kernel. apply returns_bind, returns_read.
  destruct (hw_kernel s (film w)); exact HQ.
Qed.

Lemma returns_delete_ctx w (Q : unit -> World -> Prop) :
  Q tt (run (delete_call C_DeleteContext (ctx (film w))) w) -> returns delete_ctx w Q.
Proof.
  intros HQ. unfold delete_ctx. apply returns_bind, returns_read.
  destruct (ctx (film w)); exact HQ.
Qed.

Lemma returns_delete_dataSet w (Q : unit -> World -> Prop) :
  Q tt (run (delete_call C_DeleteDataSet (dataSet (film w))) w) ->
  returns delete_dataSet w Q.
Proof.
  intros HQ. unfold delete_dataSet. apply returns_bind, returns_read.
  destruct (dataSet (film w)); exact HQ.
Qed.

Lemma set_hw_buffer_hw_kernel s b f ks : hw_kernel ks (set_hw_buffer s b f) = hw_kernel ks f.
Proof. destruct ks; reflexivity. Qed.
Lemma set_hw_buffer_dataSet s b f : dataSet (set_hw_buffer s b f) = dataSet f.
Proof. reflexivity. Qed.

Hint Rewrite film_step_FreeBuffer film_run_delete_kernel set_hw_buffer_hw_kernel
  set_hw_buffer_dataSet : film.

(** With a device, the teardown is the run of its calls. *)
Lemma teardown_run w hd :
  hardwareDevice (film w) = Some hd ->
  DeleteHWContext w = OK (tt, run (teardown_calls (film w)) w).
Proof.
  intros Hd.
  enough (returns DeleteHWContext w (fun _ w' => w' = run (teardown_calls (film w)) w))
    as Hr.
  { apply returns_elim in Hr as ([] & w' & -> & ->). reflexivity. }
  unfold DeleteHWContext. apply returns_bind, returns_read. rewrite Hd.
  apply returns_bind. apply returns_when; [intros _|discriminate].
  do 4 (apply returns_bind, returns_delete_kernel; autorewrite with film).
  do 3 (apply returns_bind, returns_on_device;
        [autorewrite with film; rewrite Hd; eauto|]).
  apply returns_on_device; [autorewrite with film; rewrite Hd; eauto|].
  apply returns_bind, returns_delete_ctx. autorewrite with film.
  apply returns_delete_dataSet.
  assert (forall p w0, film (run (delete_call C_DeleteContext p) w0) = film w0) as Hc
    by (intros [?|] ?; reflexivity).
  rewrite Hc. autorewrite with film.
  unfold teardown_calls. rewrite !run_app. reflexivity.
Qed.

Lemma handle_only_teardown_calls f : forallb handle_only (teardown_calls f) = true.
Proof.
  unfold teardown_calls.
  destruct (mergeInitializeKernel f), (mergeRADIANCE_PER_PIXEL_NORMALIZEDKernel f),
    (mergeRADIANCE_PER_SCREEN_NORMALIZEDKernel f), (mergeFinalizeKernel f),
    (ctx f), (dataSet f); reflexivity.
Qed.

Lemma run_delete_call_quiet {A} (c : A -> Call) p w :
  (forall a w0, film (step (c a) w0) = film w0 /\
                buffers (device (step (c a) w0)) = buffers (device w0)) ->
  film (run (delete_call c p) w) = film w
  /\ buffers (device (run (delete_call c p) w)) = buffers (device w).
Proof. intros H. destruct p as [a|]; [apply H|split; reflexivity]. Qed.

Lemma teardown_state w :
  let w' := run (teardown_calls (film w)) w in
  (forall s, hw_buffer s (film w') = None)
  /\ (forall s b, hw_buffer s (film w) = Some b -> buffers (device w') !! b = None).
Proof.
  cbv zeta. unfold teardown_calls. rewrite !run_app.
  set (w1 := run _ (run _ (run _ (run _ w)))).
  assert (film w1 = film w /\ buffers (device w1) = buffers (device w)) as [Hf1 Hb1].
  { subst w1. rewrite !film_run_delete_kernel, !buffers_run_delete_kernel. auto. }
  match goal with
  | |- context [run [?a; ?b; ?c; ?d] w1] =>
      change (run [a; b; c; d] w1) with (step d (step c (step b (step a w1))))
  end.
  set (w2 := step _ (step _ (step _ (step _ w1)))).
  set (w3 := run _ w2). set (w4 := run _ w3).
  assert (film w4 = film w2 /\ buffers (device w4) = buffers (device w2)) as [-> ->].
  { subst w4 w3.
    destruct (run_delete_call_quiet C_DeleteDataSet (dataSet (film w))
                (run (delete_call C_DeleteContext (ctx (film w))) w2)) as [-> ->];
      [by intros|].
    apply run_delete_call_quiet. by intros. }
  subst w2. split.
  - intros s. rewrite !film_step_FreeBuffer. destruct s; reflexivity.
  - intros s b Hb. rewrite !buffers_step_FreeBuffer, !film_step_FreeBuffer, Hf1, Hb1.
    cbn [hw_buffer set_hw_buffer with_handles hw_IMAGEPIPELINE hw_ALPHA hw_OBJECT_ID
         hw_mergeBuffer decide].
    destruct s; simpl in Hb;
      destruct (hw_IMAGEPIPELINE (film w)), (hw_ALPHA (film w)),
        (hw_OBJECT_ID (film w)), (hw_mergeBuffer (film w));
      try discriminate; simplify_eq; simpl;
      repeat (rewrite lookup_delete_eq || (apply lookup_delete_None; right));
      try reflexivity.
Qed.

Lemma teardown_without_device w :
  hardwareDevice (film w) = None ->
  DeleteHWContext w
  = OK (tt, run (delete_call C_DeleteContext (ctx (film w))
                 ++ delete_call C_DeleteDataSet (dataSet (film w))) w).
Proof.
  intros Hd.
  enough (returns DeleteHWContext w (fun _ w' =>
            w' = run (delete_call C_DeleteContext (ctx (film w))
                      ++ delete_call C_DeleteDataSet (dataSet (film w))) w)) as Hr.
  { apply returns_elim in Hr as ([] & w' & -> & ->). reflexivity. }
  unfold DeleteHWContext. apply returns_bind, returns_read. rewrite Hd.
  apply returns_bind. apply returns_when; [discriminate|intros _].
  apply returns_bind, returns_delete_ctx. apply returns_delete_dataSet.
  rewrite run_app. destruct (ctx (film w)); reflexivity.
Qed.

(** C8. On a film left as [SetUpHW] leaves it, [DeleteHWContext] returns
    and changes nothing: no call is made, no buffer freed, no kernel
    deleted, no host channel touched. More generally, without a device it
    makes no call but the deletion of a context and data set that are not
    null. With a device it returns having deleted the kernels that are
    not null, then freed the four buffer members, then deleted the
    context and the data set, in this order; the four buffer members are
    null afterwards, their buffers are no longer live, and the host
    channels are as they were. *)
Theorem delete_context_teardown w :
  (forall w0 u, SetUpHW w0 = OK (u, w) -> DeleteHWContext w = OK (tt, w))
  /\ (hardwareDevice (film w) = None ->
      exists w', DeleteHWContext w = OK (tt, w')
                 /\ film w' = film w
                 /\ buffers (device w') = buffers (device w)
                 /\ kernelArgs (device w') = kernelArgs (device w)
                 /\ calls w' = calls w ++ delete_call C_DeleteContext (ctx (film w))
                                       ++ delete_call C_DeleteDataSet (dataSet (film w)))
  /\ (forall hd, hardwareDevice (film w) = Some hd ->
      exists w', DeleteHWContext w = OK (tt, w')
                 /\ calls w' = calls w ++ teardown_calls (film w)
                 /\ (forall s, hw_buffer s (film w') = None)
                 /\ (forall s b, hw_buffer s (film w) = Some b ->
                       buffers (device w') !! b = None)
                 /\ host_part (film w') = host_part (film w)).
Proof.
  split; [|split].
  - intros w0 u [= Hw]. subst w. reflexivity.
  - intros Hd. eexists. split; [by apply teardown_without_device|].
    rewrite run_calls.
    destruct (ctx (film w)), (dataSet (film w)); repeat split; by rewrite ?app_nil_r.
  - intros hd Hd. eexists. split; [by apply (teardown_run w hd)|].
    destruct (teardown_state w) as [Hnull Hfreed].
    split; [apply run_calls|]. split; [exact Hnull|]. split; [exact Hfreed|].
    apply host_part_run, handle_only_teardown_calls.
Qed.

Lemma delete_context_teardown_witness :
  exists w', DeleteHWContext built_world = OK (tt, w')
             /\ calls w' = calls built_world ++ teardown_calls (film built_world).
Proof.
  destruct (proj2 (proj2 (delete_context_teardown built_world)) 1) as (w' & H1 & H2 & _).
  - vm_compute. reflexivity.
  - exists w'. split; assumption.
Defined.

(** ** The example film, call by call *)

(** The calls of the example film from set-up to compiled kernels. The
    native device is filtered out and the CUDA GPU, second of the hardware
    devices, is selected; the film has no object-id channel. *)
Example built_world_calls :
  calls built_world =
    [ C_NewContext 0; C_AddHardwareDevices 1; C_NewDataSet 1; C_Preprocess;
      C_SetDataSet; C_Start;
      C_SetVerbose true;
      C_AllocBufferRW slot_IMAGEPIPELINE (Some (px_IMAGEPIPELINE 0)) 6;
      C_AllocBufferRO slot_ALPHA (Some px_ALPHA) 4;
      C_AllocBufferRO slot_mergeBuffer None 8;
      C_SetVerbose false;
      C_SetVerbose true; C_CompileProgram;
      C_GetKernel slot_Initialize;
      C_SetKernelArg 5 0 (ArgUInt 4); C_SetKernelArg 5 1 (ArgUInt 4);
      C_SetKernelArg 5 2 (ArgBuffer (Some 2));
      C_GetKernel slot_PER_PIXEL;
      C_SetKernelArg 6 0 (ArgUInt 4); C_SetKernelArg 6 1 (ArgUInt 4);
      C_SetKernelArg 6 2 (ArgBuffer (Some 2)); C_SetKernelArg 6 3 (ArgBuffer (Some 4));
      C_GetKernel slot_PER_SCREEN;
      C_SetKernelArg 7 0 (ArgUInt 4); C_SetKernelArg 7 1 (ArgUInt 4);
      C_SetKernelArg 7 2 (ArgBuffer (Some 2)); C_SetKernelArg 7 3 (ArgBuffer (Some 4));
      C_GetKernel slot_Finalize;
      C_SetKernelArg 8 0 (ArgUInt 4); C_SetKernelArg 8 1 (ArgUInt 4);
      C_SetKernelArg 8 2 (ArgBuffer (Some 2));
      C_DeleteProgram; C_SetVerbose false ].
Proof. vm_compute. reflexivity. Qed.

(** The merge of the first target: its pipeline scales the first group by
    (2, 1, 1) and disables the second; 16 pixels over 32 samples give the
    factor 0.5. *)
Example merge_first_target_calls :
  let two := F64.to_float (F64.of_uint 2) in
  let half := F64.to_float (F64.div (F64.of_uint 1) (F64.of_uint 2)) in
  drop (length (calls built_world)) (calls (world_after (MergeSampleBuffersHW 0) built_world))
  = [ C_EnqueueWriteBuffer 2 false 6 (px_IMAGEPIPELINE 0);
      C_EnqueueKernel 5 256 256;
      C_EnqueueWriteBuffer 4 false 8 (px_PER_PIXEL 0);
      C_SetKernelArg 6 4 (ArgFloat two);
      C_SetKernelArg 6 5 (ArgFloat F32.one);
      C_SetKernelArg 6 6 (ArgFloat F32.one);
      C_EnqueueKernel 6 256 256;
      C_EnqueueWriteBuffer 4 false 6 (px_PER_SCREEN 0);
      C_SetKernelArg 7 4 (ArgFloat F32.one);
      C_SetKernelArg 7 5 (ArgFloat half);
      C_SetKernelArg 7 6 (ArgFloat half);
      C_EnqueueKernel 7 256 256;
      C_EnqueueKernel 8 256 256;
      C_EnqueueReadBuffer 2 false 6 (px_IMAGEPIPELINE 0);
      C_FinishQueue ].
Proof. vm_compute. reflexivity. Qed.

(** With the kernels of [identity_program] the merged channel is the
    uploaded one. *)
Example merge_first_target_host :
  film (world_after (MergeSampleBuffersHW 0) built_world) = film built_world.
Proof. vm_compute. reflexivity. Qed.

Example teardown_calls_built_world :
  drop (length (calls built_world)) (calls (world_after DeleteHWContext built_world))
  = [ C_DeleteKernel 5; C_DeleteKernel 6; C_DeleteKernel 7; C_DeleteKernel 8;
      C_FreeBuffer slot_IMAGEPIPELINE; C_FreeBuffer slot_ALPHA;
      C_FreeBuffer slot_OBJECT_ID; C_FreeBuffer slot_mergeBuffer;
      C_DeleteContext 0; C_DeleteDataSet 1 ].
Proof. vm_compute. reflexivity. Qed.

(** A film that was only set up cannot merge: the device is null. *)
Example merge_without_device : MergeSampleBuffersHW 0 setup_world = Err NullPointer.
Proof. vm_compute. reflexivity. Qed.

(** * Further properties of the film methods *)

(** ** The parts of the world a method leaves alone *)

Lemma outside_kernels_fields w1 w2 :
  outside_kernels w1 = outside_kernels w2 ->
  host_part (film w1) = host_part (film w2)
  /\ width (film w1) = width (film w2)
  /\ height (film w1) = height (film w2)
  /\ ctx (film w1) = ctx (film w2)
  /\ hardwareDevice (film w1) = hardwareDevice (film w2)
  /\ hw_IMAGEPIPELINE (film w1) = hw_IMAGEPIPELINE (film w2)
  /\ hw_mergeBuffer (film w1) = hw_mergeBuffer (film w2)
  /\ buffers (device w1) = buffers (device w2)
  /\ queue (device w1) = queue (device w2).
Proof.
  unfold outside_kernels, host_part. intros H. injection H. intros.
  repeat split; congruence.
Qed.

Lemma outside_buffers_fields w1 w2 :
  outside_buffers w1 = outside_buffers w2 ->
  host_part (film w1) = host_part (film w2)
  /\ ctx (film w1) = ctx (film w2)
  /\ hardwareDevice (film w1) = hardwareDevice (film w2)
  /\ (forall s, hw_kernel s (film w1) = hw_kernel s (film w2))
  /\ kernelArgs (device w1) = kernelArgs (device w2)
  /\ queue (device w1) = queue (device w2).
Proof.
  unfold outside_buffers, host_part. intros H. injection H. intros.
  repeat split; try congruence. intros []; simpl; congruence.
Qed.

Lemma host_part_fields f1 f2 :
  host_part f1 = host_part f2 ->
  (forall t, HasChannel f1 t = HasChannel f2 t)
  /\ radianceGroupCount f1 = radianceGroupCount f2
  /\ imagePipelines f1 = imagePipelines f2
  /\ channel_IMAGEPIPELINEs f1 = channel_IMAGEPIPELINEs f2
  /\ channel_RADIANCE_PER_PIXEL_NORMALIZEDs f1 = channel_RADIANCE_PER_PIXEL_NORMALIZEDs f2
  /\ channel_RADIANCE_PER_SCREEN_NORMALIZEDs f1 = channel_RADIANCE_PER_SCREEN_NORMALIZEDs f2.
Proof.
  unfold host_part. intros H. injection H. intros.
  repeat split; try congruence. intros t. unfold HasChannel.
  match goal with E : channels f1 = channels f2 |- _ => by rewrite E end.
Qed.

(** ** Context creation *)

Lemma select_device_unpinned (index : Z) (descs : list DeviceDescription) :
  (index < 0)%Z -> select_device true index descs = scanned_device descs.
Proof.
  intros Hneg. unfold select_device, scanned_device.
  destruct (Z.leb_spec 0 index) as [?|_]; [lia|]. cbn [andb].
  destruct descs as [|d descs]; [reflexivity|].
  change (0 <? length (d :: descs)) with true. cbv iota.
  rewrite scan_devices_spec.
  destruct (first_index is_cuda (d :: descs)); [reflexivity|].
  destruct (last_index is_opencl_gpu (d :: descs)); reflexivity.
Qed.

(** [CreateHWContext] always returns; what it leaves. *)
Lemma create_context_run available w :
  exists w',
    CreateHWContext available w = OK (tt, w')
    /\ calls w' = calls w ++ create_calls (next_handle (device w))
                    (select_device (hwEnable (film w)) (hwDeviceIndex (film w))
                       (Filter_ALL_HARDWARE available))
    /\ ctx (film w') = Some (next_handle (device w))
    /\ hardwareDevice (film w') =
         match select_device (hwEnable (film w)) (hwDeviceIndex (film w))
                 (Filter_ALL_HARDWARE available) with
         | Some i => Some i
         | None => hardwareDevice (film w)
         end
    /\ dataSet (film w') =
         match select_device (hwEnable (film w)) (hwDeviceIndex (film w))
                 (Filter_ALL_HARDWARE available) with
         | Some _ => Some (S (next_handle (device w)))
         | None => dataSet (film w)
         end
    /\ host_part (film w') = host_part (film w)
    /\ buffers (device w') = buffers (device w)
    /\ kernelArgs (device w') = kernelArgs (device w)
    /\ queue (device w') = queue (device w).
Proof.
  exists (world_after (CreateHWContext available) w).
  destruct w as [f d cs].
  unfold world_after, CreateHWContext, mbind, M_bind, fresh, perform, modify_film, read,
    on_ctx, deref, create_calls, step.
  cbn [film device calls set_ctx with_handles hwEnable hwDeviceIndex mret M_ret ctx effect].
  destruct (select_device _ _ _) as [i|]; simpl; repeat split;
    rewrite <- ?app_assoc; reflexivity.
Qed.

(** X2. [CreateHWContext] never faults and always makes a new context,
    with hardware merging enabled or not. A hardware device is added, a
    data set made, preprocessed and installed and the context started
    exactly when a descriptor was selected; otherwise the new context is
    the only call, and the device and data-set members are left as they
    were. No host channel and no device buffer is touched. *)
Theorem create_context_calls available w :
  exists w',
    CreateHWContext available w = OK (tt, w')
    /\ ctx (film w') = Some (next_handle (device w))
    /\ host_part (film w') = host_part (film w)
    /\ buffers (device w') = buffers (device w)
    /\ match select_device (hwEnable (film w)) (hwDeviceIndex (film w))
               (Filter_ALL_HARDWARE available) with
       | Some i =>
           calls w' = calls w ++
             [ C_NewContext (next_handle (device w)); C_AddHardwareDevices i;
               C_NewDataSet (S (next_handle (device w))); C_Preprocess; C_SetDataSet;
               C_Start ]
           /\ hardwareDevice (film w') = Some i
           /\ dataSet (film w') = Some (S (next_handle (device w)))
       | None =>
           calls w' = calls w ++ [C_NewContext (next_handle (device w))]
           /\ hardwareDevice (film w') = hardwareDevice (film w)
           /\ dataSet (film w') = dataSet (film w)
       end.
Proof.
  destruct (create_context_run available w)
    as (w' & Hc & Hcalls & Hctx & Hhd & Hds & Hhost & Hbuf & _).
  exists w'. repeat (split; [assumption|]).
  unfold create_calls in Hcalls.
  destruct (select_device _ _ _); auto.
Qed.

(** X1. With the members as [SetUpHW] leaves them, [CreateHWContext]
    returns and selects by scanning alone: the first CUDA GPU of the
    hardware descriptors or, without one, the last OpenCL GPU, or nothing;
    an index pinned before [SetUpHW] is forgotten. Its calls are the new
    context and, when a descriptor was selected, those that add the
    device and install the data set; the host side of the film is as it
    was. *)
Theorem setup_create_scans available w :
  exists w',
    (SetUpHW;; CreateHWContext available) w = OK (tt, w')
    /\ hardwareDevice (film w') = scanned_device (Filter_ALL_HARDWARE available)
    /\ calls w' = calls w ++ create_calls (next_handle (device w))
                              (scanned_device (Filter_ALL_HARDWARE available))
    /\ host_part (film w') = host_part (film w).
Proof.
  pose proof (select_device_unpinned (-1) (Filter_ALL_HARDWARE available) ltac:(lia)) as Hsel.
  destruct (create_context_run available
              (mkWorld (SetUpHW_film (film w)) (device w) (calls w)))
    as (w' & Hc & Hcalls & _ & Hhd & _ & Hhost & _).
  exists w'. split; [exact Hc|].
  cbn [film device calls SetUpHW_film hwEnable hwDeviceIndex hardwareDevice] in Hhd, Hcalls.
  rewrite Hsel in Hhd, Hcalls.
  split; [|split; [exact Hcalls|exact Hhost]].
  rewrite Hhd. by destruct (scanned_device _).
Qed.

(** X3. With hardware merging enabled and no usable pinned index (a
    negative one), the selection is never a device that is not a GPU: the
    selected descriptor is a CUDA GPU, or it is an OpenCL GPU and the list
    has no CUDA GPU. And a list that has a CUDA or OpenCL GPU always has
    one of its descriptors selected. *)
Theorem automatic_selection_is_gpu (index : Z) (descs : list DeviceDescription) :
  (index < 0)%Z ->
  (forall i, select_device true index descs = Some i ->
     exists d, descs !! i = Some d
       /\ (is_cuda d = true
           \/ (is_opencl_gpu d = true /\ forall d', d' ∈ descs -> is_cuda d' = false)))
  /\ (forall d, d ∈ descs -> is_cuda d = true \/ is_opencl_gpu d = true ->
        is_Some (select_device true index descs)).
Proof.
  intros Hneg. rewrite (select_device_unpinned _ _ Hneg). unfold scanned_device. split.
  - intros i Hi. destruct (first_index is_cuda descs) as [k|] eqn:Hc.
    + injection Hi as ->. apply first_index_Some in Hc as [(d & Hd & Hp) _]. eauto.
    + apply last_index_Some in Hi as [(d & Hd & Hp) _].
      exists d. split; [exact Hd|]. right. split; [exact Hp|].
      by apply first_index_None.
  - intros d Hd Hgpu. destruct (first_index is_cuda descs) as [k|] eqn:Hc; [eauto|].
    destruct Hgpu as [Hcu|Ho].
    + rewrite (proj1 (first_index_None _ _) Hc d Hd) in Hcu. discriminate.
    + destruct (last_index is_opencl_gpu descs) as [k|] eqn:Hl; [eauto|].
      exfalso.
      assert (forall l, last_index is_opencl_gpu l = None ->
                forall x, x ∈ l -> is_opencl_gpu x = false) as Hnone.
      { clear. induction l as [|y l IH]; intros Hl x Hx; [inversion Hx|].
        simpl in Hl. destruct (last_index is_opencl_gpu l); [discriminate|].
        destruct (is_opencl_gpu y) eqn:Hy; [discriminate|].
        inversion Hx; subst; [exact Hy|]. by apply IH. }
      rewrite (Hnone _ Hl d Hd) in Ho. discriminate.
Qed.

Lemma automatic_selection_is_gpu_witness :
  exists d, three_opencl_devices !! 2 = Some d
    /\ (is_cuda d = true
        \/ (is_opencl_gpu d = true
            /\ forall d', d' ∈ three_opencl_devices -> is_cuda d' = false)).
Proof.
  apply (proj1 (automatic_selection_is_gpu (-1) three_opencl_devices ltac:(lia)) 2).
  reflexivity.
Defined.

(** ** Allocation: what it needs and what it leaves alone *)

Lemma wp_group_channel_size_ready t proj w (Q : nat -> World -> Prop) :
  ((HasChannel (film w) t = true -> is_Some (proj (film w) !! 0)) ->
   Q (if HasChannel (film w) t then channel_size (proj (film w)) 0 else 0) w) ->
  wp (group_channel_size t proj) w Q.
Proof.
  intros HQ. unfold group_channel_size. wp_step.
  destruct (HasChannel (film w) t); [|apply wp_ret, HQ; discriminate].
  wp_step. wp_step. unfold channel_size in HQ. rewrite H in HQ. apply HQ. eauto.
Qed.

Ltac ready_step :=
  first [ apply wp_bind, wp_group_channel_size_ready; intros ?
        | wp_step
        | apply wp_bind, wp_when; intros ?
        | apply wp_when; intros ? ];
  autorewrite with film in *.

Lemma allocate_needs w :
  wp AllocateHWBuffers w (fun _ _ => allocate_ready (film w)).
Proof.
  unfold AllocateHWBuffers, allocate_ready.
  repeat ready_step.
  all: repeat split; eauto; try congruence; try discriminate.
Qed.

Lemma alloc_only_step c w :
  alloc_only c = true -> outside_buffers (step c w) = outside_buffers w.
Proof.
  destruct c; try discriminate; intros _; try reflexivity;
    unfold outside_buffers, step, effect, alloc_slot, free_slot;
    destruct (hw_buffer s (film w)); reflexivity.
Qed.

Lemma alloc_only_run cs w :
  forallb alloc_only cs = true -> outside_buffers (run cs w) = outside_buffers w.
Proof.
  revert w. induction cs as [|c cs IH]; intros w; simpl; [reflexivity|].
  intros [Hc Hcs]%andb_prop. rewrite IH by exact Hcs. by apply alloc_only_step.
Qed.

Lemma alloc_only_allocate_calls f : forallb alloc_only (allocate_calls f) = true.
Proof.
  unfold allocate_calls.
  destruct (HasChannel f ALPHA), (HasChannel f OBJECT_ID), (0 <? mergeBufferSize f)%nat;
    reflexivity.
Qed.

(** X4. [AllocateHWBuffers] needs its inputs. A call that returns found
    a context, a device, a first image-pipeline channel, and the channel
    behind each of the alpha, object-id and radiance kinds the film says
    it has (for the radiance kinds the first channel of the vector); with
    one of them missing the call faults, on a null or out-of-range access,
    and with a null context it faults on the null access of its first
    statement. *)
Theorem allocate_needs_inputs w :
  (forall u w', AllocateHWBuffers w = OK (u, w') -> allocate_ready (film w))
  /\ (~ allocate_ready (film w) -> exists e, AllocateHWBuffers w = Err e)
  /\ (ctx (film w) = None -> AllocateHWBuffers w = Err NullPointer).
Proof.
  assert (forall u w', AllocateHWBuffers w = OK (u, w') -> allocate_ready (film w)) as Hneeds.
  { intros u w' Hw'. exact (wp_elim _ _ _ _ _ (allocate_needs w) Hw'). }
  split; [exact Hneeds|]. split.
  - intros Hn. destruct (AllocateHWBuffers w) as [[u w']|e] eqn:Ha; [|eauto].
    destruct Hn. by apply (Hneeds u w').
  - intros Hctx. unfold AllocateHWBuffers, on_ctx, mbind, M_bind, read, deref.
    by rewrite Hctx.
Qed.

Lemma allocate_needs_inputs_witness :
  allocate_ready (film created_world)
  /\ AllocateHWBuffers setup_world = Err NullPointer.
Proof.
  split.
  - refine (proj1 (allocate_needs_inputs created_world) tt allocated_world _).
    vm_compute. reflexivity.
  - apply (proj2 (proj2 (allocate_needs_inputs setup_world))). reflexivity.
Defined.

Lemma allocate_binds_imagepipeline w u w' :
  AllocateHWBuffers w = OK (u, w') -> is_Some (hw_IMAGEPIPELINE (film w')).
Proof.
  intros Ha. rewrite (allocate_returns _ _ _ Ha).
  unfold allocate_calls. rewrite run_app.
  set (w1 := run [_; _] w).
  assert (is_Some (hw_IMAGEPIPELINE (film w1))) as Hs
    by (subst w1; cbn [run foldl]; autorewrite with film; simpl; eauto).
  revert Hs. generalize w1. clear.
  intros w1 Hs.
  destruct (HasChannel (film w) ALPHA), (HasChannel (film w) OBJECT_ID),
    (0 <? mergeBufferSize (film w))%nat;
    cbn [run foldl app]; autorewrite with film; simpl; exact Hs.
Qed.

(** X5. [AllocateHWBuffers], when it returns, has changed nothing but
    the four buffer members and the live buffers of the device: host
    channels, context, data set, device, kernel members, kernel bindings
    and the queue are as they were; and the image-pipeline buffer member
    is not null afterwards. *)
Theorem allocate_frame w u w' :
  AllocateHWBuffers w = OK (u, w') ->
  outside_buffers w' = outside_buffers w
  /\ is_Some (hw_IMAGEPIPELINE (film w')).
Proof.
  intros Ha. split.
  - rewrite (allocate_returns _ _ _ Ha). apply alloc_only_run, alloc_only_allocate_calls.
  - exact (allocate_binds_imagepipeline _ _ _ Ha).
Qed.

Lemma allocate_frame_witness : outside_buffers allocated_world = outside_buffers created_world.
Proof.
  refine (proj1 (allocate_frame created_world tt allocated_world _)).
  vm_compute. reflexivity.
Defined.

(** ** Kernel compilation *)

Lemma film_step_GetKernel s w :
  film (step (C_GetKernel s) w) = set_hw_kernel s (Some (next_handle (device w))) (film w).
Proof. reflexivity. Qed.

Lemma kernel_only_step c w :
  kernel_only c = true -> outside_kernels (step c w) = outside_kernels w.
Proof. destruct c; try discriminate; intros _; reflexivity. Qed.

Lemma kernel_only_run cs w :
  forallb kernel_only cs = true -> outside_kernels (run cs w) = outside_kernels w.
Proof.
  revert w. induction cs as [|c cs IH]; intros w; simpl; [reflexivity|].
  intros [Hc Hcs]%andb_prop. rewrite IH by exact Hcs. by apply kernel_only_step.
Qed.

Lemma kernel_only_compile_calls f k : forallb kernel_only (compile_calls f k) = true.
Proof. reflexivity. Qed.

(** Obtaining a kernel for a member and binding its invariant arguments. *)
Lemma compile_segment s m f w k :
  k = next_handle (device w) ->
  let w' := run (invariant_arg_calls f k m) (step (C_GetKernel s) w) in
  film w' = set_hw_kernel s (Some k) (film w)
  /\ next_handle (device w') = S k
  /\ args_of (device w') k = invariant_args f m
  /\ (forall k', k' <> k -> kernelArgs (device w') !! k' = kernelArgs (device w) !! k').
Proof.
  intros ->. destruct w as [f0 [pr b a q cp n] cs].
  destruct m; cbn; unfold args_of; cbn;
    rewrite ?lookup_insert_eq; cbn; rewrite ?lookup_insert_eq; cbn;
    (split; [reflexivity|]); (split; [reflexivity|]); (split; [reflexivity|]);
    intros k' Hk'; rewrite !lookup_insert_ne by congruence; reflexivity.
Qed.

Lemma invariant_arg_calls_set_hw_kernel s k f k' m :
  invariant_arg_calls (set_hw_kernel s k f) k' m = invariant_arg_calls f k' m.
Proof. reflexivity. Qed.

Lemma hw_kernel_set_hw_kernel s k f : hw_kernel s (set_hw_kernel s k f) = k.
Proof. by destruct s. Qed.

Lemma quiet_invariant_arg_calls f k m : forallb quiet (invariant_arg_calls f k m) = true.
Proof. by destruct m. Qed.

(** Binding the invariant arguments of a kernel is the run of its calls. *)
Lemma wp_bind_invariant_args s m w (Q : unit -> World -> Prop) :
  (forall k, hw_kernel s (film w) = Some k ->
     Q tt (run (invariant_arg_calls (film w) k m) w)) ->
  wp (bind_invariant_args s m) w Q.
Proof.
  intros HQ. unfold bind_invariant_args.
  do 8 wp_step.
  destruct m; simpl; [wp_step|apply wp_ret]; simplify_eq; by apply HQ.
Qed.

Lemma film_run_invariant_arg_calls f k m w :
  film (run (invariant_arg_calls f k m) w) = film w.
Proof. apply quiet_run_film, quiet_invariant_arg_calls. Qed.

Lemma next_handle_run_invariant_arg_calls f k m w :
  next_handle (device (run (invariant_arg_calls f k m) w)) = next_handle (device w).
Proof. by rewrite quiet_run by apply quiet_invariant_arg_calls. Qed.

Lemma next_handle_step_GetKernel s w :
  next_handle (device (step (C_GetKernel s) w)) = S (next_handle (device w)).
Proof. reflexivity. Qed.

Lemma film_step_log c w :
  c = C_CompileProgram \/ c = C_DeleteProgram -> film (step c w) = film w.
Proof. by intros [->| ->]. Qed.

Lemma next_handle_step_log c w :
  (exists v, c = C_SetVerbose v) \/ c = C_CompileProgram \/ c = C_DeleteProgram ->
  next_handle (device (step c w)) = next_handle (device w).
Proof. by intros [[v ->]|[->| ->]]. Qed.

Create Rewrite HintDb kern.
Hint Rewrite film_run_invariant_arg_calls next_handle_run_invariant_arg_calls
  film_step_GetKernel next_handle_step_GetKernel film_step_SetVerbose
  invariant_arg_calls_set_hw_kernel hw_kernel_set_hw_kernel : kern.
Hint Rewrite film_step_log next_handle_step_log using (eauto; fail) : kern.

Ltac compile_step :=
  lazymatch goal with
  | |- wp (mbind _ (bind_invariant_args _ _)) _ _ =>
      apply wp_bind, wp_bind_invariant_args; intros ? ?
  | |- wp _ _ _ => wp_step
  end.

Lemma run_cons c cs w : run (c :: cs) w = run cs (step c w).
Proof. reflexivity. Qed.

Lemma run_nil w : run [] w = w.
Proof. reflexivity. Qed.

(** A compilation that returns found a context and a device, and is the
    run of its calls; the kernels obtained are numbered from the next
    free handle. *)
Lemma compile_run w :
  wp CompileHWKernels w (fun _ w' =>
    (is_Some (ctx (film w)) /\ is_Some (hardwareDevice (film w)))
    /\ w' = run (compile_calls (film w)
                   (fun s => kernel_offset s + next_handle (device w))) w).
Proof.
  unfold CompileHWKernels.
  repeat compile_step.
  autorewrite with kern in *. simplify_eq.
  split; [eauto|].
  unfold compile_calls. cbn [flat_map kernel_offset takes_merge_buffer Nat.add app].
  repeat (rewrite run_cons || rewrite run_app || rewrite run_nil). reflexivity.
Qed.

(** The state compilation leaves. *)
Lemma compile_state w :
  let k s := kernel_offset s + next_handle (device w) in
  let w' := run (compile_calls (film w) k) w in
  (forall s, hw_kernel s (film w') = Some (k s))
  /\ (forall s, args_of (device w') (k s) = invariant_args (film w) (takes_merge_buffer s)).
Proof.
  cbv zeta. unfold compile_calls.
  cbn [flat_map kernel_offset takes_merge_buffer Nat.add app].
  repeat (rewrite run_cons || rewrite run_app || rewrite run_nil).
  set (f := film w). clearbody f.
  assert (next_handle (device w)
          = next_handle (device (step C_CompileProgram (step (C_SetVerbose true) w))))
    as Hn0 by reflexivity.
  revert Hn0.
  generalize (step C_CompileProgram (step (C_SetVerbose true) w)).
  generalize (next_handle (device w)).
  clear w. intros n w0 Hn0.
  destruct (compile_segment slot_Initialize false f w0 n Hn0) as (Hf1 & Hn1 & Ha1 & _).
  revert Hf1 Hn1 Ha1.
  generalize (run (invariant_arg_calls f n false) (step (C_GetKernel slot_Initialize) w0)).
  intros w1 Hf1 Hn1 Ha1.
  destruct (compile_segment slot_PER_PIXEL true f w1 (S n) (eq_sym Hn1))
    as (Hf2 & Hn2 & Ha2 & Ho2).
  revert Hf2 Hn2 Ha2 Ho2.
  generalize (run (invariant_arg_calls f (S n) true) (step (C_GetKernel slot_PER_PIXEL) w1)).
  intros w2 Hf2 Hn2 Ha2 Ho2.
  destruct (compile_segment slot_PER_SCREEN true f w2 (S (S n)) (eq_sym Hn2))
    as (Hf3 & Hn3 & Ha3 & Ho3).
  revert Hf3 Hn3 Ha3 Ho3.
  generalize (run (invariant_arg_calls f (S (S n)) true)
                (step (C_GetKernel slot_PER_SCREEN) w2)).
  intros w3 Hf3 Hn3 Ha3 Ho3.
  destruct (compile_segment slot_Finalize false f w3 (S (S (S n))) (eq_sym Hn3))
    as (Hf4 & Hn4 & Ha4 & Ho4).
  revert Hf4 Hn4 Ha4 Ho4.
  generalize (run (invariant_arg_calls f (S (S (S n))) false)
                (step (C_GetKernel slot_Finalize) w3)).
  intros w4 Hf4 Hn4 Ha4 Ho4.
  assert (forall x, film (step (C_SetVerbose false) (step C_DeleteProgram x)) = film x
                    /\ kernelArgs (device (step (C_SetVerbose false) (step C_DeleteProgram x)))
                       = kernelArgs (device x)) as Hlog by (intros; split; reflexivity).
  destruct (Hlog w4) as [Hf5 Ha5]. clear Hlog.
  split.
  - intros s. rewrite Hf5, Hf4, Hf3, Hf2, Hf1. destruct s; reflexivity.
  - intros s. unfold args_of in *. rewrite Ha5.
    destruct s; cbn [kernel_offset takes_merge_buffer Nat.add].
    + rewrite Ho4, Ho3, Ho2 by lia. exact Ha1.
    + rewrite Ho4, Ho3 by lia. exact Ha2.
    + rewrite Ho4 by lia. exact Ha3.
    + exact Ha4.
Qed.

Lemma compile_returns_run w u w' :
  CompileHWKernels w = OK (u, w') ->
  w' = run (compile_calls (film w) (fun s => kernel_offset s + next_handle (device w))) w.
Proof. intros Hw'. by destruct (wp_elim _ _ _ _ _ (compile_run w) Hw') as [_ ->]. Qed.

Lemma allocate_outside_buffers w u w' :
  AllocateHWBuffers w = OK (u, w') -> outside_buffers w' = outside_buffers w.
Proof.
  intros Ha. rewrite (allocate_returns _ _ _ Ha).
  apply alloc_only_run, alloc_only_allocate_calls.
Qed.

Lemma bind_returns {A B} (m : M A) (k : A -> M B) w b w' :
  (m ≫= k) w = OK (b, w') -> exists a w1, m w = OK (a, w1) /\ k a w1 = OK (b, w').
Proof.
  unfold mbind, M_bind. destruct (m w) as [[a w1]|]; [eauto|discriminate].
Qed.

(** X6. A [CompileHWKernels] that returns found a context and a device;
    with either null it faults. It has made these calls in this order: log
    on, compile the program, and for the initialize, per-pixel, per-screen
    and finalize kernel in turn the kernel obtained and its arguments 0
    (width), 1 (height), 2 (image-pipeline buffer) and, for the two
    accumulate kernels only, 3 (merge buffer) bound; then the program
    deleted and log off. All four kernel members are non-null afterwards;
    nothing of the film but the kernel members and nothing of the device
    but the bindings has changed. *)
Theorem compile_kernels_calls w u w' :
  CompileHWKernels w = OK (u, w') ->
  is_Some (ctx (film w))
  /\ is_Some (hardwareDevice (film w))
  /\ (forall s, is_Some (hw_kernel s (film w')))
  /\ calls w' = calls w
                ++ compile_calls (film w) (fun s => handle (hw_kernel s (film w')))
  /\ outside_kernels w' = outside_kernels w.
Proof.
  intros Hw'. destruct (wp_elim _ _ _ _ _ (compile_run w) Hw') as [[Hc Hd] E].
  destruct (compile_state w) as [Hk _]. cbv zeta in Hk. rewrite <- E in Hk.
  split; [exact Hc|]. split; [exact Hd|]. split; [|split].
  - intros s. rewrite Hk. eauto.
  - assert (calls w' = calls w ++ compile_calls (film w)
              (fun s => kernel_offset s + next_handle (device w))) as ->
      by (rewrite E; apply run_calls).
    unfold compile_calls. cbn [flat_map]. rewrite !Hk. reflexivity.
  - rewrite E. apply kernel_only_run, kernel_only_compile_calls.
Qed.

Lemma compile_kernels_calls_witness :
  calls built_world
  = calls allocated_world
    ++ compile_calls (film allocated_world) (fun s => handle (hw_kernel s (film built_world))).
Proof.
  refine (proj1 (proj2 (proj2 (proj2
            (compile_kernels_calls allocated_world tt built_world _))))).
  vm_compute. reflexivity.
Defined.

Lemma invariant_args_unbound f m idx : 4 <= idx -> invariant_args f m !! idx = None.
Proof.
  intros Hidx. unfold invariant_args.
  destruct m; rewrite !lookup_insert_ne by lia; apply lookup_empty.
Qed.

Lemma invariant_args_outside w1 w2 m :
  outside_kernels w1 = outside_kernels w2 ->
  invariant_args (film w1) m = invariant_args (film w2) m.
Proof.
  intros (_ & Hw & Hh & _ & _ & Hip & Hmb & _)%outside_kernels_fields.
  unfold invariant_args. by rewrite Hw, Hh, Hip, Hmb.
Qed.

(** X7. After [CompileHWKernels] every kernel member holds a kernel
    whose bindings are exactly its invariant arguments, with the buffer
    members the film has: slots 0, 1, 2 for the initialize and finalize
    kernels, slots 0 to 3 for the accumulate kernels. No slot from 4 on is
    bound: the scale arguments are left to the merge. *)
Theorem compile_kernels_bindings w u w' :
  CompileHWKernels w = OK (u, w') ->
  forall s, exists k,
    hw_kernel s (film w') = Some k
    /\ args_of (device w') k = invariant_args (film w') (takes_merge_buffer s)
    /\ (forall idx, 4 <= idx -> args_of (device w') k !! idx = None).
Proof.
  intros Hc s. pose proof (compile_returns_run _ _ _ Hc) as E.
  destruct (compile_state w) as [Hk Ha]. cbv zeta in Hk, Ha. rewrite <- E in Hk, Ha.
  exists (kernel_offset s + next_handle (device w)).
  split; [apply Hk|].
  rewrite Ha. split.
  - symmetry. apply invariant_args_outside. rewrite E.
    apply kernel_only_run, kernel_only_compile_calls.
  - intros idx. apply invariant_args_unbound.
Qed.

Lemma compile_kernels_bindings_witness :
  exists k,
    hw_kernel slot_PER_PIXEL (film built_world) = Some k
    /\ args_of (device built_world) k = invariant_args (film built_world) true
    /\ (forall idx, 4 <= idx -> args_of (device built_world) k !! idx = None).
Proof.
  refine (compile_kernels_bindings (world_after AllocateHWBuffers created_world) tt
            built_world _ slot_PER_PIXEL).
  vm_compute. reflexivity.
Defined.

(** X8. The buffer arguments are bound by value at compile time. When
    [CompileHWKernels] runs before [AllocateHWBuffers] on a film whose
    image-pipeline buffer member is still null, both return, the member is
    not null afterwards, and slot 2 of every kernel is still bound to the
    null buffer. *)
Theorem compile_before_allocate w u w' :
  hw_IMAGEPIPELINE (film w) = None ->
  (CompileHWKernels;; AllocateHWBuffers) w = OK (u, w') ->
  is_Some (hw_IMAGEPIPELINE (film w'))
  /\ forall s, exists k,
       hw_kernel s (film w') = Some k
       /\ args_of (device w') k !! 2 = Some (ArgBuffer None).
Proof.
  intros Hnull (u1 & w1 & Hc & Ha)%bind_returns.
  split.
  - exact (allocate_binds_imagepipeline _ _ _ Ha).
  - intros s. pose proof (compile_returns_run _ _ _ Hc) as E.
    destruct (compile_state w) as [Hk Hargs]. cbv zeta in Hk, Hargs.
    rewrite <- E in Hk, Hargs.
    destruct (outside_buffers_fields _ _ (allocate_outside_buffers _ _ _ Ha))
      as (_ & _ & _ & Hks & Hka & _).
    exists (kernel_offset s + next_handle (device w)). split.
    + rewrite Hks. apply Hk.
    + unfold args_of in *. rewrite Hka, Hargs. unfold invariant_args. rewrite Hnull.
      destruct (takes_merge_buffer s); rewrite ?lookup_insert_ne by lia;
        apply lookup_insert_eq.
Qed.

Lemma compile_before_allocate_witness :
  is_Some (hw_IMAGEPIPELINE
             (film (world_after (CompileHWKernels;; AllocateHWBuffers) created_world))).
Proof.
  refine (proj1 (compile_before_allocate created_world tt _ _ _)).
  - reflexivity.
  - vm_compute. reflexivity.
Defined.

Ltac film_now :=
  cbv beta in *; rewrite ?film_quiet_step in * by reflexivity;
  autorewrite with film in *; eauto.

Ltac total_step :=
  lazymatch goal with
  | |- returns (mbind _ _) _ _ => apply returns_bind; total_step
  | |- returns (mret _) _ _ => apply returns_ret
  | |- returns (read _) _ _ => apply returns_read
  | |- returns (channel_at _ _) _ _ => apply returns_channel_at; [film_now|intros ? ?]
  | |- returns (deref _) _ _ => apply returns_deref; [film_now|intros ? ?]
  | |- returns (on_device _) _ _ => apply returns_on_device; [film_now|]
  | |- returns (on_ctx _) _ _ => apply returns_on_ctx; [film_now|]
  | |- returns (when _ _) _ _ => apply returns_when; [intros ?|intros ?]
  | |- returns (EnqueueWriteBuffer _ _ _ _) _ _ =>
      apply returns_EnqueueWriteBuffer; [film_now|film_now|intros ? ?]
  | |- returns (EnqueueReadBuffer _ _ _ _) _ _ =>
      apply returns_EnqueueReadBuffer; [film_now|film_now|intros ? ?]
  | |- returns (perform _) _ _ => apply returns_perform
  end;
  cbv beta in *; rewrite ?film_quiet_step in * by reflexivity;
  autorewrite with film in *.


(** ** Transfers *)

Lemma write_all_run w :
  wp WriteAllHWBuffers w (fun _ w' =>
    write_all_ready (film w) /\ w' = run (write_all_calls (film w)) w).
Proof.
  unfold WriteAllHWBuffers, write_all_ready, write_all_calls.
  wp_step. apply wp_bind, wp_when; intros Ha; rewrite Ha.
  - do 5 wp_step. apply wp_when; intros Ho; rewrite Ho.
    + do 4 wp_step. simplify_eq.
      repeat match goal with H : _ = Some _ |- _ => rewrite H end.
      simpl. eauto 10.
    + simplify_eq.
      repeat match goal with H : _ = Some _ |- _ => rewrite H end.
      simpl. split; [|reflexivity]. split; [eauto|discriminate].
  - wp_step. apply wp_when; intros Ho; rewrite Ho.
    + do 4 wp_step. simplify_eq.
      repeat match goal with H : _ = Some _ |- _ => rewrite H end.
      simpl. split; [|reflexivity]. split; [discriminate|eauto].
    + split; [|reflexivity]. split; discriminate.
Qed.

Lemma write_all_total w :
  write_all_ready (film w) -> returns WriteAllHWBuffers w (fun _ _ => True).
Proof.
  intros [Ha Ho]. unfold WriteAllHWBuffers.
  total_step. apply returns_bind, returns_when.
  - intros Hhas. destruct (Ha Hhas) as (Hch & Hb & Hd).
    do 5 total_step.
    apply returns_when; [|auto]. intros Hhas'. destruct (Ho Hhas') as (Hch' & Hb' & Hd').
    do 4 total_step. exact I.
  - intros _. total_step.
    apply returns_when; [|auto]. intros Hhas'. destruct (Ho Hhas') as (Hch' & Hb' & Hd').
    do 4 total_step. exact I.
Qed.

Lemma quiet_write_all_calls f : forallb quiet (write_all_calls f) = true.
Proof.
  unfold write_all_calls. by destruct (HasChannel f ALPHA), (HasChannel f OBJECT_ID).
Qed.

Lemma write_all_buffers_spec w w' :
  WriteAllHWBuffers w = OK (tt, w')
  <-> write_all_ready (film w) /\ w' = run (write_all_calls (film w)) w.
Proof.
  split.
  - intros Hw. exact (wp_elim _ _ _ _ _ (write_all_run w) Hw).
  - intros [Hready ->].
    destruct (returns_elim _ _ _ (returns_wp _ _ _ _ (write_all_total w Hready)
                                   (write_all_run w)))
      as ([] & w' & Hw & _ & _ & ->).
    exact Hw.
Qed.

(** X9. [WriteAllHWBuffers] returns exactly when, for each of the alpha
    and object-id kinds the film has, the channel, its buffer member and
    the device are not null. It then has enqueued, without blocking, the
    upload of the alpha channel if the film has it, followed by that of
    the object-id channel if the film has it, each with the byte size of
    its channel, and has done nothing else: the host channels, the
    contents of the device buffers and the bindings are as they were. *)
Theorem write_all_buffers w w' :
  WriteAllHWBuffers w = OK (tt, w')
  <-> write_all_ready (film w)
      /\ w' = mkWorld (film w)
                (set_queue
                   (queue (device w) ++ items_of (kernelArgs (device w))
                                          (write_all_calls (film w)))
                   (completed (device w)) (device w))
                (calls w ++ write_all_calls (film w)).
Proof.
  rewrite write_all_buffers_spec.
  rewrite quiet_run by apply quiet_write_all_calls. unfold set_queue.
  assert (foldl rebind (kernelArgs (device w)) (write_all_calls (film w))
          = kernelArgs (device w)) as ->; [|reflexivity].
  unfold write_all_calls.
  by destruct (HasChannel (film w) ALPHA), (HasChannel (film w) OBJECT_ID).
Qed.

Lemma write_all_buffers_witness : write_all_ready (film built_world).
Proof.
  refine (proj1 (proj1 (write_all_buffers built_world
                          (world_after WriteAllHWBuffers built_world)) _)).
  vm_compute. reflexivity.
Defined.

Lemma transfer_write_run i w :
  wp (WriteHWBuffer_IMAGEPIPELINE i) w (fun _ w' =>
    transfer_ready (film w) i /\ w' = step (upload_target (film w) i) w).
Proof.
  unfold WriteHWBuffer_IMAGEPIPELINE, transfer_ready, upload_target, channel_size.
  do 3 wp_step. simplify_eq.
  repeat match goal with H : _ = Some _ |- _ => rewrite H end. simpl. eauto 10.
Qed.

Lemma transfer_read_run i w :
  wp (ReadHWBuffer_IMAGEPIPELINE i) w (fun _ w' =>
    transfer_ready (film w) i /\ w' = step (download_target (film w) i) w).
Proof.
  unfold ReadHWBuffer_IMAGEPIPELINE, transfer_ready, download_target, channel_size.
  do 3 wp_step. simplify_eq.
  repeat match goal with H : _ = Some _ |- _ => rewrite H end. simpl. eauto 10.
Qed.

Lemma transfer_write_total i w :
  transfer_ready (film w) i -> returns (WriteHWBuffer_IMAGEPIPELINE i) w (fun _ _ => True).
Proof.
  intros (Hch & Hb & Hd). unfold WriteHWBuffer_IMAGEPIPELINE. do 3 total_step. exact I.
Qed.

Lemma transfer_read_total i w :
  transfer_ready (film w) i -> returns (ReadHWBuffer_IMAGEPIPELINE i) w (fun _ _ => True).
Proof.
  intros (Hch & Hb & Hd). unfold ReadHWBuffer_IMAGEPIPELINE. do 3 total_step. exact I.
Qed.

Lemma transfer_write_spec i w w' :
  WriteHWBuffer_IMAGEPIPELINE i w = OK (tt, w')
  <-> transfer_ready (film w) i /\ w' = step (upload_target (film w) i) w.
Proof.
  split.
  - intros Hw. exact (wp_elim _ _ _ _ _ (transfer_write_run i w) Hw).
  - intros [Hready ->].
    destruct (returns_elim _ _ _ (returns_wp _ _ _ _ (transfer_write_total i w Hready)
                                   (transfer_write_run i w)))
      as ([] & w' & Hw & _ & _ & ->).
    exact Hw.
Qed.

Lemma transfer_read_spec i w w' :
  ReadHWBuffer_IMAGEPIPELINE i w = OK (tt, w')
  <-> transfer_ready (film w) i /\ w' = step (download_target (film w) i) w.
Proof.
  split.
  - intros Hw. exact (wp_elim _ _ _ _ _ (transfer_read_run i w) Hw).
  - intros [Hready ->].
    destruct (returns_elim _ _ _ (returns_wp _ _ _ _ (transfer_read_total i w Hready)
                                   (transfer_read_run i w)))
      as ([] & w' & Hw & _ & _ & ->).
    exact Hw.
Qed.

(** X11. [WriteHWBuffer_IMAGEPIPELINE] and [ReadHWBuffer_IMAGEPIPELINE]
    fault with an out-of-range access for an index outside the
    image-pipeline channel vector. Each returns exactly when the channel
    exists and the buffer member and the device are not null, and has
    then made exactly one call: a non-blocking transfer of the channel's
    byte size between channel [i] and the image-pipeline buffer. A write
    leaves the host as it is. A read leaves every member of the film and
    every host channel other than image-pipeline channel [i] as it is;
    when channel [i] receives the data is up to the queue. *)
Theorem transfer_imagepipeline i w :
  (length (channel_IMAGEPIPELINEs (film w)) <= i ->
   WriteHWBuffer_IMAGEPIPELINE i w = Err OutOfRange
   /\ ReadHWBuffer_IMAGEPIPELINE i w = Err OutOfRange)
  /\ ((exists w', WriteHWBuffer_IMAGEPIPELINE i w = OK (tt, w'))
      <-> transfer_ready (film w) i)
  /\ ((exists w', ReadHWBuffer_IMAGEPIPELINE i w = OK (tt, w'))
      <-> transfer_ready (film w) i)
  /\ (forall u w', WriteHWBuffer_IMAGEPIPELINE i w = OK (u, w') ->
        calls w' = calls w ++ [upload_target (film w) i]
        /\ film w' = film w)
  /\ (forall u w', ReadHWBuffer_IMAGEPIPELINE i w = OK (u, w') ->
        calls w' = calls w ++ [download_target (film w) i]
        /\ members (film w') = members (film w)
        /\ channel_ALPHA (film w') = channel_ALPHA (film w)
        /\ channel_OBJECT_ID (film w') = channel_OBJECT_ID (film w)
        /\ channel_RADIANCE_PER_PIXEL_NORMALIZEDs (film w')
           = channel_RADIANCE_PER_PIXEL_NORMALIZEDs (film w)
        /\ channel_RADIANCE_PER_SCREEN_NORMALIZEDs (film w')
           = channel_RADIANCE_PER_SCREEN_NORMALIZEDs (film w)
        /\ (forall j, j <> i ->
              channel_IMAGEPIPELINEs (film w') !! j = channel_IMAGEPIPELINEs (film w) !! j)).
Proof.
  split; [|split; [|split; [|split]]].
  - intros Hi.
    unfold WriteHWBuffer_IMAGEPIPELINE, ReadHWBuffer_IMAGEPIPELINE, channel_at, mbind,
      M_bind, read, at_index.
    simpl. rewrite (lookup_ge_None_2 _ _ Hi). split; reflexivity.
  - split.
    + intros [w' Hw']. by apply transfer_write_spec in Hw' as [Hready _].
    + intros Hready. eexists. apply transfer_write_spec. eauto.
  - split.
    + intros [w' Hw']. by apply transfer_read_spec in Hw' as [Hready _].
    + intros Hready. eexists. apply transfer_read_spec. eauto.
  - intros [] w' [_ ->]%transfer_write_spec.
    rewrite step_calls, film_quiet_step by reflexivity. auto.
  - intros [] w' [_ ->]%transfer_read_spec.
    rewrite step_calls, film_quiet_step by reflexivity. repeat split; reflexivity.
Qed.

Lemma transfer_imagepipeline_witness :
  WriteHWBuffer_IMAGEPIPELINE 2 built_world = Err OutOfRange
  /\ ReadHWBuffer_IMAGEPIPELINE 2 built_world = Err OutOfRange.
Proof. apply (proj1 (transfer_imagepipeline 2 built_world)). vm_compute. lia. Defined.

Lemma copy_bytes_all (src dst : list byte) :
  length src <= length dst ->
  copy_bytes (length src) src dst = src ++ drop (length src) dst.
Proof.
  intros Hlen. unfold copy_bytes. cbv zeta.
  rewrite Nat.min_l by exact Hlen. by rewrite firstn_all.
Qed.

Lemma copy_bytes_prefix (src rest dst : list byte) :
  length dst = length src -> copy_bytes (length src) (src ++ rest) dst = src.
Proof.
  intros Hlen. unfold copy_bytes. cbv zeta.
  rewrite Hlen, Nat.min_id, take_app_length, <- Hlen, drop_all. apply app_nil_r.
Qed.

Lemma finish_queue_returns w hd :
  hardwareDevice (film w) = Some hd -> FinishQueue w = OK (tt, step C_FinishQueue w).
Proof.
  intros Hd. unfold FinishQueue, on_device, mbind, M_bind, read, deref. by rewrite Hd.
Qed.

(** X10. With no work pending, a live image-pipeline buffer that is at
    least as large as channel [i], and channels [i] and [j] of one byte
    size, [WriteHWBuffer_IMAGEPIPELINE i] followed by
    [ReadHWBuffer_IMAGEPIPELINE j] and a queue drain returns and leaves
    host channel [j] with the pixels of channel [i]; the buffer has kept
    its size and starts with these pixels, the queue is empty and every
    other host channel is as before. *)
Theorem write_then_read_copies i j w hd b content chi chj :
  hardwareDevice (film w) = Some hd ->
  hw_IMAGEPIPELINE (film w) = Some b ->
  buffers (device w) !! b = Some content ->
  GetSize chi <= length content ->
  queue (device w) = [] ->
  channel_IMAGEPIPELINEs (film w) !! i = Some chi ->
  channel_IMAGEPIPELINEs (film w) !! j = Some chj ->
  GetSize chj = GetSize chi ->
  exists w',
    (WriteHWBuffer_IMAGEPIPELINE i;; ReadHWBuffer_IMAGEPIPELINE j;; FinishQueue) w
    = OK (tt, w')
    /\ film w' = host_store (film w) (px_IMAGEPIPELINE j) (GetPixels chi)
    /\ channel_IMAGEPIPELINEs (film w') = <[j := chi]> (channel_IMAGEPIPELINEs (film w))
    /\ buffers (device w') = <[b := GetPixels chi ++ drop (GetSize chi) content]>
                               (buffers (device w))
    /\ length (GetPixels chi ++ drop (GetSize chi) content) = length content
    /\ queue (device w') = [].
Proof.
  intros Hd Hb Hc Hfit Hq Hi Hj Hsz.
  set (f := film w).
  set (w1 := step (upload_target f i) w).
  set (w2 := step (download_target f j) w1).
  assert (film w1 = f) as Hf1 by (subst w1; by rewrite film_quiet_step).
  assert (film w2 = f) as Hf2 by (subst w2; by rewrite film_quiet_step).
  assert (WriteHWBuffer_IMAGEPIPELINE i w = OK (tt, w1)) as H1.
  { apply transfer_write_spec. split; [|reflexivity]. unfold transfer_ready. eauto. }
  assert (ReadHWBuffer_IMAGEPIPELINE j w1 = OK (tt, w2)) as H2.
  { apply transfer_read_spec. rewrite Hf1. split; [|reflexivity].
    unfold transfer_ready. fold f. eauto. }
  assert (FinishQueue w2 = OK (tt, step C_FinishQueue w2)) as H3.
  { apply (finish_queue_returns w2 hd). by rewrite Hf2. }
  exists (step C_FinishQueue w2).
  split; [unfold mbind, M_bind; by rewrite H1, H2, H3|].
  subst w2 w1.
  rewrite (quiet_step (upload_target f i)), (quiet_step (download_target f j))
    by reflexivity.
  unfold step, effect, drain, upload_target, download_target, channel_size.
  fold f. cbn [film device calls queue program buffers item_of app exec_items foldl exec_item
               fst snd host_load completed kernelArgs next_handle rebind].
  subst f. rewrite Hq, Hb, Hi, Hj. cbn [handle default from_option app foldl exec_item fst snd
    host_load].
  change (id b) with b. rewrite Hi, Hj. cbn [from_option].
  unfold GetSize in *. rewrite Hsz.
  assert (alter (copy_bytes (length (GetPixels chi)) (GetPixels chi)) b (buffers (device w))
          = <[b := GetPixels chi ++ drop (length (GetPixels chi)) content]>
              (buffers (device w)))
    as ->.
  { apply map_eq. intros k. destruct (decide (k = b)) as [->|Hk].
    - rewrite lookup_alter_eq, lookup_insert_eq, Hc. simpl. f_equal.
      by apply copy_bytes_all.
    - by rewrite lookup_alter_ne, lookup_insert_ne. }
  rewrite lookup_insert_eq. cbn [default].
  unfold id. rewrite (copy_bytes_prefix _ _ _ Hsz).
  repeat split.
  - simpl. by destruct chi.
  - rewrite length_app, length_drop. lia.
Qed.

Lemma write_then_read_copies_witness :
  exists w',
    (WriteHWBuffer_IMAGEPIPELINE 0;; ReadHWBuffer_IMAGEPIPELINE 1;; FinishQueue) built_world
    = OK (tt, w')
    /\ channel_IMAGEPIPELINEs (film w') = [filled 6 x01; filled 6 x01].
Proof.
  destruct (write_then_read_copies 0 1 built_world 1 2 (repeat x01 6)
              (filled 6 x01) (filled 6 x02))
    as (w' & Hw' & _ & Hch & _);
    try solve [vm_compute; reflexivity | vm_compute; lia].
  exists w'. split; [exact Hw'|]. rewrite Hch. vm_compute. reflexivity.
Defined.

(** ** More on the merge *)

(** X12. [MergeSampleBuffersHW i] returns exactly when the film has what
    the merge reads ([merge_ready]): device, channel [i], image-pipeline
    buffer, initialize and finalize kernels and, for each radiance kind of
    the film and each light group, the scale entry of the target and, if
    the group is enabled, its channel, the merge buffer and the accumulate
    kernel. In particular a target whose pipeline has fewer scale entries
    than the film has light groups makes the merge fault as soon as the
    film has a radiance channel kind. *)
Theorem merge_returns_iff i w :
  ((exists w', MergeSampleBuffersHW i w = OK (tt, w')) <-> merge_ready (film w) i)
  /\ (forall p g,
        target_pipeline (film w) i = Some p ->
        g < radianceGroupCount (film w) ->
        length (radianceChannelScales p) <= g ->
        HasChannel (film w) RADIANCE_PER_PIXEL_NORMALIZED = true
        \/ HasChannel (film w) RADIANCE_PER_SCREEN_NORMALIZED = true ->
        exists e, MergeSampleBuffersHW i w = Err e).
Proof.
  split.
  - split.
    + intros [w' Hw']. by apply merge_returns in Hw' as [Hready _].
    + apply merge_ready_returns.
  - intros p g Hp Hg Hlen Hhas.
    destruct (MergeSampleBuffersHW i w) as [[u w']|e] eqn:Hm; [|eauto].
    exfalso. apply merge_returns in Hm as [(_ & _ & _ & _ & _ & Hpp & Hps) _].
    assert (is_Some (radianceChannelScales p !! g)) as Hs.
    { destruct Hhas as [Hhas|Hhas].
      - destruct (Hpp Hhas g Hg) as [Hs _]. by apply Hs.
      - destruct (Hps Hhas g Hg) as [Hs _]. by apply Hs. }
    apply lookup_lt_is_Some in Hs. lia.
Qed.

Lemma merge_returns_iff_witness : merge_ready (film built_world) 0.
Proof.
  apply (proj1 (proj1 (merge_returns_iff 0 built_world))).
  exists (world_after (MergeSampleBuffersHW 0) built_world). exact built_world_merge_0.
Defined.

Lemma set_arg_in_merge_calls f i k idx v :
  C_SetKernelArg k idx v ∈ merge_calls f i ->
  scale_slot f k idx /\ exists x, v = ArgFloat x.
Proof.
  unfold merge_calls, merge_enqueues, per_pixel_calls, per_screen_calls, scale_slot.
  rewrite !elem_of_app. intros [[Hin|[Hin|[Hin|Hin]]]|Hin].
  - apply list_elem_of_In in Hin. simpl in Hin.
    unfold upload_target, dispatch_initialize in Hin. intuition congruence.
  - destruct (HasChannel f RADIANCE_PER_PIXEL_NORMALIZED); [|inversion Hin].
    apply list_elem_of_In, in_flat_map in Hin as (g' & _ & Hin). simpl in Hin.
    destruct Hin as [Heq|[Heq|[Heq|[Heq|[Heq|[]]]]]]; try discriminate;
      injection Heq as <- <- <-; (split; [split; [by left|lia]|eauto]).
  - destruct (HasChannel f RADIANCE_PER_SCREEN_NORMALIZED); [|inversion Hin].
    apply list_elem_of_In, in_flat_map in Hin as (g' & _ & Hin). simpl in Hin.
    destruct Hin as [Heq|[Heq|[Heq|[Heq|[Heq|[]]]]]]; try discriminate;
      injection Heq as <- <- <-; (split; [split; [by right|lia]|eauto]).
  - apply list_elem_of_In in Hin. simpl in Hin.
    unfold download_target, dispatch_finalize in Hin. intuition congruence.
  - apply list_elem_of_In in Hin. simpl in Hin. intuition congruence.
Qed.

(** Bindings that no call of [cs] sets are as before. *)
Lemma foldl_rebind_other (P : Kernel -> nat -> Prop) cs a k idx :
  (forall k' idx' v, C_SetKernelArg k' idx' v ∈ cs -> P k' idx') ->
  ~ P k idx ->
  default ∅ (foldl rebind a cs !! k) !! idx = default ∅ (a !! k) !! idx.
Proof.
  intros Hcs Hn. revert a. induction cs as [|c cs IH]; intros a; [reflexivity|].
  cbn [foldl]. rewrite IH by (intros; eapply Hcs; right; eassumption).
  destruct c; try reflexivity. cbn [rebind].
  assert (P k0 index) as HP by (eapply Hcs; left).
  destruct (decide (k = k0)) as [->|Hk].
  - rewrite lookup_insert_eq. cbn [default].
    apply lookup_insert_ne. intros ->. contradiction.
  - by rewrite lookup_insert_ne.
Qed.

Lemma members_host_store f r px : members (host_store f r px) = members f.
Proof. by destruct r. Qed.

Lemma members_exec_items pr st q : members (exec_items pr st q).1 = members st.1.
Proof.
  revert st. induction q as [|it q IH]; intros st; [reflexivity|].
  unfold exec_items in *. cbn [foldl]. rewrite IH.
  destruct it; cbn [exec_item fst]; [reflexivity|apply members_host_store|reflexivity].
Qed.

Lemma kernelArgs_FinishQueue w :
  kernelArgs (device (run [C_FinishQueue] w)) = kernelArgs (device w).
Proof. reflexivity. Qed.

(** X14. A merge that returns leaves every member of the film other
    than the host channels as it was and leaves the queue empty. The only
    arguments it binds are float values in slots 4, 5 and 6 of the two
    accumulate kernels: every other binding of every kernel, in
    particular the arguments bound at compile time, is as before. *)
Theorem merge_keeps_bindings i w u w' :
  MergeSampleBuffersHW i w = OK (u, w') ->
  members (film w') = members (film w)
  /\ queue (device w') = []
  /\ (forall k idx v, C_SetKernelArg k idx v ∈ merge_calls (film w) i ->
        scale_slot (film w) k idx /\ exists x, v = ArgFloat x)
  /\ (forall k idx, ~ scale_slot (film w) k idx ->
        args_of (device w') k !! idx = args_of (device w) k !! idx).
Proof.
  intros Hm. destruct (merge_final _ _ _ _ Hm) as (Hf & _ & _ & Hq).
  split; [|split; [exact Hq|split]].
  - rewrite Hf. apply members_exec_items.
  - apply set_arg_in_merge_calls.
  - intros k idx Hn. apply merge_returns in Hm as [_ ->].
    unfold merge_calls. rewrite run_app.
    rewrite (quiet_run (merge_enqueues (film w) i)) by apply quiet_merge_enqueues.
    unfold args_of. rewrite kernelArgs_FinishQueue. cbn [device kernelArgs].
    apply (foldl_rebind_other (scale_slot (film w))); [|exact Hn].
    intros k' idx' v Hin. apply (set_arg_in_merge_calls (film w) i k' idx' v).
    unfold merge_calls. apply elem_of_app. left. exact Hin.
Qed.

Lemma merge_keeps_bindings_witness :
  members (film (world_after (MergeSampleBuffersHW 0) built_world))
  = members (film built_world).
Proof. exact (proj1 (merge_keeps_bindings 0 built_world tt _ built_world_merge_0)). Defined.

Lemma dispatches_flat_map {A} (gc : A -> list Call) (l : list A) :
  (forall g, length (List.filter is_dispatch (gc g)) = 1) ->
  length (List.filter is_dispatch (flat_map gc l)) = length l.
Proof.
  intros H. induction l as [|g l IH]; [reflexivity|].
  cbn [flat_map]. rewrite List.filter_app, length_app, H, IH. reflexivity.
Qed.

(** X13. A merge that returns never uploads the channel of a light
    group its target disables, for either radiance kind; and the number of
    kernel dispatches it makes is two (initialize and finalize) plus one
    per enabled group and radiance kind of the film. *)
Theorem merge_skips_disabled i w u w' :
  MergeSampleBuffersHW i w = OK (u, w') ->
  calls w' = calls w ++ merge_calls (film w) i
  /\ (forall g b blocking n src,
        is_enabled (target_pipeline (film w) i) g = false ->
        src = px_PER_PIXEL g \/ src = px_PER_SCREEN g ->
        C_EnqueueWriteBuffer b blocking n src ∉ merge_calls (film w) i)
  /\ length (List.filter is_dispatch (merge_calls (film w) i))
     = 2 + radiance_kinds (film w) * length (enabled_groups (film w) i).
Proof.
  intros Hm. split; [|split].
  - apply merge_returns in Hm as [_ ->]. apply run_calls.
  - intros g b blocking n src Hdis Hsrc Hin.
    destruct (group_upload_in_merge_calls _ _ _ _ _ _ _ Hsrc Hin) as (Hg & _).
    unfold enabled_groups in Hg. apply list_elem_of_In, filter_In in Hg as [_ Hg].
    congruence.
  - unfold merge_calls, merge_enqueues, per_pixel_calls, per_screen_calls, radiance_kinds.
    rewrite !List.filter_app, !length_app.
    destruct (HasChannel (film w) RADIANCE_PER_PIXEL_NORMALIZED),
      (HasChannel (film w) RADIANCE_PER_SCREEN_NORMALIZED);
      rewrite ?dispatches_flat_map by reflexivity; simpl; lia.
Qed.

Lemma merge_skips_disabled_witness :
  length (List.filter is_dispatch (merge_calls (film built_world) 0))
  = 2 + radiance_kinds (film built_world) * length (enabled_groups (film built_world) 0).
Proof.
  exact (proj2 (proj2 (merge_skips_disabled 0 built_world tt _ built_world_merge_0))).
Defined.

(** X15. On a film with neither radiance channel kind the merge needs
    no merge buffer and no accumulate kernel: with the target channel, the
    image-pipeline buffer, the device and the initialize and finalize
    kernels at hand it returns, having made exactly five calls: upload,
    initialize dispatch, finalize dispatch, download, queue drain. *)
Theorem merge_without_radiance i w :
  HasChannel (film w) RADIANCE_PER_PIXEL_NORMALIZED = false ->
  HasChannel (film w) RADIANCE_PER_SCREEN_NORMALIZED = false ->
  transfer_ready (film w) i ->
  is_Some (mergeInitializeKernel (film w)) ->
  is_Some (mergeFinalizeKernel (film w)) ->
  exists w',
    MergeSampleBuffersHW i w = OK (tt, w')
    /\ calls w' = calls w
                  ++ [ upload_target (film w) i; dispatch_initialize (film w);
                       dispatch_finalize (film w); download_target (film w) i;
                       C_FinishQueue ].
Proof.
  intros Hpp Hps (Hch & Hb & Hd) Hki Hkf.
  assert (merge_ready (film w) i) as Hready.
  { unfold merge_ready. rewrite Hpp, Hps. repeat split; try assumption; discriminate. }
  destruct (merge_ready_returns i w Hready) as [w' Hw'].
  exists w'. split; [exact Hw'|].
  rewrite (merge_calls_made _ _ _ _ Hw').
  unfold per_pixel_calls, per_screen_calls. rewrite Hpp, Hps. reflexivity.
Qed.

Lemma merge_without_radiance_witness :
  exists w',
    MergeSampleBuffersHW 1 plain_world = OK (tt, w')
    /\ calls w' = calls plain_world
                  ++ [ upload_target (film plain_world) 1;
                       dispatch_initialize (film plain_world);
                       dispatch_finalize (film plain_world);
                       download_target (film plain_world) 1; C_FinishQueue ].
Proof.
  apply (merge_without_radiance 1 plain_world).
  - reflexivity.
  - reflexivity.
  - repeat split; vm_compute; eauto.
  - vm_compute. eauto.
  - vm_compute. eauto.
Defined.

(** ** What the teardown leaves dangling *)

Lemma owner_members_step c w :
  handle_only c = true -> owner_members (film (step c w)) = owner_members (film w).
Proof.
  destruct c; try discriminate; intros _; try reflexivity.
  - by rewrite film_step_AllocBufferRW.
  - by rewrite film_step_AllocBufferRO.
  - by rewrite film_step_FreeBuffer.
Qed.

Lemma owner_members_run cs w :
  forallb handle_only cs = true -> owner_members (film (run cs w)) = owner_members (film w).
Proof.
  revert w. induction cs as [|c cs IH]; intros w; simpl; [reflexivity|].
  intros [Hc Hcs]%andb_prop. rewrite IH by exact Hcs. by apply owner_members_step.
Qed.

(** A kernel deleted by one of the calls [cs], or gone before them, is
    gone after them. *)
Lemma kernel_gone_step c w k :
  handle_only c = true ->
  c = C_DeleteKernel k \/ kernelArgs (device w) !! k = None ->
  kernelArgs (device (step c w)) !! k = None.
Proof.
  destruct c; try discriminate; intros _ [Hc|Hk]; try discriminate.
  - exact Hk.
  - change (kernelArgs (device (alloc_slot s src size w)) !! k = None).
    unfold alloc_slot, free_slot. by destruct (hw_buffer s (film w)).
  - change (kernelArgs (device (alloc_slot s src size w)) !! k = None).
    unfold alloc_slot, free_slot. by destruct (hw_buffer s (film w)).
  - change (kernelArgs (device (free_slot s w)) !! k = None).
    unfold free_slot. by destruct (hw_buffer s (film w)).
  - injection Hc as ->. apply lookup_delete_eq.
  - apply lookup_delete_None. by right.
  - exact Hk.
  - exact Hk.
Qed.

Lemma kernel_gone_run cs w k :
  forallb handle_only cs = true ->
  C_DeleteKernel k ∈ cs \/ kernelArgs (device w) !! k = None ->
  kernelArgs (device (run cs w)) !! k = None.
Proof.
  revert w. induction cs as [|c cs IH]; intros w Hcs Hk.
  - destruct Hk as [Hin|Hk]; [inversion Hin|exact Hk].
  - simpl in Hcs. apply andb_prop in Hcs as [Hc Hcs].
    rewrite run_cons. apply IH; [exact Hcs|].
    destruct Hk as [Hin|Hk].
    + apply elem_of_cons in Hin as [Heq|Hin].
      * right. apply kernel_gone_step; [exact Hc|]. left. by symmetry.
      * left. exact Hin.
    + right. apply kernel_gone_step; [exact Hc|by right].
Qed.

Lemma delete_kernel_in_teardown_calls f s k :
  hw_kernel s f = Some k -> C_DeleteKernel k ∈ teardown_calls f.
Proof.
  intros Hk. unfold teardown_calls.
  destruct s; simpl in Hk; rewrite Hk; rewrite !elem_of_app; simpl;
    rewrite !elem_of_cons; auto 10.
Qed.

Lemma delete_owner_in_teardown_calls f :
  (forall c, ctx f = Some c -> C_DeleteContext c ∈ teardown_calls f)
  /\ (forall ds, dataSet f = Some ds -> C_DeleteDataSet ds ∈ teardown_calls f).
Proof.
  unfold teardown_calls. split; intros x Hx; rewrite Hx, !elem_of_app; simpl;
    rewrite !elem_of_cons; auto 10.
Qed.

(** X16. [DeleteHWContext] does not reset the context, data-set, device
    and kernel members. After a call on a film with a device the four
    buffer members are null, but every kernel member, the context member
    and the data-set member still hold the handle they held, although the
    deletion of that very kernel, context or data set has been called; the
    device no longer knows the kernels. The members other than the buffers
    are left dangling. *)
Theorem delete_context_dangling w hd :
  hardwareDevice (film w) = Some hd ->
  exists w',
    DeleteHWContext w = OK (tt, w')
    /\ owner_members (film w') = owner_members (film w)
    /\ (forall s, hw_buffer s (film w') = None)
    /\ (forall s k, hw_kernel s (film w) = Some k ->
          hw_kernel s (film w') = Some k
          /\ C_DeleteKernel k ∈ calls w'
          /\ kernelArgs (device w') !! k = None)
    /\ (forall c, ctx (film w) = Some c ->
          ctx (film w') = Some c /\ C_DeleteContext c ∈ calls w')
    /\ (forall ds, dataSet (film w) = Some ds ->
          dataSet (film w') = Some ds /\ C_DeleteDataSet ds ∈ calls w').
Proof.
  intros Hd.
  exists (run (teardown_calls (film w)) w).
  split; [exact (teardown_run w hd Hd)|].
  pose proof (owner_members_run _ w (handle_only_teardown_calls (film w))) as Hown.
  split; [exact Hown|].
  destruct (teardown_state w) as [Hnull _].
  split; [exact Hnull|].
  unfold owner_members in Hown. injection Hown as Hctx Hds _ Hki Hkpp Hkps Hkf.
  destruct (delete_owner_in_teardown_calls (film w)) as [Hdc Hdd].
  split; [|split].
  - intros s k Hk. split; [|split].
    + rewrite <- Hk. destruct s; simpl; assumption.
    + rewrite run_calls. apply elem_of_app. right.
      by apply (delete_kernel_in_teardown_calls _ s).
    + apply kernel_gone_run; [apply handle_only_teardown_calls|]. left.
      by apply (delete_kernel_in_teardown_calls _ s).
  - intros c Hc. split; [congruence|].
    rewrite run_calls. apply elem_of_app. right. by apply Hdc.
  - intros ds Hx. split; [congruence|].
    rewrite run_calls. apply elem_of_app. right. by apply Hdd.
Qed.

Lemma delete_context_dangling_witness :
  exists w',
    DeleteHWContext built_world = OK (tt, w')
    /\ owner_members (film w') = owner_members (film built_world)
    /\ (forall s, hw_buffer s (film w') = None).
Proof.
  destruct (delete_context_dangling built_world 1 eq_refl) as (w' & H1 & H2 & H3 & _).
  exists w'. auto.
Defined.

(** ** Without a device *)

(** X17. No method checks the device member. On a film without a device
    [AllocateHWBuffers], [CompileHWKernels], [MergeSampleBuffersHW] and
    the two image-pipeline transfers fault for every argument, and so
    does [WriteAllHWBuffers] when the film has an alpha or object-id
    channel; on a film with neither, [WriteAllHWBuffers] returns and does
    nothing. *)
Theorem methods_need_device w :
  hardwareDevice (film w) = None ->
  (exists e, AllocateHWBuffers w = Err e)
  /\ (exists e, CompileHWKernels w = Err e)
  /\ (forall i, exists e, MergeSampleBuffersHW i w = Err e)
  /\ (forall i, exists e, WriteHWBuffer_IMAGEPIPELINE i w = Err e)
  /\ (forall i, exists e, ReadHWBuffer_IMAGEPIPELINE i w = Err e)
  /\ (HasChannel (film w) ALPHA = true \/ HasChannel (film w) OBJECT_ID = true ->
      exists e, WriteAllHWBuffers w = Err e)
  /\ (HasChannel (film w) ALPHA = false -> HasChannel (film w) OBJECT_ID = false ->
      WriteAllHWBuffers w = OK (tt, w)).
Proof.
  intros Hd.
  assert (forall (m : M unit) (Q : unit -> World -> Prop),
            wp m w Q -> (forall u w', ~ Q u w') -> exists e, m w = Err e) as Hfault.
  { intros m Q Hwp Hn. unfold wp in Hwp.
    destruct (m w) as [[? ?]|e]; [by apply Hn in Hwp|eauto]. }
  assert (~ is_Some (hardwareDevice (film w))) as Hnd by (rewrite Hd; by intros [? ?]).
  repeat split.
  - apply (Hfault _ _ (allocate_needs w)). unfold allocate_ready. tauto.
  - apply (Hfault _ _ (compile_run w)). tauto.
  - intros i. apply (Hfault _ _ (merge_run i w)). unfold merge_ready. tauto.
  - intros i. apply (Hfault _ _ (transfer_write_run i w)). unfold transfer_ready. tauto.
  - intros i. apply (Hfault _ _ (transfer_read_run i w)). unfold transfer_ready. tauto.
  - intros Hhas. apply (Hfault _ _ (write_all_run w)). unfold write_all_ready.
    destruct Hhas; tauto.
  - intros Ha Ho. apply write_all_buffers_spec. split.
    + unfold write_all_ready. rewrite Ha, Ho. split; discriminate.
    + unfold write_all_calls. rewrite Ha, Ho. reflexivity.
Qed.

Lemma methods_need_device_witness : exists e, AllocateHWBuffers setup_world = Err e.
Proof. apply (proj1 (methods_need_device setup_world eq_refl)). Defined.

(** ** The normalization factor away from positive counts *)

(** X18. The comparison of line 295 is false for a sample count that is
    a NaN, negative or minus infinity: the factor is then exactly 1.0,
    whatever the pixel count. A merge for a target without a pipeline then
    binds the unit scale (1, 1, 1) in the per-screen-normalized loop as
    in the per-pixel-normalized one: every scale argument it sets is
    1.0. *)
Theorem normalization_factor_not_positive (pc : Z) (sc : spec_float) :
  sc = S754_nan \/ sc = S754_infinity true \/ (exists m e, sc = S754_finite true m e) ->
  normalization_factor pc sc = F32.one
  /\ forall i w u w',
       pixelCount (film w) = pc ->
       SampleCount_RADIANCE_PER_SCREEN_NORMALIZED (film w) = sc ->
       length (imagePipelines (film w)) <= i ->
       MergeSampleBuffersHW i w = OK (u, w') ->
       calls w' = calls w ++ merge_calls (film w) i
       /\ unit_scale_calls (merge_calls (film w) i).
Proof.
  intros Hsc.
  assert (normalization_factor pc sc = F32.one) as Hone
    by (destruct Hsc as [->|[->|(m & e & ->)]]; reflexivity).
  split; [exact Hone|].
  intros i w u w' Hpc Hcount Hi Hm.
  split; [apply merge_returns in Hm as [_ ->]; apply run_calls|].
  intros k idx v.
  unfold merge_calls, merge_enqueues, per_pixel_calls, per_screen_calls.
  rewrite !elem_of_app. intros [[Hin|[Hin|[Hin|Hin]]]|Hin].
  - apply list_elem_of_In in Hin. simpl in Hin.
    unfold upload_target, dispatch_initialize in Hin. intuition congruence.
  - destruct (HasChannel (film w) RADIANCE_PER_PIXEL_NORMALIZED); [|inversion Hin].
    apply list_elem_of_In, in_flat_map in Hin as (g & _ & Hin).
    unfold per_pixel_group, per_pixel_scale in Hin.
    rewrite (target_pipeline_None _ _ Hi) in Hin. simpl in Hin.
    destruct Hin as [Heq|[Heq|[Heq|[Heq|[Heq|[]]]]]]; congruence.
  - destruct (HasChannel (film w) RADIANCE_PER_SCREEN_NORMALIZED); [|inversion Hin].
    apply list_elem_of_In, in_flat_map in Hin as (g & _ & Hin).
    unfold per_screen_group, per_screen_scale, factor_of in Hin.
    rewrite (target_pipeline_None _ _ Hi), Hpc, Hcount, Hone in Hin.
    change (Spectrum_scale F32.one (configured_scale None g)) with (Spectrum_of F32.one)
      in Hin.
    simpl in Hin.
    destruct Hin as [Heq|[Heq|[Heq|[Heq|[Heq|[]]]]]]; congruence.
  - apply list_elem_of_In in Hin. simpl in Hin.
    unfold download_target, dispatch_finalize in Hin. intuition congruence.
  - apply list_elem_of_In in Hin. simpl in Hin. intuition congruence.
Qed.

Lemma normalization_factor_not_positive_witness :
  normalization_factor 16 S754_nan = F32.one.
Proof. apply (proj1 (normalization_factor_not_positive 16 S754_nan (or_introl eq_refl))). Defined.

(** ** From set-up to merge *)

(** X19. The set-up methods establish every handle a merge needs. After
    [AllocateHWBuffers] and [CompileHWKernels] have returned, a merge for
    target [i] returns, provided the host side has what the merge reads
    (channel [i], the scale entries of the target and the channels of the
    enabled groups) and, when the film has a radiance channel kind, the
    merge buffer size is positive. *)
Theorem setup_enables_merge w u w1 i :
  (AllocateHWBuffers;; CompileHWKernels) w = OK (u, w1) ->
  merge_data_ready (film w) i ->
  (radiance_kinds (film w) = 0 \/ 0 < mergeBufferSize (film w)) ->
  exists w2, MergeSampleBuffersHW i w1 = OK (tt, w2).
Proof.
  intros (u0 & w0 & Ha & Hc)%bind_returns (Hch & Hpp & Hps) Hmb.
  apply merge_ready_returns.
  destruct (wp_elim _ _ _ _ _ (allocate_needs w) Ha) as (_ & Hd & _).
  destruct (outside_buffers_fields _ _ (allocate_outside_buffers _ _ _ Ha))
    as (Hhost0 & _ & Hd0 & _).
  pose proof (allocate_binds_imagepipeline _ _ _ Ha) as Hip.
  destruct (allocate_merge_buffer _ _ _ Ha) as [Hpos _].
  pose proof (compile_returns_run _ _ _ Hc) as E.
  destruct (compile_state w0) as [Hk _]. cbv zeta in Hk. rewrite <- E in Hk.
  assert (outside_kernels w1 = outside_kernels w0) as Hok
    by (rewrite E; apply kernel_only_run, kernel_only_compile_calls).
  destruct (outside_kernels_fields _ _ Hok) as (Hhost1 & _ & _ & _ & Hd1 & Hip1 & Hmb1 & _).
  destruct (host_part_fields (film w1) (film w) ltac:(congruence))
    as (Hhas & Hn & Hips & Hcip & Hcpp & Hcps).
  assert (target_pipeline (film w1) i = target_pipeline (film w) i) as Htp
    by (unfold target_pipeline; by rewrite Hips).
  assert (forall t, HasChannel (film w) t = true ->
            t = RADIANCE_PER_PIXEL_NORMALIZED \/ t = RADIANCE_PER_SCREEN_NORMALIZED ->
            is_Some (hw_mergeBuffer (film w1))) as Hbuf.
  { intros t Ht Hkind. rewrite Hmb1.
    destruct Hmb as [Hz|Hp]; [|destruct (Hpos Hp) as (b & -> & _); eauto].
    unfold radiance_kinds in Hz. destruct Hkind as [-> | ->]; rewrite Ht in Hz;
      [discriminate|].
    destruct (HasChannel (film w) RADIANCE_PER_PIXEL_NORMALIZED); discriminate. }
  unfold merge_ready.
  rewrite Hd1, Hd0, Hcip, Hip1, !Hhas, Hn, Htp.
  split; [exact Hd|]. split; [exact Hch|]. split; [exact Hip|].
  split; [rewrite (Hk slot_Initialize : mergeInitializeKernel _ = _); eauto|].
  split; [rewrite (Hk slot_Finalize : mergeFinalizeKernel _ = _); eauto|].
  split.
  - intros Hhaspp g Hg. destruct (Hpp Hhaspp g Hg) as [Hs Hen].
    split; [exact Hs|]. intros Hg_en. rewrite Hcpp.
    split; [by apply Hen|]. split; [by apply (Hbuf _ Hhaspp); left|].
    rewrite (Hk slot_PER_PIXEL). eauto.
  - intros Hhasps g Hg. destruct (Hps Hhasps g Hg) as [Hs Hen].
    split; [exact Hs|]. intros Hg_en. rewrite Hcps.
    split; [by apply Hen|]. split; [by apply (Hbuf _ Hhasps); right|].
    rewrite (Hk slot_PER_SCREEN). eauto.
Qed.

Lemma setup_enables_merge_witness :
  exists w2, MergeSampleBuffersHW 0 built_world = OK (tt, w2).
Proof.
  apply (setup_enables_merge created_world tt built_world 0).
  - vm_compute. reflexivity.
  - split; [vm_compute; eauto|].
    split; intros _ g Hg; change (radianceGroupCount (film created_world)) with 2 in Hg;
      (destruct g as [|[|g]]; [| |lia]); (split; [intros p [= <-]; vm_compute; eauto|]);
      vm_compute; intros ?; eauto; discriminate.
  - right. vm_compute. lia.
Defined.
